(** * Product resolution engine (product_matcher.py, app_improved.py)

    A shallow embedding of the matching engine of the order-processing
    service: the catalogue cache ([ProductCache]), the token matcher
    ([TokenMatcher]), the strategy pipeline ([EnhancedProductMatcher]) and
    the synonym bookkeeping ([SynonymManager]), followed by the properties
    of the specification that concern them.

    Conventions of the embedding.
    - A Python [str] is a [string]; characters are read as code points
      0..255.
    - [Optional[str]] is [option string]; Python truthiness of such a value
      ([if input_article:]) is [truthy_str].
    - A [dict] keeps its keys in insertion order and that order is
      observable (strategy 4 enumerates the keys), so a dict is an
      association list, see [odict].
    - A [Set[str]] is a [gset string].
    - A Python [float] is an exact rational ([Q]); [int(x)] is truncation
      toward zero.
    - An exception is the [Raise] outcome of the [res] monad.
    - The scorers of the fuzzywuzzy package and the JSON decoder are
      parameters of the development. *)

From Stdlib Require Import ZArith QArith Qround Lqa String Ascii List Lia Bool.
From stdpp Require Import base decidable option list strings gmap sets.
Import ListNotations.

Open Scope string_scope.
Open Scope Z_scope.

(** ** Python primitives *)

Module Py.

(** [if s:] for an optional string: [None] and the empty string are falsy. *)
Definition truthy_str (s : option string) : option string :=
  match s with
  | Some t => if String.eqb t "" then None else Some t
  | None => None
  end.

(** [str.lower] on code points 0..255. *)
Definition lower_ascii (c : ascii) : ascii :=
  let n := N_of_ascii c in
  if ((65 <=? n) && (n <=? 90))%N
     || ((192 <=? n) && (n <=? 222) && negb (n =? 215))%N
  then ascii_of_N (n + 32) else c.

Fixpoint lower (s : string) : string :=
  match s with
  | EmptyString => EmptyString
  | String c s' => String (lower_ascii c) (lower s')
  end.

(** [sub in s] for strings. *)
Fixpoint contains (sub s : string) : bool :=
  String.prefix sub s
  || match s with
     | EmptyString => false
     | String _ s' => contains sub s'
     end.

(** Exceptions that the modelled code can raise. *)
Inductive exn : Type :=
| IndexError
| KeyError
| DatabaseError.

(** The outcome of a call: a value or a raised exception. *)
Inductive res (A : Type) : Type :=
| Ok (a : A)
| Raise (e : exn).
Arguments Ok {A} a.
Arguments Raise {A} e.

Definition bind {A B} (m : res A) (k : A -> res B) : res B :=
  match m with
  | Ok a => k a
  | Raise e => Raise e
  end.

(** [l[0]] *)
Definition index0 {A} (l : list A) : res A :=
  match l with
  | x :: _ => Ok x
  | [] => Raise IndexError
  end.

(** [int(x)] for a float [x]. *)
Definition int_of_float (x : Q) : Z := Z.quot (Qnum x) (Zpos (Qden x)).

(** [x > y] on floats. *)
Definition float_gt (x y : Q) : bool := negb (Qle_bool x y).

End Py.
Import Py.

#[global] Instance res_ret : MRet res := @Ok.
#[global] Instance res_bind : MBind res := fun A B k m => bind m k.

(** ** Insertion-ordered dictionaries *)

Section odict.
Context {V : Type}.

Definition odict := list (string * V).

(** [d.get(k)] *)
Fixpoint dict_get (d : odict) (k : string) : option V :=
  match d with
  | [] => None
  | (k', v) :: d' => if String.eqb k k' then Some v else dict_get d' k
  end.

(** [d[k] = v]: an existing key keeps its position. *)
Fixpoint dict_set (d : odict) (k : string) (v : V) : odict :=
  match d with
  | [] => [(k, v)]
  | (k', v') :: d' =>
      if String.eqb k k' then (k, v) :: d' else (k', v') :: dict_set d' k v
  end.

(** [list(d.keys())] *)
Definition dict_keys (d : odict) : list string := map fst d.

End odict.
Arguments odict V : clear implicits.

(** [d[k].append(x)] on a [defaultdict(list)]. *)
Definition dict_append {A} (d : odict (list A)) (k : string) (x : A)
  : odict (list A) :=
  dict_set d k (default [] (dict_get d k) ++ [x])%list.

(** [d.get(k, [])] *)
Definition dict_get_list {A} (d : odict (list A)) (k : string) : list A :=
  default [] (dict_get d k).

(** ** TokenMatcher *)

Module TokenMatcher.

Definition is_digit (c : ascii) : bool :=
  let n := N_of_ascii c in ((48 <=? n) && (n <=? 57))%N.

(** [\s] of a str pattern, on code points 0..255. *)
Definition is_space (c : ascii) : bool :=
  let n := N_of_ascii c in
  (((9 <=? n) && (n <=? 13)) || ((28 <=? n) && (n <=? 32))
   || (n =? 133) || (n =? 160))%N.

(** The longest prefix of [s] whose characters satisfy [p], and the rest. *)
Fixpoint span (p : ascii -> bool) (s : string) : string * string :=
  match s with
  | EmptyString => (EmptyString, EmptyString)
  | String c s' =>
      if p c then let '(a, b) := span p s' in (String c a, b)
      else (EmptyString, s)
  end.

(** The capture group of the size patterns (one or more digits, an optional
    dot, any number of digits) at the head of [s]: the captured text and what
    follows it. The quantifiers are greedy; giving back a digit or the dot
    leaves that character in front of the literal that follows the group in
    each of the three patterns, so no shorter capture can match. *)
Definition match_number (s : string) : option (string * string) :=
  let '(d1, r1) := span is_digit s in
  match d1 with
  | EmptyString => None
  | _ =>
      match r1 with
      | String "."%char r2 =>
          let '(d2, r3) := span is_digit r2 in
          Some (d1 ++ "." ++ d2, r3)
      | _ => Some (d1, r1)
      end
  end.

Definition is_m (c : ascii) : bool :=
  Ascii.eqb c "m"%char || Ascii.eqb c "M"%char.

(** First size pattern: the group, optional white space, then [mm] in either
    case; anchored at the head of [s]. *)
Definition pattern_mm (s : string) : option (string * string) :=
  match match_number s with
  | Some (g, r) =>
      match snd (span is_space r) with
      | String a (String b r') => if is_m a && is_m b then Some (g, r') else None
      | _ => None
      end
  | None => None
  end.

Definition inch_mark : ascii := ascii_of_N 34.

(** Second size pattern: the group, optional white space, an inch mark. *)
Definition pattern_inch (s : string) : option (string * string) :=
  match match_number s with
  | Some (g, r) =>
      match snd (span is_space r) with
      | String a r' => if Ascii.eqb a inch_mark then Some (g, r') else None
      | _ => None
      end
  | None => None
  end.

(** Third size pattern: the group between parentheses. *)
Definition pattern_paren (s : string) : option (string * string) :=
  match s with
  | String "("%char s1 =>
      match match_number s1 with
      | Some (g, String ")"%char r') => Some (g, r')
      | _ => None
      end
  | _ => None
  end.

(** [re.findall(pattern, text)] for a pattern with one group that never
    matches the empty string: the matches are found left to right and do not
    overlap. [skip] counts the characters of the last match that are still to
    be passed over. *)
Fixpoint findall (pattern : string -> option (string * string)) (skip : nat)
    (text : string) : list string :=
  match text with
  | EmptyString => []
  | String _ text' =>
      match skip with
      | S k => findall pattern k text'
      | O =>
          match pattern text with
          | Some (g, rest) =>
              g :: findall pattern
                     (String.length text - String.length rest - 1) text'
          | None => findall pattern 0 text'
          end
      end
  end.

Definition size_patterns : list (string -> option (string * string)) :=
  [pattern_mm; pattern_inch; pattern_paren].

Definition colors : list string :=
  ["black"; "red"; "blue"; "green"; "white"; "yellow";
   "orange"; "purple"; "pink"; "brown"; "grey"; "gray"].

Definition extract_tokens (text : string) : gset string :=
  let tokens :=
    fold_left
      (fun (tokens : gset string) pattern =>
         tokens ∪ list_to_set (map lower (findall pattern 0 text)))
      size_patterns ∅ in
  let text_lower := lower text in
  fold_left
    (fun (tokens : gset string) color =>
       if contains color text_lower then tokens ∪ {[color]} else tokens)
    colors tokens.

Definition token_similarity (tokens1 tokens2 : gset string) : Q :=
  if bool_decide (tokens1 = ∅) || bool_decide (tokens2 = ∅) then 0%Q
  else
    let intersection := tokens1 ∩ tokens2 in
    let union := tokens1 ∪ tokens2 in
    if bool_decide (union = ∅) then 0%Q
    else (inject_Z (Z.of_nat (size intersection))
          / inject_Z (Z.of_nat (size union)))%Q.

End TokenMatcher.

Import TokenMatcher.

(** ** fuzzywuzzy.process

    The two entry points of the package that the matcher calls, over an
    arbitrary scorer. [scorer query choice] stands for the score that the
    package computes for a choice (its default processor included); the
    choices are sequences, not mappings. *)

Module process.

Abbreviation scored := (string * Z)%type.

(** The pairs [(choice, score)] with [score >= score_cutoff], in the order of
    the choices. *)
Definition extractWithoutOrder (scorer : string -> string -> Z)
    (query : string) (choices : list string) (score_cutoff : Z)
  : list scored :=
  List.filter (fun m : scored => score_cutoff <=? m.2)
    (map (fun choice => (choice, scorer query choice)) choices).

(** [max(best_list, key=score)] with [best] the maximum so far: a later
    element replaces it only when strictly greater. *)
Fixpoint max_by_score (best : scored) (l : list scored) : scored :=
  match l with
  | [] => best
  | m :: l' => max_by_score (if best.2 <? m.2 then m else best) l'
  end.

(** [extractOne(query, choices, scorer=scorer)]; [None] when nothing is
    scored (the [ValueError] of [max] is caught by the package). *)
Definition extractOne (scorer : string -> string -> Z) (query : string)
    (choices : list string) : option scored :=
  match extractWithoutOrder scorer query choices 0 with
  | [] => None
  | m :: l => Some (max_by_score m l)
  end.

(** Insertion in a list sorted by decreasing score, in front of the elements
    that do not score more. *)
Fixpoint insert_desc (m : scored) (l : list scored) : list scored :=
  match l with
  | [] => [m]
  | m' :: l' => if m.2 <? m'.2 then m' :: insert_desc m l' else m :: l
  end.

(** [sorted(l, key=score, reverse=True)]: stable. *)
Definition sorted_desc (l : list scored) : list scored :=
  foldr insert_desc [] l.

(** [extract(query, choices, scorer=scorer, limit=limit)], that is
    [heapq.nlargest(limit, ...)], which equals the first [limit] elements of
    the stable sort by decreasing score. *)
Definition extract (scorer : string -> string -> Z) (query : string)
    (choices : list string) (limit : nat) : list scored :=
  take limit (sorted_desc (extractWithoutOrder scorer query choices 0)).

End process.

(** ** Rows and cache records *)

(** A row of the catalogue file: [product.get('Article Number')] and
    [product.get('Product')]. *)
Record csv_row : Type := {
  Article_Number : option string;
  Product : option string;
}.

(** A row of the [products] table: [article_number], [product_name] and the
    [synonyms] column, which holds JSON text. *)
Record db_row : Type := {
  article_number : option string;
  product_name : option string;
  synonyms : option string;
}.

(** [{'article': .., 'name': .., 'source': ..}] *)
Record product_variant : Type := {
  v_article : string;
  v_name : string;
  v_source : string;
}.

(** [{'article': .., 'name': ..}] *)
Record product_entry : Type := {
  p_article : string;
  p_name : string;
}.

(** [{'article': .., 'product': .., 'score': ..}] *)
Record synonym_record : Type := {
  s_article : option string;
  s_product : option string;
  s_score : Z;
}.

(** The fields of a [ProductCache] object (the lock apart, see [Locking]). *)
Record ProductCache : Type := {
  _article_to_products : odict (list product_variant);
  _product_to_articles : odict (list string);
  _synonym_map : odict synonym_record;
  _all_products : list product_entry;
  _last_refresh : option Z;
  _version : Z;
}.

(** [ProductCache()] *)
Definition ProductCache_init : ProductCache := {|
  _article_to_products := [];
  _product_to_articles := [];
  _synonym_map := [];
  _all_products := [];
  _last_refresh := None;
  _version := 0;
|}.

Definition get_products_by_article (self : ProductCache) (article : string)
  : list product_variant :=
  dict_get_list (_article_to_products self) article.

Definition get_articles_by_product (self : ProductCache) (product : string)
  : list string :=
  dict_get_list (_product_to_articles self) product.

Definition get_all_products (self : ProductCache) : list product_entry :=
  _all_products self.

Definition get_synonym_match (self : ProductCache) (text : string)
  : option synonym_record :=
  dict_get (_synonym_map self) (lower text).

(** The result of [match_product]:
    [(matched_article, matched_product, score, method)]. *)
Definition match_tuple : Type :=
  option string * option string * Z * option string.

Definition no_match : match_tuple := (None, None, 0, None).

Definition matched_article (t : match_tuple) : option string := t.1.1.1.
Definition matched_product (t : match_tuple) : option string := t.1.1.2.
Definition match_score (t : match_tuple) : Z := t.1.2.
Definition match_method (t : match_tuple) : option string := t.2.

Section Engine.

(** [fuzz.ratio] and [fuzz.token_sort_ratio] as [process] applies them. *)
Variables ratio token_sort_ratio : string -> string -> Z.

(** [json.loads] on the text of a synonyms column: the decoded list, or
    [None] for [json.JSONDecodeError]. *)
Variable json_loads : string -> option (list string).

(** ** ProductCache.refresh *)

(** One turn of the loop over [products_data]. *)
Definition refresh_product (self : ProductCache) (product : csv_row)
  : ProductCache :=
  let article := Article_Number product in
  let name := Product product in
  match truthy_str article, truthy_str name with
  | Some article, Some name =>
      {| _article_to_products :=
           dict_append (_article_to_products self) article
             {| v_article := article; v_name := name; v_source := "csv" |};
         _product_to_articles :=
           dict_append (_product_to_articles self) name article;
         _synonym_map := _synonym_map self;
         _all_products :=
           (_all_products self
            ++ [{| p_article := article; p_name := name |}])%list;
         _last_refresh := _last_refresh self;
         _version := _version self |}
  | _, _ => self
  end.

Definition set_synonym_map (self : ProductCache)
    (m : odict synonym_record) : ProductCache :=
  {| _article_to_products := _article_to_products self;
     _product_to_articles := _product_to_articles self;
     _synonym_map := m;
     _all_products := _all_products self;
     _last_refresh := _last_refresh self;
     _version := _version self |}.

(** One turn of the loop over [db_products]. *)
Definition refresh_synonyms (self : ProductCache) (db_product : db_row)
  : ProductCache :=
  let article := article_number db_product in
  let name := product_name db_product in
  match truthy_str (synonyms db_product) with
  | Some synonyms_json =>
      match json_loads synonyms_json with
      | Some synonyms =>
          fold_left
            (fun self synonym =>
               set_synonym_map self
                 (dict_set (_synonym_map self) (lower synonym)
                    {| s_article := article; s_product := name;
                       s_score := 100 |}))
            synonyms self
      | None => self
      end
  | None => self
  end.

(** The four [clear()] and [= []] statements at the head of [refresh]. *)
Definition clear (self : ProductCache) : ProductCache :=
  {| _article_to_products := [];
     _product_to_articles := [];
     _synonym_map := [];
     _all_products := [];
     _last_refresh := _last_refresh self;
     _version := _version self |}.

(** [refresh(products_data, db_products)]; [now] is the reading of
    [datetime.now()]. The object is updated in place: the result is the new
    state of [self]. *)
Definition refresh (self : ProductCache) (products_data : list csv_row)
    (db_products : list db_row) (now : Z) : ProductCache :=
  let self := clear self in
  let self := fold_left refresh_product products_data self in
  let self := fold_left refresh_synonyms db_products self in
  {| _article_to_products := _article_to_products self;
     _product_to_articles := _product_to_articles self;
     _synonym_map := _synonym_map self;
     _all_products := _all_products self;
     _last_refresh := Some now;
     _version := _version self + 1 |}.

(** ** EnhancedProductMatcher *)

Definition _choose_best_candidate (input_product : string)
    (candidates : list product_variant) : option product_variant :=
  let candidate_names := map v_name candidates in
  match process.extractOne token_sort_ratio input_product candidate_names with
  | Some best_match =>
      List.find (fun candidate => String.eqb (v_name candidate) best_match.1)
        candidates
  | None => None
  end.

Definition _choose_best_article_by_tokens (self : ProductCache)
    (input_product : string) (articles : list string) : option string :=
  let input_tokens := extract_tokens input_product in
  if bool_decide (input_tokens = ∅) then None
  else
    let '(best_article, best_score) :=
      fold_left
        (fun best article =>
           fold_left
             (fun best product =>
                let '(best_article, best_score) := best in
                let product_tokens := extract_tokens (v_name product) in
                let score := token_similarity input_tokens product_tokens in
                if float_gt score best_score then (Some article, score)
                else (best_article, best_score))
             (get_products_by_article self article) best)
        articles (None, 0%Q) in
    if float_gt best_score (1 # 2) then best_article else None.

(** [combined_score] of one fuzzy match. *)
Definition combined_score (input_tokens : gset string)
    (match_ : process.scored) : Q :=
  let product_name := match_.1 in
  let fuzzy_score := match_.2 in
  let product_tokens := extract_tokens product_name in
  let token_score := token_similarity input_tokens product_tokens in
  (inject_Z fuzzy_score * (7 # 10) + token_score * 100 * (3 # 10))%Q.

Definition _enhance_with_tokens (input_product : string)
    (fuzzy_matches : list process.scored)
    (all_products : list product_entry) : res process.scored :=
  let input_tokens := extract_tokens input_product in
  first ← index0 fuzzy_matches;
  let best_match := first in
  let best_combined_score := inject_Z first.2 in
  mret
    (fold_left
       (fun best match_ =>
          let '(best_match, best_combined_score) := best in
          let combined_score := combined_score input_tokens match_ in
          if float_gt combined_score best_combined_score
          then ((match_.1, int_of_float combined_score), combined_score)
          else (best_match, best_combined_score))
       fuzzy_matches (best_match, best_combined_score)).1.

(** A strategy either returns a result ([Some]) or lets the next one run
    ([None]). *)
Definition strategy : Type := res (option match_tuple).

(** Strategy 1: exact article number match. *)
Definition strategy1 (self : ProductCache)
    (input_product input_article : option string) : strategy :=
  match truthy_str input_article with
  | Some input_article =>
      let products := get_products_by_article self input_article in
      match products with
      | [] => mret None
      | _ =>
          if (length products =? 1)%nat then
            p ← index0 products;
            mret (Some (Some (v_article p), Some (v_name p), 100,
                        Some "exact_article"))
          else
            match truthy_str input_product with
            | Some input_product =>
                match _choose_best_candidate input_product products with
                | Some best_match =>
                    mret (Some (Some (v_article best_match),
                                Some (v_name best_match), 100,
                                Some "exact_article_disambiguated"))
                | None => mret None
                end
            | None =>
                p ← index0 products;
                mret (Some (Some (v_article p), Some (v_name p), 100,
                            Some "exact_article_first"))
            end
      end
  | None => mret None
  end.

(** Strategy 2: exact product name match. *)
Definition strategy2 (self : ProductCache) (input_product : option string)
  : strategy :=
  match truthy_str input_product with
  | Some input_product =>
      let articles := get_articles_by_product self input_product in
      match articles with
      | [] => mret None
      | _ =>
          if (length articles =? 1)%nat then
            a ← index0 articles;
            mret (Some (Some a, Some input_product, 100,
                        Some "exact_product"))
          else
            let best_article :=
              _choose_best_article_by_tokens self input_product articles in
            match truthy_str best_article with
            | Some best_article =>
                mret (Some (Some best_article, Some input_product, 100,
                            Some "exact_product_token_disambiguated"))
            | None =>
                a ← index0 articles;
                mret (Some (Some a, Some input_product, 100,
                            Some "exact_product_first"))
            end
      end
  | None => mret None
  end.

(** Strategy 3: synonym match. *)
Definition strategy3 (self : ProductCache) (input_product : option string)
  : strategy :=
  match truthy_str input_product with
  | Some input_product =>
      match get_synonym_match self input_product with
      | Some synonym_match =>
          mret (Some (s_article synonym_match, s_product synonym_match,
                      s_score synonym_match, Some "synonym_match"))
      | None => mret None
      end
  | None => mret None
  end.

(** Strategy 4: fuzzy article number match. *)
Definition strategy4 (self : ProductCache) (input_article : option string)
  : strategy :=
  match truthy_str input_article with
  | Some input_article =>
      let all_articles := dict_keys (_article_to_products self) in
      match all_articles with
      | [] => mret None
      | _ =>
          match process.extractOne ratio input_article all_articles with
          | Some best_match =>
              if 85 <=? best_match.2 then
                let products := get_products_by_article self best_match.1 in
                match products with
                | [] => mret None
                | _ =>
                    p ← index0 products;
                    mret (Some (Some (v_article p), Some (v_name p),
                                best_match.2, Some "fuzzy_article"))
                end
              else mret None
          | None => mret None
          end
      end
  | None => mret None
  end.

(** Strategy 5: fuzzy product name match with token enhancement. *)
Definition strategy5 (self : ProductCache) (input_product : option string)
    (threshold : Z) : strategy :=
  match truthy_str input_product with
  | Some input_product =>
      let all_products := get_all_products self in
      let product_names := map p_name all_products in
      let matches :=
        process.extract token_sort_ratio input_product product_names 5 in
      match matches with
      | [] => mret None
      | _ =>
          let valid_matches :=
            List.filter (fun m : process.scored => threshold <=? m.2)
              matches in
          match valid_matches with
          | [] => mret None
          | _ =>
              best_match ←
                (if (1 <? length valid_matches)%nat
                 then _enhance_with_tokens input_product valid_matches
                        all_products
                 else index0 valid_matches);
              let matched_product := best_match.1 in
              let articles :=
                get_articles_by_product self matched_product in
              match articles with
              | [] => mret None
              | _ =>
                  article ←
                    (if (1 <? length articles)%nat then
                       let best_article :=
                         _choose_best_article_by_tokens self input_product
                           articles in
                       match truthy_str best_article with
                       | Some best_article => mret best_article
                       | None => index0 articles
                       end
                     else index0 articles);
                  mret (Some (Some article, Some matched_product,
                              best_match.2,
                              Some "fuzzy_product_token_enhanced"))
              end
          end
      end
  | None => mret None
  end.

(** The first strategy that returns a result decides. *)
Definition or_else (s : strategy) (next : res match_tuple)
  : res match_tuple :=
  r ← s;
  match r with
  | Some t => mret t
  | None => next
  end.

Definition match_product (self : ProductCache)
    (input_product input_article : option string) (threshold : Z)
  : res match_tuple :=
  or_else (strategy1 self input_product input_article)
  (or_else (strategy2 self input_product)
  (or_else (strategy3 self input_product)
  (or_else (strategy4 self input_article)
  (or_else (strategy5 self input_product threshold)
  (mret no_match))))).

End Engine.

(** ** SynonymManager *)

(** A pending suggestion, the dict built by [suggest_synonym]. *)
Record suggestion : Type := {
  sg_synonym : string;
  sg_article : string;
  sg_product : option string;
  sg_score : Z;
  sg_suggested_at : Z;
  sg_status : string;
}.

(** The mutable fields of a [SynonymManager] object. *)
Record SynonymManager : Type := {
  pending_synonyms : list suggestion;
  usage_stats : odict Z;
}.

(** [SynonymManager(db_module)] *)
Definition SynonymManager_init : SynonymManager :=
  {| pending_synonyms := []; usage_stats := [] |}.

(** [suggest_synonym]; [now] is the reading of [datetime.now()]. *)
Definition suggest_synonym (self : SynonymManager) (original_text : string)
    (matched_article : string) (matched_product : option string)
    (match_score : Z) (now : Z) : SynonymManager :=
  if (85 <=? match_score) && (match_score <? 100) then
    let suggestion :=
      {| sg_synonym := original_text;
         sg_article := matched_article;
         sg_product := matched_product;
         sg_score := match_score;
         sg_suggested_at := now;
         sg_status := "pending" |} in
    {| pending_synonyms := (pending_synonyms self ++ [suggestion])%list;
       usage_stats := usage_stats self |}
  else self.

(** [self.usage_stats[synonym] += 1] on a [defaultdict(int)]. *)
Definition track_usage (self : SynonymManager) (synonym : string)
  : SynonymManager :=
  {| pending_synonyms := pending_synonyms self;
     usage_stats :=
       dict_set (usage_stats self) synonym
         (default 0 (dict_get (usage_stats self) synonym) + 1) |}.

Definition get_pending_synonyms (self : SynonymManager) : list suggestion :=
  pending_synonyms self.

(** The filter of [approve_synonym] and [reject_synonym]: the suggestions that
    stay pending. *)
Definition stays_pending (synonym article : string) (s : suggestion) : bool :=
  negb (String.eqb (sg_synonym s) synonym)
  || negb (String.eqb (sg_article s) article).

Definition reject_synonym (self : SynonymManager) (synonym article : string)
  : bool * SynonymManager :=
  let original_count := length (pending_synonyms self) in
  let self' :=
    {| pending_synonyms :=
         List.filter (stays_pending synonym article) (pending_synonyms self);
       usage_stats := usage_stats self |} in
  let removed := (original_count - length (pending_synonyms self'))%nat in
  if (0 <? removed)%nat then (true, self') else (false, self').

Section Approve.

(** The module handed to [SynonymManager(db_module)]: the state of the
    product store and the two calls that [approve_synonym] makes. A call
    returns its outcome together with the state it leaves behind. *)
Variable DB : Type.
Variable get_product_by_article : string -> DB -> res (option db_row) * DB.
Variable update_product : string -> list string -> DB -> res unit * DB.
Variable json_loads : string -> option (list string).

(** [approve_synonym]: the result, the new state of the manager and the new
    state of the store. Every [Raise] ends in the handler, which returns
    [False]. *)
Definition approve_synonym (self : SynonymManager) (synonym article : string)
    (db : DB) : bool * SynonymManager * DB :=
  match get_product_by_article article db with
  | (Raise _, db) => (false, self, db)
  | (Ok None, db) => (false, self, db)
  | (Ok (Some product), db) =>
      let existing_synonyms :=
        match truthy_str (synonyms product) with
        | Some text => default [] (json_loads text)
        | None => []
        end in
      if negb (existsb (String.eqb synonym) existing_synonyms) then
        let existing_synonyms := (existing_synonyms ++ [synonym])%list in
        match update_product article existing_synonyms db with
        | (Raise _, db) => (false, self, db)
        | (Ok _, db) =>
            let self :=
              {| pending_synonyms :=
                   List.filter (stays_pending synonym article)
                     (pending_synonyms self);
                 usage_stats := usage_stats self |} in
            (true, self, db)
        end
      else (false, self, db)
  end.

End Approve.

(** ** app_improved.fuzzy_match_product *)

Section Observe.

Variables ratio token_sort_ratio : string -> string -> Z.

(** The bookkeeping that follows [match_product]: usage tracking for a
    synonym match, a suggestion for a strong fuzzy match. *)
Definition observe (synonym_manager : SynonymManager)
    (input_product : option string) (result : match_tuple) (now : Z)
  : SynonymManager :=
  let '(article, product, score, method) := result in
  let synonym_manager :=
    match truthy_str input_product with
    | Some text =>
        if bool_decide (method = Some "synonym_match")
        then track_usage synonym_manager text else synonym_manager
    | None => synonym_manager
    end in
  match truthy_str article, truthy_str input_product with
  | Some article, Some text =>
      if (85 <=? score) && (score <? 100)
      then suggest_synonym synonym_manager text article product score now
      else synonym_manager
  | _, _ => synonym_manager
  end.

(** [fuzzy_match_product(input_product, input_article, threshold)] on the
    global cache and synonym manager: the returned tuple and the new state
    of the manager. *)
Definition fuzzy_match_product (product_cache : ProductCache)
    (synonym_manager : SynonymManager)
    (input_product input_article : option string) (threshold : Z) (now : Z)
  : res (match_tuple * SynonymManager) :=
  result ← match_product ratio token_sort_ratio product_cache
             input_product input_article threshold;
  mret (result, observe synonym_manager input_product result now).

End Observe.

(** ** Threads and the cache lock

    Every method of [ProductCache] runs its body inside
    [with self._lock:]. The threads of the service share one cache object
    (the module-level [product_cache], which the matcher holds as
    [self.cache]); a thread is either outside the lock or inside the body of
    one call. A step of the system is a step of one thread. *)

Module Locking.

(** The accessor methods and what they return. *)
Inductive query : Type :=
| ByArticle (article : string)
| ByProduct (product : string)
| AllProducts
| SynonymMatch (text : string)
| CacheInfo.

Inductive answer : Type :=
| Variants (l : list product_variant)
| Articles (l : list string)
| Entries (l : list product_entry)
| Synonym (r : option synonym_record)
| Info (version : Z) (last_refresh : option Z)
       (total_products total_synonyms unique_articles unique_product_names
        : nat).

(** [get_cache_info] *)
Definition get_cache_info (self : ProductCache) : answer :=
  Info (_version self) (_last_refresh self)
    (length (_all_products self)) (length (_synonym_map self))
    (length (_article_to_products self))
    (length (_product_to_articles self)).


(** A call that a thread makes on the cache. *)
Inductive call : Type :=
| Refresh (products_data : list csv_row) (db_products : list db_row) (now : Z)
| Query (q : query).

(** The statements of a method body, each executed in one step. *)
Inductive action : Type :=
| Clear
| AddProduct (product : csv_row)
| AddSynonyms (db_product : db_row)
| Stamp (now : Z)
| Read (q : query).



(** A thread: outside the lock ([Idle]) or inside a body of which some
    statements remain, and the calls it has still to make. *)
Inductive control : Type :=
| Idle
| Holding (rest : list action).

Record thread : Type := {
  pc : control;
  todo : list call;
}.

(** An observation: the thread, the query and what the call returned. *)
Record entry : Type := {
  e_thread : nat;
  e_query : query;
  e_answer : answer;
}.

(** The cache object, the thread that holds its lock, the threads, and the
    observations made so far. *)
Record state : Type := {
  object : ProductCache;
  owner : option nat;
  pool : list thread;
  log : list entry;
}.


Section Steps.

Variable json_loads : string -> option (list string).








Definition idle_except (o : option nat) (threads : list thread) : Prop :=
  ∀ j th, threads !! j = Some th → Some j ≠ o → pc th = Idle.




End Steps.

End Locking.

(** ** database.py

    The [products] table restricted to the columns that the matcher reads,
    and the two calls that [SynonymManager] makes. [json_dumps] is
    [json.dumps]. *)

Module database.

Definition table : Type := list db_row.

Definition has_article (article : string) (r : db_row) : bool :=
  bool_decide (article_number r = Some article).

(** [SELECT * FROM products WHERE article_number = ?], first row or [None]. *)
Definition get_product_by_article (article : string) (db : table)
  : res (option db_row) * table :=
  (Ok (List.find (has_article article) db), db).

(** [update_product(article, synonyms=l)]:
    [UPDATE products SET synonyms = ? WHERE article_number = ?]. *)
Definition update_product (json_dumps : list string -> string)
    (article : string) (l : list string) (db : table) : res unit * table :=
  (Ok tt,
   map (fun r =>
          if has_article article r
          then {| article_number := article_number r;
                  product_name := product_name r;
                  synonyms := Some (json_dumps l) |}
          else r) db).

(** A store that cannot be reached: every call raises. *)
Definition unreachable_get (article : string) (db : table)
  : res (option db_row) * table :=
  (Raise DatabaseError, db).

Definition unreachable_update (article : string) (l : list string)
    (db : table) : res unit * table :=
  (Raise DatabaseError, db).

End database.

(** * Fixtures

    Concrete inputs on which the definitions above are evaluated: a decoder
    for the JSON texts that occur in them, scorers given by their table of
    values, and the catalogues of test_improvements.py. *)

Module Json.

Definition quote : ascii := ascii_of_N 34.
Definition backslash : ascii := ascii_of_N 92.

(** [s] between quotes. *)
Definition quoted (s : string) : string :=
  String quote (s ++ String quote "").

Fixpoint skip_spaces (s : string) : string :=
  match s with
  | String " "%char s' => skip_spaces s'
  | _ => s
  end.

(** The characters up to the closing quote, and what follows it. *)
Fixpoint read_string (s : string) : option (string * string) :=
  match s with
  | EmptyString => None
  | String c s' =>
      if Ascii.eqb c quote then Some ("", s')
      else if Ascii.eqb c backslash then None
      else '(t, r) ← read_string s'; Some (String c t, r)
  end.

(** The items of an array, from the first item on. *)
Fixpoint read_items (fuel : nat) (s : string) : option (list string) :=
  match fuel with
  | O => None
  | S fuel =>
      match skip_spaces s with
      | String c s1 =>
          if Ascii.eqb c quote then
            '(t, r) ← read_string s1;
            match skip_spaces r with
            | String ","%char r' => cons t <$> read_items fuel r'
            | String "]"%char r' =>
                match skip_spaces r' with
                | EmptyString => Some [t]
                | _ => None
                end
            | _ => None
            end
          else None
      | EmptyString => None
      end
  end.

(** [json.loads] restricted to the arrays of strings without escape
    sequences; any other text is rejected. *)
Definition loads (s : string) : option (list string) :=
  match skip_spaces s with
  | String "["%char s1 =>
      match skip_spaces s1 with
      | String "]"%char r =>
          match skip_spaces r with
          | EmptyString => Some []
          | _ => None
          end
      | _ => read_items (String.length s) s1
      end
  | _ => None
  end.

(** [json.dumps] of a list of strings without characters to escape. *)
Definition dumps (l : list string) : string :=
  "[" ++ String.concat ", " (map quoted l) ++ "]".

End Json.

Module Fixtures.

(** A scorer given by a table of [(query, choice, score)]; pairs outside the
    table score 0. *)
Definition table_scorer (table : list (string * string * Z))
    (query choice : string) : Z :=
  match
    List.find
      (fun e : string * string * Z =>
         String.eqb e.1.1 query && String.eqb e.1.2 choice) table
  with
  | Some e => e.2
  | None => 0
  end.

Definition row (article name : string) : csv_row :=
  {| Article_Number := Some article; Product := Some name |}.

(** The catalogue of [TestProductCache]: the first and third rows share
    their name. *)
Definition products_data : list csv_row :=
  [row "12345" "Rakza 9 Black 2.0mm";
   row "12346" "Rakza 9 Red 2.0mm";
   row "12347" "Rakza 9 Black 2.0mm"].

Definition db_products : list db_row :=
  [{| article_number := Some "12345";
      product_name := Some "Rakza 9 Black 2.0mm";
      synonyms := Some (Json.dumps ["R9 Black"; "Rakza9"]) |}].

Definition cache : ProductCache :=
  refresh Json.loads ProductCache_init products_data db_products 0.

(** Values of [fuzz.token_sort_ratio] on the names of [cache]. *)
Definition name_scores : list (string * string * Z) :=
  [("Rakza 9 Black", "Rakza 9 Black 2.0mm", 81);
   ("Rakza 9 Black", "Rakza 9 Red 2.0mm", 47);
   ("r9 blac", "Rakza 9 Black 2.0mm", 46);
   ("r9 blac", "Rakza 9 Red 2.0mm", 17);
   ("r9 black", "Rakza 9 Black 2.0mm", 52);
   ("r9 black", "Rakza 9 Red 2.0mm", 16);
   ("RAKZA 9 RED 2.0MM", "Rakza 9 Red 2.0mm", 100);
   ("RAKZA 9 RED 2.0MM", "Rakza 9 Black 2.0mm", 72)].

(** Values of [fuzz.ratio] on the article numbers of [cache]. *)
Definition article_scores : list (string * string * Z) :=
  [("12345", "12345", 100); ("12345", "12346", 80); ("12345", "12347", 80);
   ("99", "12345", 0); ("99", "12346", 0); ("99", "12347", 0)].

(** Two name variants recorded under one article number. *)
Definition variants_data : list csv_row :=
  [row "12345" "Rakza 9 Black 2.0mm";
   row "12345" "Rakza 9 Black 2.0 mm";
   row "12346" "Rakza 9 Red 2.0mm"].

Definition variants_cache : ProductCache :=
  refresh Json.loads ProductCache_init variants_data [] 0.

(** A catalogue with a plain product, its red variant and a third
    product, and the values of [fuzz.token_sort_ratio] of a query against
    their names. *)
Definition tenergy_data : list csv_row :=
  [row "20001" "Tenergy 05";
   row "20002" "Tenergy 05 Red 2.1mm";
   row "20003" "Tenergy 05 FX"].

Definition tenergy_cache : ProductCache :=
  refresh Json.loads ProductCache_init tenergy_data [] 0.

(** A product and a red product, and the values of
    [fuzz.token_sort_ratio] of a query that names both. *)
Definition hard_data : list csv_row :=
  [row "30001" "Rakza 9 Hard"; row "30002" "Rakza 9 red"].


Definition hard_scores : list (string * string * Z) :=
  [("Rakza 9 Hard red", "Rakza 9 Hard", 86);
   ("Rakza 9 Hard red", "Rakza 9 red", 81)].

(** A name without size or colour recorded under two article numbers. *)
Definition plain_data : list csv_row :=
  [row "20001" "Tenergy 05"; row "20004" "Tenergy 05"].

Definition plain_cache : ProductCache :=
  refresh Json.loads ProductCache_init plain_data [] 0.

Definition tenergy_scores : list (string * string * Z) :=
  [("Tenergy 05 red", "Tenergy 05", 83);
   ("Tenergy 05 red", "Tenergy 05 Red 2.1mm", 82);
   ("Tenergy 05 red", "Tenergy 05 FX", 81)].

Definition token_sort_ratio : string -> string -> Z :=
  table_scorer (name_scores ++ tenergy_scores ++ hard_scores).



(** A manager with one pending suggestion. *)
Definition manager : SynonymManager :=
  suggest_synonym SynonymManager_init "Rakza 9 Blck 2.0mm" "12345"
    (Some "Rakza 9 Black 2.0mm") 97 0.
Definition ratio : string -> string -> Z := table_scorer article_scores.

End Fixtures.

(** * Notions used in the statements *)

(** The values of the [MatchMethod] enumeration of parsing_engine.py. *)
Definition MatchMethod_values : list string :=
  ["exact_article"; "exact_product"; "fuzzy_article"; "fuzzy_product";
   "synonym_match"; "token_enhanced"].

(** The method tags that the exact-name strategy returns. *)
Definition exact_name_methods : list string :=
  ["exact_product"; "exact_product_token_disambiguated";
   "exact_product_first"].

(** The number of pending suggestions for a pair of synonym text and article
    number. *)
Definition pending_count (synonym article : string) (self : SynonymManager)
  : nat :=
  length
    (List.filter
       (fun s => String.eqb (sg_synonym s) synonym
                 && String.eqb (sg_article s) article)
       (pending_synonyms self)).

(** The update of [(best_match, best_combined_score)] for one fuzzy match in
    [_enhance_with_tokens]. *)
Definition enhance_step (input_tokens : gset string)
    (best : process.scored * Q) (match_ : process.scored)
  : process.scored * Q :=
  let '(best_match, best_combined_score) := best in
  let combined_score := combined_score input_tokens match_ in
  if float_gt combined_score best_combined_score
  then ((match_.1, int_of_float combined_score), combined_score)
  else (best_match, best_combined_score).

(** What the loop of [_enhance_with_tokens] has established after the
    matches [seen]: no combined score has exceeded the fuzzy score of the
    first match and the best match is the first one, or the best match is the
    earliest of [seen] with the greatest combined score. *)
Definition enhance_invariant (input_tokens : gset string)
    (first : process.scored) (seen : list process.scored)
    (best : process.scored * Q) : Prop :=
  (Forall
     (fun m => (combined_score input_tokens m <= inject_Z first.2)%Q) seen
   ∧ best = (first, inject_Z first.2))
  ∨ (∃ m pre post,
       seen = (pre ++ m :: post)%list
       ∧ Forall
           (fun m' => (combined_score input_tokens m'
                       < combined_score input_tokens m)%Q) pre
       ∧ Forall
           (fun m' => (combined_score input_tokens m'
                       <= combined_score input_tokens m)%Q) post
       ∧ best = ((m.1, int_of_float (combined_score input_tokens m)),
                 combined_score input_tokens m)
       ∧ (inject_Z first.2 < combined_score input_tokens m)%Q).


(** The matches that survive the threshold in strategy 5. *)
Definition valid_matches (token_sort_ratio : string -> string -> Z)
    (self : ProductCache) (input_product : string) (threshold : Z)
  : list process.scored :=
  List.filter (fun m : process.scored => threshold <=? m.2)
    (process.extract token_sort_ratio input_product
       (map p_name (get_all_products self)) 5).



(** Every article number filed under a name owns a variant with that name. *)
Definition names_indexed (self : ProductCache) : Prop :=
  ∀ name article,
    article ∈ get_articles_by_product self name →
    ∃ v, v ∈ get_products_by_article self article ∧ v_name v = name.

(** Every synonym record has score 100. *)
Definition synonyms_exact (self : ProductCache) : Prop :=
  ∀ key r, dict_get (_synonym_map self) key = Some r → s_score r = 100.

(** The update of [(best_article, best_score)] for one variant in
    [_choose_best_article_by_tokens]. *)
Definition token_step (input_tokens : gset string) (article : string)
    (best : option string * Q) (product : product_variant)
  : option string * Q :=
  let '(best_article, best_score) := best in
  let product_tokens := extract_tokens (v_name product) in
  let score := token_similarity input_tokens product_tokens in
  if float_gt score best_score then (Some article, score)
  else (best_article, best_score).

(** The two nested loops of [_choose_best_article_by_tokens]. *)
Definition token_scan (self : ProductCache) (input_tokens : gset string)
    (articles : list string) (best : option string * Q)
  : option string * Q :=
  fold_left
    (λ best article,
       fold_left (token_step input_tokens article)
         (get_products_by_article self article) best)
    articles best.

(** Once an article holds the full score, no later variant displaces it. *)
Definition settled (article : string) (best : option string * Q) : Prop :=
  best.1 = Some article ∧ (best.2 == 1)%Q.

(** Before the full score is met, the best article is the current one or
    none. *)
Definition opening (article : string) (best : option string * Q) : Prop :=
  (best.2 <= 1)%Q
  ∧ (best.1 = Some article ∨ (best.1 = None ∧ (best.2 == 0)%Q)).

(** No variant of the candidate articles shares more than half of its tokens
    with the query. *)
Definition low_scores (self : ProductCache) (T : gset string)
    (articles : list string) : Prop :=
  ∀ article v,
    article ∈ articles → v ∈ get_products_by_article self article →
    (token_similarity T (extract_tokens (v_name v)) <= 1 # 2)%Q.

(** * Further code of the repository *)

(** ** SynonymManager.get_usage_statistics *)

(** The dict that [get_usage_statistics] returns. *)
Record usage_statistics : Type := {
  total_synonyms : nat;
  top_used : list (string * Z);
  total_usage : Z;
}.

(** [sorted(.., key=count, reverse=True)] is the stable sort by decreasing
    count; [sum] adds from the left, starting at 0. *)
Definition get_usage_statistics (self : SynonymManager) : usage_statistics :=
  let sorted_stats := process.sorted_desc (usage_stats self) in
  {| total_synonyms := length (usage_stats self);
     top_used := take 20 sorted_stats;
     total_usage := fold_left Z.add (map snd (usage_stats self)) 0 |}.

(** ** parsing_engine.QuantityValidator

    [app_improved.validate_quantity] is [QuantityValidator.validate]. *)

(** What [float(quantity)] gives: a finite number, an infinity, not-a-number,
    or a [ValueError] or [TypeError]. A finite float is a rational number,
    and the comparisons, [int] and [round] that [validate] applies to it are
    exact. *)
Inductive float_value : Type :=
| Finite (q : Q)
| Infinity (negative : bool)
| NaN
| NoFloat.

(** The messages of [validate], with the values that they display. *)
Inductive quantity_warning : Type :=
| NegativeQuantity
| FractionalQuantity (qty_float : Q)
| DecimalRounded (original_qty : Q) (rounded : Z)
| ZeroQuantity
| HighQuantity (qty_int : Z)
| LowQuantity (qty_int : Z)
| InvalidFormat.

(** The tuple that [validate] returns, or the [OverflowError] that leaves
    it: the handler catches [ValueError] and [TypeError] only. *)
Inductive validation : Type :=
| Validated (is_valid : bool) (cleaned_quantity : Z)
            (warnings : list quantity_warning)
| OverflowError.

(** [round(x)] for a float [x]: the nearest integer, a tie going to the even
    one. *)
Definition py_round (x : Q) : Z :=
  let below := Qfloor x in
  match (x - inject_Z below ?= 1 # 2)%Q with
  | Lt => below
  | Gt => below + 1
  | Eq => if Z.even below then below else below + 1
  end.

Module QuantityValidator.

Definition validate (quantity : float_value) : validation :=
  match quantity with
  | NoFloat => Validated false 0 [InvalidFormat]
  | NaN =>
      (* both comparisons are false; [int(qty_float)] raises [ValueError] *)
      Validated false 0 [InvalidFormat]
  | Infinity true => Validated false 0 [NegativeQuantity]
  | Infinity false =>
      (* both comparisons are false; [int(qty_float)] raises *)
      OverflowError
  | Finite qty_float =>
      if float_gt 0 qty_float then Validated false 0 [NegativeQuantity]
      else if float_gt qty_float 0 && float_gt 1 qty_float then
        Validated false 0 [FractionalQuantity qty_float]
      else
        let '(qty_int, warnings) :=
          if negb (Qeq_bool qty_float (inject_Z (int_of_float qty_float)))
          then (py_round qty_float,
                [DecimalRounded qty_float (py_round qty_float)])
          else (int_of_float qty_float, []) in
        if qty_int =? 0 then Validated false 0 [ZeroQuantity]
        else
          let warnings :=
            if 100 <? qty_int
            then (warnings ++ [HighQuantity qty_int])%list else warnings in
          let warnings :=
            if (1 <=? qty_int) && (qty_int <=? 2)
            then (warnings ++ [LowQuantity qty_int])%list else warnings in
          Validated true qty_int warnings
  end.

End QuantityValidator.

(** ** parsing_engine.ColumnDetector *)

Module ColumnDetector.

Definition STRONG_PRODUCT_KEYWORDS : list string :=
  ["product"; "item"; "name"; "artikel"; "produkt"].
Definition STRONG_ARTICLE_KEYWORDS : list string :=
  ["article"; "sku"; "code"; "artikelnummer"; "artikelnr"].
Definition STRONG_QUANTITY_KEYWORDS : list string :=
  ["quantity"; "qty"; "amount"; "menge"; "anzahl"].
Definition WEAK_PRODUCT_KEYWORDS : list string :=
  ["description"; "desc"; "title"].
Definition WEAK_ARTICLE_KEYWORDS : list string :=
  ["id"; "number"; "nr"; "no"].
Definition WEAK_QUANTITY_KEYWORDS : list string :=
  ["count"; "num"; "pieces"].

(** [keyword in s] *)
Fixpoint contains (keyword s : string) : bool :=
  String.prefix keyword s
  || match s with
     | String _ s' => contains keyword s'
     | EmptyString => false
     end.

Fixpoint lstrip (s : string) : string :=
  match s with
  | String c s' => if TokenMatcher.is_space c then lstrip s' else s
  | EmptyString => EmptyString
  end.

Definition reversed (s : string) : string :=
  string_of_list_ascii (rev (list_ascii_of_string s)).

(** [s.strip()] *)
Definition strip (s : string) : string :=
  reversed (lstrip (reversed (lstrip s))).

(** One key of [result] together with the same key of [match_strength]. *)
Record slot : Type := {
  column : option string;
  strength : Z;
}.

(** The loop over the strong keywords: the first keyword found in the
    column name ends it. *)
Fixpoint strong_loop (keywords : list string) (col col_lower : string)
    (s : slot) : slot :=
  match keywords with
  | [] => s
  | keyword :: rest =>
      if contains keyword col_lower then
        if strength s <? 2 then {| column := Some col; strength := 2 |}
        else s
      else strong_loop rest col col_lower s
  end.

(** The loop over the weak keywords. *)
Fixpoint weak_loop (keywords : list string) (col col_lower : string)
    (s : slot) : slot :=
  match keywords with
  | [] => s
  | keyword :: rest =>
      if contains keyword col_lower && (strength s <? 1)
      then {| column := Some col; strength := 1 |}
      else weak_loop rest col col_lower s
  end.

(** The two checks that one column undergoes for one key. *)
Definition check (strong weak : list string) (s : slot) (col : string)
  : slot :=
  let col_lower := strip (lower col) in
  let s := strong_loop strong col col_lower s in
  if strength s <? 2 then weak_loop weak col col_lower s else s.

(** The dict that [detect_columns] returns. *)
Record detected : Type := {
  product_col : option string;
  article_col : option string;
  quantity_col : option string;
}.

(** [detect_columns(columns)] for column names that are strings. *)
Definition detect_columns (columns : list string) : detected :=
  let start := {| column := None; strength := 0 |} in
  let '(product, article, quantity) :=
    fold_left
      (fun state col =>
         let '(product, article, quantity) := state in
         (check STRONG_PRODUCT_KEYWORDS WEAK_PRODUCT_KEYWORDS product col,
          check STRONG_ARTICLE_KEYWORDS WEAK_ARTICLE_KEYWORDS article col,
          check STRONG_QUANTITY_KEYWORDS WEAK_QUANTITY_KEYWORDS quantity col))
      columns (start, start, start) in
  {| product_col := column product;
     article_col := column article;
     quantity_col := column quantity |}.

End ColumnDetector.

(** ** The method tag in [app_improved.process_order]

    For each order, [process_order] builds a [ParsedOrder] with
    [MatchMethod(match_method) if match_method else None]; the call of the
    enumeration raises [ValueError] for a value that it does not have. *)

Inductive enum_member : Type :=
| Member (value : option string)
| ValueError.

Definition audited_method (match_method : option string) : enum_member :=
  match truthy_str match_method with
  | Some value =>
      if bool_decide (value ∈ MatchMethod_values) then Member (Some value)
      else ValueError
  | None => Member None
  end.

(** * Notions for the further properties *)

(** The article number and the name under which [refresh] files a row of the
    catalogue, when it files the row: both must be present and non-empty. *)
Definition filed_row (product : csv_row) : option (string * string) :=
  match truthy_str (Article_Number product), truthy_str (Product product) with
  | Some article, Some name => Some (article, name)
  | _, _ => None
  end.

Definition filed_rows (products_data : list csv_row)
  : list (string * string) :=
  omap filed_row products_data.

Definition variant_of (r : string * string) : product_variant :=
  {| v_article := r.1; v_name := r.2; v_source := "csv" |}.

Definition entry_of (r : string * string) : product_entry :=
  {| p_article := r.1; p_name := r.2 |}.

(** The assignments [self._synonym_map[synonym.lower()] = {...}] that
    [refresh] makes for one row of the product store, in order. *)
Definition row_synonyms (json_loads : string -> option (list string))
    (db_product : db_row) : list (string * synonym_record) :=
  match truthy_str (synonyms db_product) with
  | Some synonyms_json =>
      match json_loads synonyms_json with
      | Some l =>
          map (fun synonym =>
                 (lower synonym,
                  {| s_article := article_number db_product;
                     s_product := product_name db_product;
                     s_score := 100 |})) l
      | None => []
      end
  | None => []
  end.

Definition synonym_bindings (json_loads : string -> option (list string))
    (db_products : list db_row) : list (string * synonym_record) :=
  concat (map (row_synonyms json_loads) db_products).

(** The last binding of a key in a list of assignments. *)
Definition last_binding {V} (k : string) (l : list (string * V)) : option V :=
  snd <$> List.find (fun b => String.eqb k b.1) (rev l).

(** One assignment [d[k] = v]. *)
Definition assign {V} (d : odict V) (b : string * V) : odict V :=
  dict_set d b.1 b.2.

(** The elements of [l] that are not in [seen], each at its first
    occurrence. *)
Fixpoint first_occurrences (seen l : list string) : list string :=
  match l with
  | [] => []
  | x :: l' =>
      if bool_decide (x ∈ seen) then first_occurrences seen l'
      else x :: first_occurrences (x :: seen) l'
  end.

(** The effect of lower-casing the text on what a pattern returns: the group
    is the same, the rest is lower-cased. *)
Definition lowered (r : option (string * string)) : option (string * string) :=
  (λ gr : string * string, (gr.1, lower gr.2)) <$> r.

(** Every character of [s] satisfies [p]. *)
Fixpoint all_chars (p : ascii -> bool) (s : string) : bool :=
  match s with
  | EmptyString => true
  | String c s' => p c && all_chars p s'
  end.

(** A size token: one or more digits, possibly followed by a dot and further
    digits. *)
Definition number_text (g : string) : Prop :=
  ∃ d1 d2,
    d1 ≠ "" ∧ all_chars TokenMatcher.is_digit d1 = true
    ∧ all_chars TokenMatcher.is_digit d2 = true
    ∧ (g = d1 ∨ g = d1 ++ "." ++ d2).

(** The method tags that the exact-article strategy returns. *)
Definition exact_article_methods : list string :=
  ["exact_article"; "exact_article_disambiguated"; "exact_article_first"].

(** A scorer with values between 0 and 100, as those of [fuzz]. *)
Definition percent_scorer (scorer : string -> string -> Z) : Prop :=
  ∀ query choice, 0 <= scorer query choice <= 100.

(** The synonyms that [approve_synonym] reads from a row of the product
    store: the decoded [synonyms] column, or none when the column is empty
    or does not decode. *)
Definition listed_synonyms (json_loads : string -> option (list string))
    (product : db_row) : list string :=
  match truthy_str (synonyms product) with
  | Some text => default [] (json_loads text)
  | None => []
  end.

(** The number of occurrences of [text] in [texts]. *)
Definition occurrences (text : string) (texts : list string) : Z :=
  Z.of_nat (length (List.filter (String.eqb text) texts)).

(** [l] is sorted by decreasing count. *)
Fixpoint descending (l : list (string * Z)) : Prop :=
  match l with
  | [] => True
  | m :: l' => Forall (fun m' : string * Z => m'.2 <= m.2) l' ∧ descending l'
  end.

(** A column name holds one of the keywords. *)
Definition mentions (keywords : list string) (col : string) : bool :=
  existsb
    (fun keyword =>
       ColumnDetector.contains keyword (ColumnDetector.strip (lower col)))
    keywords.

(** The first column that holds a strong keyword or, when there is none, the
    first that holds a weak one. *)
Definition preferred (strong weak : list string) (columns : list string)
  : option string :=
  match List.find (mentions strong) columns with
  | Some col => Some col
  | None => List.find (mentions weak) columns
  end.

(** The method tags of [match_product] that the [MatchMethod] enumeration
    does not have. *)
Definition undeclared_methods : list string :=
  ["exact_article_disambiguated"; "exact_article_first";
   "exact_product_token_disambiguated"; "exact_product_first";
   "fuzzy_product_token_enhanced"].

(** The slot of one key after the columns [seen]. *)
Definition slot_after (strong weak : list string) (seen : list string)
  : ColumnDetector.slot :=
  match List.find (mentions strong) seen with
  | Some col =>
      {| ColumnDetector.column := Some col; ColumnDetector.strength := 2 |}
  | None =>
      match List.find (mentions weak) seen with
      | Some col =>
          {| ColumnDetector.column := Some col;
             ColumnDetector.strength := 1 |}
      | None =>
          {| ColumnDetector.column := None; ColumnDetector.strength := 0 |}
      end
  end.

(** The token similarity between a query and a name of the catalogue. *)
Definition name_similarity (query name : string) : Q :=
  token_similarity (extract_tokens query) (extract_tokens name).

(** * Properties *)

(** ** The fixtures behave as the test suite expects *)

Example json_roundtrip :
  Json.loads (Json.dumps ["R9 Black"; "Rakza9"]) = Some ["R9 Black"; "Rakza9"].
Proof. reflexivity. Qed.

Example fixture_cache_by_name :
  get_articles_by_product Fixtures.cache "Rakza 9 Black 2.0mm"
  = ["12345"; "12347"].
Proof. reflexivity. Qed.

Example fixture_cache_synonym :
  get_synonym_match Fixtures.cache "r9 black"
  = Some {| s_article := Some "12345";
            s_product := Some "Rakza 9 Black 2.0mm"; s_score := 100 |}.
Proof. reflexivity. Qed.

Example fixture_tokens :
  extract_tokens "Rakza 9 Black (2.0 mm)" = {["2.0"; "black"]}
  ∧ extract_tokens "Rubber 2.0mm" = {["2.0"]}
  ∧ extract_tokens "Tenergy Red" = {["red"]}.
Proof. repeat split; vm_compute; reflexivity. Qed.

(** ** Token similarity *)

Section TokenSimilarity.

Implicit Types A B : gset string.

Lemma quotient_in_unit_interval (a b : nat) :
  (a ≤ b)%nat → (0 < b)%nat →
  (0 <= inject_Z (Z.of_nat a) / inject_Z (Z.of_nat b) <= 1)%Q.
Proof.
  intros Hab Hb.
  assert (Hpos : (0 < inject_Z (Z.of_nat b))%Q).
  { rewrite <- (Zlt_Qlt 0). lia. }
  split.
  - apply Qle_shift_div_l; [exact Hpos|].
    rewrite Qmult_0_l. rewrite <- (Zle_Qle 0). lia.
  - apply Qle_shift_div_r; [exact Hpos|].
    rewrite Qmult_1_l. rewrite <- Zle_Qle. lia.
Qed.

Lemma token_similarity_nonempty A B :
  A ≠ ∅ → B ≠ ∅ →
  token_similarity A B
  = (inject_Z (Z.of_nat (size (A ∩ B)))
     / inject_Z (Z.of_nat (size (A ∪ B))))%Q.
Proof.
  intros HA HB. unfold token_similarity.
  rewrite !bool_decide_eq_false_2 by assumption. simpl.
  rewrite bool_decide_eq_false_2; [reflexivity|].
  intros Hu. apply empty_union_L in Hu. tauto.
Qed.

Lemma token_similarity_empty A B :
  A = ∅ ∨ B = ∅ → token_similarity A B = 0%Q.
Proof.
  intros [-> | ->]; unfold token_similarity.
  - rewrite bool_decide_eq_true_2 by reflexivity. reflexivity.
  - rewrite (bool_decide_eq_true_2 (∅ = ∅)) by reflexivity.
    rewrite orb_true_r. reflexivity.
Qed.

Lemma token_similarity_range A B :
  (0 <= token_similarity A B <= 1)%Q.
Proof.
  destruct (decide (A = ∅)) as [HA | HA].
  { rewrite token_similarity_empty by auto. split; discriminate. }
  destruct (decide (B = ∅)) as [HB | HB].
  { rewrite token_similarity_empty by auto. split; discriminate. }
  rewrite token_similarity_nonempty by assumption.
  apply quotient_in_unit_interval.
  - apply subseteq_size. etrans; [apply intersection_subseteq_l|].
    apply union_subseteq_l.
  - assert (size (A ∪ B) ≠ 0%nat); [|lia].
    apply size_non_empty_iff. intros Hu. apply HA.
    apply leibniz_equiv in Hu. apply empty_union_L in Hu. tauto.
Qed.

Lemma token_similarity_self A :
  A ≠ ∅ → (token_similarity A A == 1)%Q.
Proof.
  intros HA. rewrite token_similarity_nonempty by assumption.
  rewrite (idemp_L (∩) A), (idemp_L (∪) A).
  apply Qmult_inv_r.
  assert (size A ≠ 0%nat).
  { apply size_non_empty_iff. intros Hu. apply HA.
    apply leibniz_equiv. exact Hu. }
  intros Heq. unfold Qeq in Heq. simpl in Heq. lia.
Qed.

(** C7. [token_similarity] is the Jaccard index: the size of the
    intersection divided by the size of the union when both sets are
    non-empty, zero as soon as one of them is empty, and in every case a
    number between 0 and 1. *)
Theorem token_similarity_is_jaccard A B :
  (A ≠ ∅ → B ≠ ∅ →
   token_similarity A B
   = (inject_Z (Z.of_nat (size (A ∩ B)))
      / inject_Z (Z.of_nat (size (A ∪ B))))%Q)
  ∧ (A = ∅ ∨ B = ∅ → token_similarity A B = 0%Q)
  ∧ (0 <= token_similarity A B <= 1)%Q.
Proof.
  split; [apply token_similarity_nonempty|].
  split; [apply token_similarity_empty|apply token_similarity_range].
Qed.

End TokenSimilarity.

(** The tokens of two catalogue names of the test suite share one token of
    two. *)
Lemma token_similarity_is_jaccard_witness :
  token_similarity (extract_tokens "Rakza 9 Black 2.0mm")
    (extract_tokens "Tenergy 05 black")
  = (inject_Z 1 / inject_Z 2)%Q
  ∧ token_similarity (extract_tokens "Tenergy 05") (extract_tokens "Red")
    = 0%Q.
Proof.
  destruct (token_similarity_is_jaccard
              (extract_tokens "Rakza 9 Black 2.0mm")
              (extract_tokens "Tenergy 05 black")) as [H1 _].
  destruct (token_similarity_is_jaccard
              (extract_tokens "Tenergy 05") (extract_tokens "Red"))
    as [_ [H2 _]].
  split.
  - rewrite H1; [reflexivity | vm_compute; discriminate ..].
  - apply H2. left. reflexivity.
Defined.


(** ** The pipeline never raises *)

Section Totality.

Variables ratio token_sort_ratio : string -> string -> Z.

Lemma index0_cons {A} (x : A) (l : list A) : index0 (x :: l) = Ok x.
Proof. reflexivity. Qed.

Lemma bind_ok {A B} (m : res A) (k : A → res B) :
  (∃ a, m = Ok a) → (∀ a, ∃ b, k a = Ok b) → ∃ b, m ≫= k = Ok b.
Proof. intros [a ->] Hk. apply Hk. Qed.

Lemma enhance_with_tokens_ok input_product m l all_products :
  ∃ best, _enhance_with_tokens input_product (m :: l) all_products = Ok best.
Proof. unfold _enhance_with_tokens. rewrite index0_cons. simpl. eauto. Qed.

Ltac strategy_cases :=
  repeat (simpl; first [ rewrite index0_cons | case_match ]); simpl; eauto.

Lemma strategy1_ok self input_product input_article :
  ∃ r, strategy1 token_sort_ratio self input_product input_article = Ok r.
Proof. unfold strategy1. strategy_cases. Qed.

Lemma strategy2_ok self input_product :
  ∃ r, strategy2 self input_product = Ok r.
Proof. unfold strategy2. strategy_cases. Qed.

Lemma strategy3_ok self input_product :
  ∃ r, strategy3 self input_product = Ok r.
Proof. unfold strategy3. strategy_cases. Qed.

Lemma strategy4_ok self input_article :
  ∃ r, strategy4 ratio self input_article = Ok r.
Proof. unfold strategy4. strategy_cases. Qed.

Lemma strategy5_ok self input_product threshold :
  ∃ r, strategy5 token_sort_ratio self input_product threshold = Ok r.
Proof.
  unfold strategy5.
  destruct (truthy_str input_product) as [name|]; [|simpl; eauto].
  destruct (process.extract _ _ _ _) as [|m0 ms] eqn:Hm; [simpl; eauto|].
  destruct (List.filter _ _) as [|v vs] eqn:Hv; [simpl; eauto|].
  apply bind_ok.
  - destruct (1 <? length (v :: vs))%nat;
      [apply enhance_with_tokens_ok | rewrite index0_cons; eauto].
  - intros best.
    destruct (get_articles_by_product self best.1) as [|a l];
      [simpl; eauto|].
    strategy_cases.
Qed.

Lemma or_else_ok s next :
  (∃ r, s = Ok r) → (∃ t, next = Ok t) → ∃ t, or_else s next = Ok t.
Proof. intros [[t|] ->] [t' ->]; simpl; eauto. Qed.

(** C6. [match_product] returns a tuple for every cache, optional name,
    optional article number and threshold, and no exception escapes it; when
    each of the five strategies declines it returns
    [(None, None, 0, None)], which is in particular the case when both the
    name and the article number are absent. *)
Theorem match_product_total self input_product input_article threshold :
  (∃ t, match_product ratio token_sort_ratio self input_product
          input_article threshold = Ok t)
  ∧ (strategy1 token_sort_ratio self input_product input_article = Ok None →
     strategy2 self input_product = Ok None →
     strategy3 self input_product = Ok None →
     strategy4 ratio self input_article = Ok None →
     strategy5 token_sort_ratio self input_product threshold = Ok None →
     match_product ratio token_sort_ratio self input_product input_article
       threshold = Ok no_match)
  ∧ match_product ratio token_sort_ratio self None None threshold
    = Ok no_match.
Proof.
  split; [|split].
  - unfold match_product.
    repeat (apply or_else_ok;
            [first [ apply strategy1_ok | apply strategy2_ok
                   | apply strategy3_ok | apply strategy4_ok
                   | apply strategy5_ok ]|]).
    simpl. eauto.
  - intros H1 H2 H3 H4 H5. unfold match_product.
    rewrite H1, H2, H3, H4, H5. reflexivity.
  - reflexivity.
Qed.

End Totality.

(** A name and an article number that nothing in the test catalogue
    resembles: each strategy declines and the no-match tuple is returned. *)
Lemma match_product_total_witness :
  match_product Fixtures.ratio Fixtures.token_sort_ratio Fixtures.cache
    (Some "r9 blac") (Some "99") 80
  = Ok no_match.
Proof.
  destruct (match_product_total Fixtures.ratio Fixtures.token_sort_ratio
              Fixtures.cache (Some "r9 blac") (Some "99") 80)
    as (_ & Hdecline & _).
  apply Hdecline; vm_compute; reflexivity.
Defined.

(** ** Dictionaries *)

Section odict_facts.

Context {V : Type}.
Implicit Types (d : odict V) (k : string) (v : V).

Lemma dict_get_set d k v k' :
  dict_get (dict_set d k v) k'
  = if String.eqb k' k then Some v else dict_get d k'.
Proof.
  induction d as [|[k0 v0] d IH]; simpl.
  - reflexivity.
  - destruct (String.eqb_spec k k0) as [->|Hk]; simpl.
    + destruct (String.eqb k' k0); reflexivity.
    + rewrite IH. destruct (String.eqb_spec k' k0) as [->|Hk'].
      * destruct (String.eqb_spec k0 k); [congruence | reflexivity].
      * reflexivity.
Qed.

Lemma dict_get_not_key d k :
  Forall (λ stored, stored ≠ k) (dict_keys d) → dict_get d k = None.
Proof.
  induction d as [|[k0 v0] d IH]; simpl; [reflexivity|].
  intros H. apply Forall_cons in H as [Hk Hd].
  destruct (String.eqb_spec k k0); [congruence | auto].
Qed.

Lemma dict_get_key d k v : dict_get d k = Some v → k ∈ dict_keys d.
Proof.
  induction d as [|[k0 v0] d IH]; simpl; [discriminate|].
  destruct (String.eqb_spec k k0) as [->|Hk].
  - intros _. apply list_elem_of_here.
  - intros H. apply list_elem_of_further. auto.
Qed.

End odict_facts.

Lemma dict_get_list_append {A} (d : odict (list A)) k x k' :
  dict_get_list (dict_append d k x) k'
  = if String.eqb k' k then (dict_get_list d k ++ [x])%list
    else dict_get_list d k'.
Proof.
  unfold dict_get_list, dict_append. rewrite dict_get_set.
  destruct (String.eqb k' k); reflexivity.
Qed.

Lemma fold_left_invariant {A B} (P : A → Prop) (f : A → B → A) l a :
  P a → (∀ a b, P a → P (f a b)) → P (fold_left f l a).
Proof.
  intros Ha Hf. revert a Ha. induction l as [|b l IH]; simpl; auto.
Qed.

(** ** What [refresh] builds *)

Section RefreshFacts.

Variable json_loads : string -> option (list string).

Lemma refresh_product_synonym_map self product :
  _synonym_map (refresh_product self product) = _synonym_map self.
Proof.
  unfold refresh_product.
  destruct (truthy_str (Article_Number product)),
    (truthy_str (Product product)); reflexivity.
Qed.

Lemma refresh_product_names_indexed self product :
  names_indexed self → names_indexed (refresh_product self product).
Proof.
  intros Hself. unfold refresh_product.
  destruct (truthy_str (Article_Number product)) as [article|]; [|exact Hself].
  destruct (truthy_str (Product product)) as [name|]; [|exact Hself].
  intros name' article'.
  unfold get_articles_by_product, get_products_by_article. simpl.
  rewrite !dict_get_list_append.
  assert (Hold : ∀ v, v ∈ get_products_by_article self article' →
    v ∈ (if String.eqb article' article
         then (dict_get_list (_article_to_products self) article
               ++ [{| v_article := article; v_name := name;
                      v_source := "csv" |}])%list
         else dict_get_list (_article_to_products self) article')).
  { intros v Hv. destruct (String.eqb_spec article' article) as [->|_].
    - apply elem_of_app. left. exact Hv.
    - exact Hv. }
  destruct (String.eqb_spec name' name) as [->|Hname].
  - intros [Hin | Hnew%list_elem_of_singleton]%elem_of_app.
    + destruct (Hself _ _ Hin) as (v & Hv & Hn). eauto.
    + subst article'. rewrite String.eqb_refl.
      eexists. split; [apply elem_of_app; right; apply list_elem_of_singleton;
                       reflexivity | reflexivity].
  - intros Hin. destruct (Hself _ _ Hin) as (v & Hv & Hn). eauto.
Qed.

Lemma refresh_synonyms_indexes self db_product :
  _article_to_products (refresh_synonyms json_loads self db_product)
  = _article_to_products self
  ∧ _product_to_articles (refresh_synonyms json_loads self db_product)
    = _product_to_articles self
  ∧ _all_products (refresh_synonyms json_loads self db_product)
    = _all_products self.
Proof.
  unfold refresh_synonyms.
  destruct (truthy_str _) as [text|]; [|auto].
  destruct (json_loads text) as [l|]; [|auto].
  apply (fold_left_invariant
           (λ c, _article_to_products c = _article_to_products self
                 ∧ _product_to_articles c = _product_to_articles self
                 ∧ _all_products c = _all_products self)); auto.
Qed.

Lemma refresh_synonyms_exact self db_product :
  synonyms_exact self →
  synonyms_exact (refresh_synonyms json_loads self db_product).
Proof.
  intros Hself. unfold refresh_synonyms.
  destruct (truthy_str _) as [text|]; [|exact Hself].
  destruct (json_loads text) as [l|]; [|exact Hself].
  apply fold_left_invariant; [exact Hself|].
  intros c synonym Hc key r. simpl. rewrite dict_get_set.
  destruct (String.eqb key (lower synonym)).
  - intros [= <-]. reflexivity.
  - apply Hc.
Qed.

Lemma refresh_names_indexed self products_data db_products now :
  names_indexed (refresh json_loads self products_data db_products now).
Proof.
  unfold refresh.
  set (c1 := fold_left refresh_product products_data (clear self)).
  assert (H1 : names_indexed c1).
  { apply fold_left_invariant.
    - intros name article Hin. inversion Hin.
    - intros; by apply refresh_product_names_indexed. }
  assert (H2 : _article_to_products
                 (fold_left (refresh_synonyms json_loads) db_products c1)
               = _article_to_products c1
               ∧ _product_to_articles
                   (fold_left (refresh_synonyms json_loads) db_products c1)
                 = _product_to_articles c1).
  { apply (fold_left_invariant
             (λ c, _article_to_products c = _article_to_products c1
                   ∧ _product_to_articles c = _product_to_articles c1));
      [auto|].
    intros c r [Ha Hp].
    destruct (refresh_synonyms_indexes c r) as (-> & -> & _). auto. }
  destruct H2 as [Ha Hp].
  intros name article.
  unfold get_articles_by_product, get_products_by_article. simpl.
  rewrite Ha, Hp. apply H1.
Qed.

Lemma refresh_synonyms_score self products_data db_products now :
  synonyms_exact (refresh json_loads self products_data db_products now).
Proof.
  unfold refresh.
  set (c1 := fold_left refresh_product products_data (clear self)).
  assert (H1 : synonyms_exact c1).
  { apply fold_left_invariant.
    - intros key r. discriminate.
    - intros c r Hc key rec. rewrite refresh_product_synonym_map. apply Hc. }
  intros key r. simpl.
  apply (fold_left_invariant synonyms_exact); [exact H1|].
  intros; by apply refresh_synonyms_exact.
Qed.

End RefreshFacts.

(** ** Disambiguation by tokens *)

Section TokenDisambiguation.

Lemma float_gt_true x y : float_gt x y = true ↔ (y < x)%Q.
Proof.
  unfold float_gt. rewrite negb_true_iff, <- not_true_iff_false, Qle_bool_iff.
  split; [apply Qnot_le_lt | apply Qlt_not_le].
Qed.

Lemma float_gt_false x y : float_gt x y = false ↔ (x <= y)%Q.
Proof. unfold float_gt. rewrite negb_false_iff. apply Qle_bool_iff. Qed.

Lemma choose_best_article_by_tokens_scan self input_product articles :
  _choose_best_article_by_tokens self input_product articles
  = if bool_decide (extract_tokens input_product = ∅) then None
    else
      let best :=
        token_scan self (extract_tokens input_product) articles (None, 0%Q)
      in if float_gt best.2 (1 # 2) then best.1 else None.
Proof.
  unfold _choose_best_article_by_tokens.
  destruct (bool_decide _); [reflexivity|].
  change (fold_left _ articles (None, 0%Q))
    with (token_scan self (extract_tokens input_product) articles
            (None, 0%Q)).
  cbv zeta. destruct (token_scan _ _ _ _) as [a s]. reflexivity.
Qed.

Lemma token_step_settled T article article' best product :
  settled article best → settled article (token_step T article' best product).
Proof.
  destruct best as [b s]. intros [Hb Hs]. simpl in *.
  unfold token_step.
  assert (Hle : (token_similarity T (extract_tokens (v_name product)) <= s)%Q).
  { rewrite Hs. apply token_similarity_range. }
  apply float_gt_false in Hle. rewrite Hle. split; assumption.
Qed.

Lemma token_steps_settled T article article' best products :
  settled article best →
  settled article (fold_left (token_step T article') products best).
Proof.
  intros H. apply fold_left_invariant; [exact H|].
  intros; by apply token_step_settled.
Qed.

Lemma token_scan_settled self T article articles best :
  settled article best → settled article (token_scan self T articles best).
Proof.
  intros H. unfold token_scan. apply fold_left_invariant; [exact H|].
  intros; by apply token_steps_settled.
Qed.

Lemma token_step_opening T article best product :
  opening article best → opening article (token_step T article best product).
Proof.
  destruct best as [b s]. intros [Hs Hb]. simpl in *. unfold token_step.
  destruct (float_gt _ s) eqn:Hgt.
  - split; simpl; [apply token_similarity_range | auto].
  - split; simpl; assumption.
Qed.

Lemma token_step_full T article best product :
  T ≠ ∅ → extract_tokens (v_name product) = T →
  opening article best → settled article (token_step T article best product).
Proof.
  intros HT Hname. destruct best as [b s]. intros [Hs Hb]. simpl in *.
  unfold token_step. rewrite Hname.
  pose proof (token_similarity_self T HT) as Hone.
  destruct (float_gt _ s) eqn:Hgt.
  - split; simpl; auto.
  - apply float_gt_false in Hgt. rewrite Hone in Hgt.
    assert (Heq : (s == 1)%Q) by (apply Qle_antisym; assumption).
    split; simpl; [|exact Heq].
    destruct Hb as [Hb | [_ Hz]]; [exact Hb|].
    rewrite Hz in Heq. discriminate.
Qed.

Lemma token_scan_first_wins self name article rest :
  extract_tokens name ≠ ∅ →
  (∃ v, v ∈ get_products_by_article self article ∧ v_name v = name) →
  settled article
    (token_scan self (extract_tokens name) (article :: rest) (None, 0%Q)).
Proof.
  intros HT (v & Hv & Hname).
  apply list_elem_of_split in Hv as (pre & post & Hsplit).
  change (token_scan self (extract_tokens name) (article :: rest) (None, 0%Q))
    with (token_scan self (extract_tokens name) rest
            (fold_left (token_step (extract_tokens name) article)
               (get_products_by_article self article) (None, 0%Q))).
  apply token_scan_settled.
  rewrite Hsplit, fold_left_app. simpl.
  apply token_steps_settled. apply token_step_full; [exact HT | by subst |].
  apply fold_left_invariant.
  - split; simpl; [discriminate | right; split; reflexivity].
  - intros; by apply token_step_opening.
Qed.

Lemma choose_best_article_first_wins self name article rest :
  (∃ v, v ∈ get_products_by_article self article ∧ v_name v = name) →
  _choose_best_article_by_tokens self name (article :: rest)
  = if bool_decide (extract_tokens name = ∅) then None else Some article.
Proof.
  intros Hv. rewrite choose_best_article_by_tokens_scan.
  case_bool_decide as HT; [reflexivity|].
  destruct (token_scan_first_wins self name article rest HT Hv) as [Ha Hs].
  cbv zeta. rewrite Ha.
  assert (Hgt : float_gt
    (token_scan self (extract_tokens name) (article :: rest) (None, 0%Q)).2
    (1 # 2) = true).
  { apply float_gt_true. rewrite Hs. reflexivity. }
  rewrite Hgt. reflexivity.
Qed.

Lemma token_scan_low self T articles best :
  low_scores self T articles → (best.2 <= 1 # 2)%Q →
  ((token_scan self T articles best).2 <= 1 # 2)%Q.
Proof.
  unfold token_scan. revert best.
  induction articles as [|a l IH]; intros best Hlow Hb; [exact Hb|].
  simpl. apply IH.
  - intros a' v Ha' Hv. apply (Hlow a' v); [by apply list_elem_of_further | done].
  - assert (Hbucket : ∀ v, v ∈ get_products_by_article self a →
      (token_similarity T (extract_tokens (v_name v)) <= 1 # 2)%Q).
    { intros v Hv. apply (Hlow a v); [apply list_elem_of_here | done]. }
    revert best Hb Hbucket.
    induction (get_products_by_article self a) as [|v vs IHv];
      intros best Hb Hbucket; [exact Hb|].
    simpl. apply IHv.
    + destruct best as [b s]. unfold token_step.
      destruct (float_gt _ s); simpl; [|exact Hb].
      apply Hbucket. apply list_elem_of_here.
    + intros v' Hv'. apply Hbucket. by apply list_elem_of_further.
Qed.

Lemma choose_best_article_low self name articles :
  extract_tokens name = ∅ ∨ low_scores self (extract_tokens name) articles →
  _choose_best_article_by_tokens self name articles = None.
Proof.
  intros H. rewrite choose_best_article_by_tokens_scan.
  case_bool_decide as HT; [reflexivity|].
  destruct H as [H | H]; [contradiction|].
  cbv zeta.
  assert (Hle : float_gt
    (token_scan self (extract_tokens name) articles (None, 0%Q)).2 (1 # 2)
    = false).
  { apply float_gt_false. apply token_scan_low; [exact H | discriminate]. }
  rewrite Hle. reflexivity.
Qed.

End TokenDisambiguation.

(** ** Which strategy returns which method *)

Section Methods.

Variables ratio token_sort_ratio : string -> string -> Z.

Lemma truthy_str_some s : s ≠ "" → truthy_str (Some s) = Some s.
Proof.
  intros Hs. simpl. destruct (String.eqb_spec s ""); [contradiction | done].
Qed.

Lemma truthy_str_inv o s : truthy_str o = Some s → o = Some s ∧ s ≠ "".
Proof.
  destruct o as [t|]; simpl; [|discriminate].
  destruct (String.eqb_spec t ""); [discriminate|].
  intros [= ->]. auto.
Qed.

Ltac method_cases :=
  repeat (simpl; first [ rewrite index0_cons | case_match ]); simpl;
  try discriminate;
  try (intros [= <-]; simpl; auto 10).

Lemma strategy1_method self input_product input_article t :
  strategy1 token_sort_ratio self input_product input_article = Ok (Some t) →
  match_method t = Some "exact_article"
  ∨ match_method t = Some "exact_article_disambiguated"
  ∨ match_method t = Some "exact_article_first".
Proof. unfold strategy1. method_cases. Qed.

Lemma strategy2_method self input_product t :
  strategy2 self input_product = Ok (Some t) →
  (∃ name, truthy_str input_product = Some name
           ∧ get_articles_by_product self name ≠ [])
  ∧ ∃ m, match_method t = Some m ∧ m ∈ exact_name_methods.
Proof.
  unfold strategy2, exact_name_methods.
  destruct (truthy_str input_product) as [name|]; [|discriminate].
  destruct (get_articles_by_product self name) as [|a l] eqn:Ha;
    [discriminate|].
  intros H. split; [exists name; split; [reflexivity | by rewrite Ha]|].
  revert H. method_cases; eexists; (split; [reflexivity|]);
    repeat first [apply list_elem_of_here | apply list_elem_of_further].
Qed.

Lemma strategy3_method self input_product t :
  strategy3 self input_product = Ok (Some t) →
  match_method t = Some "synonym_match"
  ∧ ∃ name r, truthy_str input_product = Some name
              ∧ get_synonym_match self name = Some r
              ∧ t = (s_article r, s_product r, s_score r,
                     Some "synonym_match").
Proof.
  unfold strategy3.
  destruct (truthy_str input_product) as [name|]; [|discriminate].
  destruct (get_synonym_match self name) as [r|] eqn:Hr; [|discriminate].
  intros [= <-]. split; [reflexivity | exists name, r; repeat split; done].
Qed.

Lemma strategy4_method self input_article t :
  strategy4 ratio self input_article = Ok (Some t) →
  match_method t = Some "fuzzy_article".
Proof. unfold strategy4. method_cases. Qed.

Lemma bind_inv {A B} (m : res A) (k : A → res B) b :
  m ≫= k = Ok b → ∃ a, m = Ok a ∧ k a = Ok b.
Proof. destruct m as [a|e]; [eauto | discriminate]. Qed.

Lemma strategy5_method self input_product threshold t :
  strategy5 token_sort_ratio self input_product threshold = Ok (Some t) →
  match_method t = Some "fuzzy_product_token_enhanced".
Proof.
  unfold strategy5.
  destruct (truthy_str input_product) as [name|]; [|discriminate].
  destruct (process.extract _ _ _ _); [discriminate|].
  destruct (List.filter _ _); [discriminate|].
  intros (best & _ & H)%bind_inv. revert H.
  destruct (get_articles_by_product self best.1); [discriminate|].
  intros (article & _ & H)%bind_inv. injection H as <-. reflexivity.
Qed.

Lemma or_else_inv s next t :
  or_else s next = Ok t → s = Ok (Some t) ∨ (s = Ok None ∧ next = Ok t).
Proof.
  destruct s as [[t'|]|e]; simpl; [|auto|discriminate].
  intros [= ->]. auto.
Qed.

(** The tuple that [match_product] returns comes from the first strategy
    that does not decline, or is the no-match tuple. *)
Lemma match_product_inv self input_product input_article threshold t :
  match_product ratio token_sort_ratio self input_product input_article
    threshold = Ok t →
  strategy1 token_sort_ratio self input_product input_article = Ok (Some t)
  ∨ strategy2 self input_product = Ok (Some t)
  ∨ strategy3 self input_product = Ok (Some t)
  ∨ strategy4 ratio self input_article = Ok (Some t)
  ∨ strategy5 token_sort_ratio self input_product threshold = Ok (Some t)
  ∨ t = no_match.
Proof.
  unfold match_product.
  intros [H | [_ H]]%or_else_inv; [auto|].
  apply or_else_inv in H as [H | [_ H]]; [auto|].
  apply or_else_inv in H as [H | [_ H]]; [auto|].
  apply or_else_inv in H as [H | [_ H]]; [auto 6|].
  apply or_else_inv in H as [H | [_ H]]; [auto 6|].
  injection H as <-. auto 6.
Qed.

End Methods.

(** ** Exact article number, several entries, no name *)

Section ExactArticle.

Variables ratio token_sort_ratio : string -> string -> Z.

(** C3, as the code has it. When an article number owns two or more entries
    and no name is given ([None] or the empty string), [match_product]
    returns the first entry of the bucket with score 100 and the method tag
    [exact_article_first], a tag of its own beside [exact_article]. *)
Theorem exact_article_first_entry self input_product input_article e1 e2 rest
    threshold :
  input_article ≠ "" →
  truthy_str input_product = None →
  get_products_by_article self input_article = e1 :: e2 :: rest →
  match_product ratio token_sort_ratio self input_product
    (Some input_article) threshold
  = Ok (Some (v_article e1), Some (v_name e1), 100,
        Some "exact_article_first").
Proof.
  intros Hcode Hname Hbucket.
  unfold match_product, strategy1.
  rewrite (truthy_str_some _ Hcode), Hbucket, Hname. reflexivity.
Qed.

End ExactArticle.

Lemma exact_article_first_entry_witness :
  match_product Fixtures.ratio Fixtures.token_sort_ratio
    Fixtures.variants_cache None (Some "12345") 80
  = Ok (Some "12345", Some "Rakza 9 Black 2.0mm", 100,
        Some "exact_article_first").
Proof.
  apply (exact_article_first_entry Fixtures.ratio Fixtures.token_sort_ratio
           Fixtures.variants_cache None "12345"
           {| v_article := "12345"; v_name := "Rakza 9 Black 2.0mm";
              v_source := "csv" |}
           {| v_article := "12345"; v_name := "Rakza 9 Black 2.0 mm";
              v_source := "csv" |} []).
  - discriminate.
  - reflexivity.
  - reflexivity.
Defined.

(** C3, as stated, fails: article number 12345 owns two entries, the call
    without a name returns the first of them with score 100, and the method
    is not [exact_article]; the tag it carries is not a value of the
    [MatchMethod] enumeration either. *)
Lemma exact_article_method_counterexample :
  get_products_by_article Fixtures.variants_cache "12345"
  = [{| v_article := "12345"; v_name := "Rakza 9 Black 2.0mm";
        v_source := "csv" |};
     {| v_article := "12345"; v_name := "Rakza 9 Black 2.0 mm";
        v_source := "csv" |}]
  ∧ match_product Fixtures.ratio Fixtures.token_sort_ratio
      Fixtures.variants_cache None (Some "12345") 80
    ≠ Ok (Some "12345", Some "Rakza 9 Black 2.0mm", 100, Some "exact_article")
  ∧ ∀ t, match_product Fixtures.ratio Fixtures.token_sort_ratio
           Fixtures.variants_cache None (Some "12345") 80 = Ok t →
         ∀ m, match_method t = Some m → m ∉ MatchMethod_values.
Proof.
  split; [reflexivity|]. split; [discriminate|].
  intros t [= <-] m [= <-]. unfold MatchMethod_values.
  rewrite !not_elem_of_cons. repeat split; try discriminate.
  apply not_elem_of_nil.
Qed.

(** ** Exact name lookup *)

Section ExactName.

Variables ratio token_sort_ratio : string -> string -> Z.
Variable json_loads : string -> option (list string).

Lemma lower_ascii_idempotent c : lower_ascii (lower_ascii c) = lower_ascii c.
Proof.
  destruct c as [[] [] [] [] [] [] [] []]; vm_compute; reflexivity.
Qed.

Lemma lower_idempotent s : lower (lower s) = lower s.
Proof.
  induction s as [|c s IH]; simpl; [reflexivity|].
  rewrite lower_ascii_idempotent, IH. reflexivity.
Qed.

(** The method [m] of a result is known ([H]) and is none of the exact-name
    tags. *)
Ltac other_method H Hm Hin :=
  rewrite H in Hm; injection Hm as <-; revert Hin;
  unfold exact_name_methods; rewrite !elem_of_cons;
  intros [|[|[|[]%elem_of_nil]]]; discriminate.

(** C9. The by-name index is keyed by the names as they are stored: for a
    query name that differs from every stored name, be it by letter case
    only, [get_articles_by_product] returns no article number, strategy 2
    declines, and no result of [match_product] carries an exact-name
    method; the synonym lookup, by contrast, lower-cases its key. *)
Theorem exact_name_lookup_case_sensitive self name input_article threshold :
  Forall (λ stored, stored ≠ name) (dict_keys (_product_to_articles self)) →
  get_articles_by_product self name = []
  ∧ strategy2 self (Some name) = Ok None
  ∧ (∀ t, match_product ratio token_sort_ratio self (Some name)
            input_article threshold = Ok t →
          ∀ m, match_method t = Some m → m ∉ exact_name_methods)
  ∧ get_synonym_match self name = get_synonym_match self (lower name).
Proof.
  intros Hkeys.
  assert (Hnone : get_articles_by_product self name = []).
  { unfold get_articles_by_product, dict_get_list.
    rewrite (dict_get_not_key _ _ Hkeys). reflexivity. }
  assert (Hs2 : strategy2 self (Some name) = Ok None).
  { unfold strategy2. destruct (truthy_str (Some name)) as [n|] eqn:Hn;
      [|reflexivity].
    apply truthy_str_inv in Hn as [[= <-] _]. rewrite Hnone. reflexivity. }
  split; [exact Hnone|]. split; [exact Hs2|]. split.
  - intros t Ht m Hm Hin.
    apply match_product_inv in Ht
      as [H | [H | [H | [H | [H | ->]]]]].
    + apply strategy1_method in H as [H | [H | H]]; other_method H Hm Hin.
    + rewrite Hs2 in H. discriminate.
    + apply strategy3_method in H as [H _]. other_method H Hm Hin.
    + apply strategy4_method in H. other_method H Hm Hin.
    + apply strategy5_method in H. other_method H Hm Hin.
    + discriminate.
  - unfold get_synonym_match. rewrite lower_idempotent. reflexivity.
Qed.

End ExactName.

(** The name of a stored product in capitals: the by-name index has nothing,
    and the match that is found all the same is a fuzzy one. *)
Lemma exact_name_lookup_case_sensitive_witness :
  get_articles_by_product Fixtures.cache "RAKZA 9 RED 2.0MM" = []
  ∧ match_product Fixtures.ratio Fixtures.token_sort_ratio Fixtures.cache
      (Some "RAKZA 9 RED 2.0MM") None 80
    = Ok (Some "12346", Some "Rakza 9 Red 2.0mm", 100,
          Some "fuzzy_product_token_enhanced").
Proof.
  assert (Hkeys : Forall (λ stored, stored ≠ "RAKZA 9 RED 2.0MM")
                    (dict_keys (_product_to_articles Fixtures.cache))).
  { repeat constructor; discriminate. }
  destruct (exact_name_lookup_case_sensitive Fixtures.ratio
              Fixtures.token_sort_ratio Fixtures.cache "RAKZA 9 RED 2.0MM"
              None 80 Hkeys) as (H1 & _ & _ & _).
  split; [exact H1 | vm_compute; reflexivity].
Defined.

(** ** Synonym lookup *)

Section Synonym.

Variables ratio token_sort_ratio : string -> string -> Z.
Variable json_loads : string -> option (list string).

(** C4. Synonym matching is case-insensitive and exact-only. In a cache built
    by [refresh], when the first two strategies decline and the synonym map
    holds a record under the lower-cased text of a synonym that equals the
    lower-cased query name, [match_product] returns the article number and
    the product of that record with score 100 and method [synonym_match].
    In any cache, when the lower-cased query name is not a key of the synonym
    map, no result of [match_product] carries the method [synonym_match]. *)
Theorem synonym_match_exact_only :
  (∀ self0 products_data db_products now name synonym input_article
     threshold r,
     let self := refresh json_loads self0 products_data db_products now in
     name ≠ "" →
     strategy1 token_sort_ratio self (Some name) input_article = Ok None →
     strategy2 self (Some name) = Ok None →
     lower synonym = lower name →
     dict_get (_synonym_map self) (lower synonym) = Some r →
     match_product ratio token_sort_ratio self (Some name) input_article
       threshold
     = Ok (s_article r, s_product r, 100, Some "synonym_match"))
  ∧ (∀ self input_product input_article threshold t,
       (∀ name, input_product = Some name →
                Forall (λ stored, stored ≠ lower name)
                  (dict_keys (_synonym_map self))) →
       match_product ratio token_sort_ratio self input_product input_article
         threshold = Ok t →
       match_method t ≠ Some "synonym_match").
Proof.
  split.
  - intros self0 products_data db_products now name synonym input_article
      threshold r self Hname H1 H2 Hfold Hget.
    unfold match_product. rewrite H1, H2. simpl.
    unfold strategy3. rewrite (truthy_str_some _ Hname).
    unfold get_synonym_match. rewrite <- Hfold, Hget. simpl.
    rewrite (refresh_synonyms_score json_loads self0 products_data
               db_products now _ _ Hget).
    reflexivity.
  - intros self input_product input_article threshold t Hkeys Ht Hm.
    apply match_product_inv in Ht as [H | [H | [H | [H | [H | ->]]]]].
    + apply strategy1_method in H as [H | [H | H]];
        rewrite H in Hm; discriminate.
    + apply strategy2_method in H as (_ & m & H & Hin).
      rewrite H in Hm. injection Hm as ->. revert Hin.
      unfold exact_name_methods. rewrite !elem_of_cons.
      intros [|[|[|[]%elem_of_nil]]]; discriminate.
    + apply strategy3_method in H as (_ & name & r & Hn & Hr & _).
      apply truthy_str_inv in Hn as [-> _].
      unfold get_synonym_match in Hr.
      rewrite (dict_get_not_key _ _ (Hkeys name eq_refl)) in Hr.
      discriminate.
    + apply strategy4_method in H. rewrite H in Hm. discriminate.
    + apply strategy5_method in H. rewrite H in Hm. discriminate.
    + discriminate.
Qed.

End Synonym.

(** The synonym [R9 Black] of article 12345 answers the query in lower case;
    the same query one character short is not a key of the synonym map and
    finds nothing. *)
Lemma synonym_match_exact_only_witness :
  match_product Fixtures.ratio Fixtures.token_sort_ratio Fixtures.cache
    (Some "r9 black") None 80
  = Ok (Some "12345", Some "Rakza 9 Black 2.0mm", 100, Some "synonym_match")
  ∧ match_method
      (no_match : match_tuple) ≠ Some "synonym_match"
  ∧ match_product Fixtures.ratio Fixtures.token_sort_ratio Fixtures.cache
      (Some "r9 blac") None 80
    = Ok no_match.
Proof.
  destruct (synonym_match_exact_only Fixtures.ratio Fixtures.token_sort_ratio
              Json.loads) as [Hfound Hnever].
  split; [|split].
  - apply (Hfound ProductCache_init Fixtures.products_data
             Fixtures.db_products 0 "r9 black" "R9 Black" None 80
             {| s_article := Some "12345";
                s_product := Some "Rakza 9 Black 2.0mm"; s_score := 100 |}).
    + discriminate.
    + reflexivity.
    + reflexivity.
    + reflexivity.
    + reflexivity.
  - apply (Hnever Fixtures.cache (Some "r9 blac") None 80 no_match).
    + intros name [= <-]. repeat constructor; discriminate.
    + vm_compute. reflexivity.
  - vm_compute. reflexivity.
Defined.

(** ** One name, several article numbers *)

Section DuplicateNames.

Variables ratio token_sort_ratio : string -> string -> Z.
Variable json_loads : string -> option (list string).

Lemma refresh_product_no_empty_name self product :
  get_articles_by_product self "" = [] →
  get_articles_by_product (refresh_product self product) "" = [].
Proof.
  intros Hself. unfold refresh_product.
  destruct (truthy_str (Article_Number product)) as [article|];
    [|exact Hself].
  destruct (truthy_str (Product product)) as [name|] eqn:Hname;
    [|exact Hself].
  apply truthy_str_inv in Hname as [_ Hname].
  unfold get_articles_by_product. simpl. rewrite dict_get_list_append.
  destruct (String.eqb_spec "" name) as [<-|_]; [contradiction | exact Hself].
Qed.

Lemma refresh_no_empty_name self products_data db_products now :
  get_articles_by_product
    (refresh json_loads self products_data db_products now) "" = [].
Proof.
  unfold refresh, get_articles_by_product. simpl.
  set (c1 := fold_left refresh_product products_data (clear self)).
  assert (H1 : get_articles_by_product c1 "" = []).
  { apply (fold_left_invariant (λ c, get_articles_by_product c "" = []));
      [reflexivity|].
    intros; by apply refresh_product_no_empty_name. }
  apply (fold_left_invariant
           (λ c, dict_get_list (_product_to_articles c) "" = []));
    [exact H1|].
  intros c r Hc. destruct (refresh_synonyms_indexes json_loads c r)
    as (_ & -> & _). exact Hc.
Qed.

(** The exact-name strategy on a name with several article numbers. *)
Lemma strategy2_duplicates self name a1 a2 rest :
  name ≠ "" →
  get_articles_by_product self name = a1 :: a2 :: rest →
  strategy2 self (Some name)
  = match truthy_str
            (_choose_best_article_by_tokens self name (a1 :: a2 :: rest)) with
    | Some best_article =>
        Ok (Some (Some best_article, Some name, 100,
                  Some "exact_product_token_disambiguated"))
    | None =>
        Ok (Some (Some a1, Some name, 100, Some "exact_product_first"))
    end.
Proof.
  intros Hname Harticles. unfold strategy2.
  rewrite (truthy_str_some _ Hname), Harticles. simpl.
  destruct (truthy_str _); reflexivity.
Qed.

(** C5. In a cache built by [refresh], a name filed under two or more article
    numbers resolves, for every threshold and so on every call, to the first
    of them in catalogue order, with score 100 and an exact-name method: the
    entries bear the same name, so no later article number scores higher than
    the first. In any cache, when the query has no tokens or no candidate
    variant reaches a token similarity above one half, the result is the
    first article number with method [exact_product_first]. *)
Theorem exact_name_duplicates_first_wins :
  (∀ self0 products_data db_products now name a1 a2 rest threshold,
     let self := refresh json_loads self0 products_data db_products now in
     get_articles_by_product self name = a1 :: a2 :: rest →
     ∃ m, match_product ratio token_sort_ratio self (Some name) None threshold
          = Ok (Some a1, Some name, 100, Some m)
          ∧ m ∈ exact_name_methods)
  ∧ (∀ self name a1 a2 rest threshold,
       name ≠ "" →
       get_articles_by_product self name = a1 :: a2 :: rest →
       extract_tokens name = ∅
       ∨ low_scores self (extract_tokens name) (a1 :: a2 :: rest) →
       match_product ratio token_sort_ratio self (Some name) None threshold
       = Ok (Some a1, Some name, 100, Some "exact_product_first")).
Proof.
  split.
  - intros self0 products_data db_products now name a1 a2 rest threshold self
      Harticles.
    assert (Hname : name ≠ "").
    { intros ->. unfold self in Harticles.
      rewrite refresh_no_empty_name in Harticles. discriminate. }
    assert (Hentry : ∃ v, v ∈ get_products_by_article self a1
                          ∧ v_name v = name).
    { pose proof (refresh_names_indexed json_loads self0 products_data
                    db_products now) as Hindexed.
      fold self in Hindexed. apply Hindexed. rewrite Harticles.
      apply list_elem_of_here. }
    unfold match_product. simpl.
    rewrite (strategy2_duplicates self name a1 a2 rest Hname Harticles).
    rewrite (choose_best_article_first_wins self name a1 (a2 :: rest) Hentry).
    unfold exact_name_methods.
    destruct (bool_decide _); simpl.
    + eexists. split; [reflexivity|].
      do 2 apply list_elem_of_further. apply list_elem_of_here.
    + destruct (String.eqb a1 ""); simpl; eexists; (split; [reflexivity|]).
      * do 2 apply list_elem_of_further. apply list_elem_of_here.
      * apply list_elem_of_further, list_elem_of_here.
  - intros self name a1 a2 rest threshold Hname Harticles Hlow.
    unfold match_product. simpl.
    rewrite (strategy2_duplicates self name a1 a2 rest Hname Harticles).
    rewrite (choose_best_article_low self name _ Hlow). reflexivity.
Qed.

End DuplicateNames.

(** The duplicated name of the test catalogue resolves to 12345, the first of
    its two article numbers; a duplicated name without tokens falls back to
    the first article number. *)
Lemma exact_name_duplicates_first_wins_witness :
  (∃ m, match_product Fixtures.ratio Fixtures.token_sort_ratio Fixtures.cache
          (Some "Rakza 9 Black 2.0mm") None 80
        = Ok (Some "12345", Some "Rakza 9 Black 2.0mm", 100, Some m)
        ∧ m ∈ exact_name_methods)
  ∧ match_product Fixtures.ratio Fixtures.token_sort_ratio
      Fixtures.plain_cache (Some "Tenergy 05") None 80
    = Ok (Some "20001", Some "Tenergy 05", 100, Some "exact_product_first").
Proof.
  destruct (exact_name_duplicates_first_wins Fixtures.ratio
              Fixtures.token_sort_ratio Json.loads) as [Hfirst Hlow].
  split.
  - apply (Hfirst ProductCache_init Fixtures.products_data
             Fixtures.db_products 0 "Rakza 9 Black 2.0mm" "12345" "12347" []).
    reflexivity.
  - apply (Hlow Fixtures.plain_cache "Tenergy 05" "20001" "20004" []).
    + discriminate.
    + reflexivity.
    + left. vm_compute. reflexivity.
Defined.

(** ** Suggestions *)

Section Suggestions.

Implicit Types (self : SynonymManager) (text article : string).

Lemma pending_count_app synonym article self l :
  pending_count synonym article
    {| pending_synonyms := (pending_synonyms self ++ l)%list;
       usage_stats := usage_stats self |}
  = (pending_count synonym article self
     + pending_count synonym article
         {| pending_synonyms := l; usage_stats := usage_stats self |})%nat.
Proof.
  unfold pending_count. simpl. rewrite List.filter_app, length_app. reflexivity.
Qed.

Lemma suggest_synonym_strong self text article product score now :
  85 <= score < 100 →
  suggest_synonym self text article product score now
  = {| pending_synonyms :=
         (pending_synonyms self
          ++ [{| sg_synonym := text; sg_article := article;
                 sg_product := product; sg_score := score;
                 sg_suggested_at := now; sg_status := "pending" |}])%list;
       usage_stats := usage_stats self |}.
Proof.
  intros [Hlo Hhi]. unfold suggest_synonym.
  apply Z.leb_le in Hlo. apply Z.ltb_lt in Hhi. rewrite Hlo, Hhi. reflexivity.
Qed.

(** C2, as the code has it. [suggest_synonym] makes no check for an existing
    suggestion: for every state of the manager, each call with a score in
    [85, 100) appends one pending suggestion, so that two calls with the same
    arguments leave two more pending suggestions for the pair than before,
    one more than a single call; the bookkeeping of [fuzzy_match_product]
    ([observe]) does the same for a result with a non-empty name and article
    number. *)
Theorem suggest_synonym_appends self text article product score method now :
  85 <= score < 100 →
  text ≠ "" → article ≠ "" →
  let once := suggest_synonym self text article product score now in
  let twice := suggest_synonym once text article product score now in
  let result : match_tuple := (Some article, product, score, method) in
  pending_count text article once = S (pending_count text article self)
  ∧ pending_count text article twice = S (S (pending_count text article self))
  ∧ pending_synonyms (observe self (Some text) result now)
    = pending_synonyms once
  ∧ pending_synonyms
      (observe (observe self (Some text) result now) (Some text) result now)
    = pending_synonyms twice.
Proof.
  intros Hscore Htext Harticle once twice result.
  assert (Hone : ∀ sm, pending_count text article
                         (suggest_synonym sm text article product score now)
                       = S (pending_count text article sm)).
  { intros sm. rewrite suggest_synonym_strong by exact Hscore.
    rewrite pending_count_app. unfold pending_count at 2. simpl.
    rewrite !String.eqb_refl. simpl. lia. }
  assert (Hobs : ∀ sm, pending_synonyms (observe sm (Some text) result now)
                       = pending_synonyms
                           (suggest_synonym sm text article product score
                              now)).
  { intros sm. unfold observe, result.
    rewrite (truthy_str_some _ Htext), (truthy_str_some _ Harticle).
    destruct Hscore as [Hlo Hhi].
    apply Z.leb_le in Hlo. apply Z.ltb_lt in Hhi. rewrite Hlo, Hhi. simpl.
    destruct (bool_decide _); unfold suggest_synonym; rewrite Hlo, Hhi;
      reflexivity. }
  split; [apply Hone|]. split; [unfold twice; rewrite Hone; unfold once;
                                rewrite Hone; reflexivity|].
  split; [apply Hobs|].
  assert (Hpend : ∀ sm sm', pending_synonyms sm = pending_synonyms sm' →
            pending_synonyms
              (suggest_synonym sm text article product score now)
            = pending_synonyms
                (suggest_synonym sm' text article product score now)).
  { intros sm sm' Heq. rewrite !suggest_synonym_strong by exact Hscore.
    simpl. rewrite Heq. reflexivity. }
  rewrite Hobs. apply Hpend, Hobs.
Qed.

End Suggestions.

Lemma suggest_synonym_appends_witness :
  pending_count "Rakza 9 Blck 2.0mm" "12345"
    (suggest_synonym Fixtures.manager "Rakza 9 Blck 2.0mm" "12345"
       (Some "Rakza 9 Black 2.0mm") 97 0)
  = 2%nat.
Proof.
  destruct (suggest_synonym_appends Fixtures.manager "Rakza 9 Blck 2.0mm"
              "12345" (Some "Rakza 9 Black 2.0mm") 97
              (Some "fuzzy_product_token_enhanced") 0) as [H _].
  - lia.
  - discriminate.
  - discriminate.
  - exact H.
Defined.

(** C2, as stated, fails: from the empty manager, the same strong fuzzy
    result (score 97) suggested twice leaves two pending suggestions for the
    pair, not one, and the pending list differs from the one after a single
    call. *)
Lemma suggest_synonym_twice_counterexample :
  let once :=
    suggest_synonym SynonymManager_init "Rakza 9 Blck 2.0mm" "12345"
      (Some "Rakza 9 Black 2.0mm") 97 0 in
  let twice :=
    suggest_synonym once "Rakza 9 Blck 2.0mm" "12345"
      (Some "Rakza 9 Black 2.0mm") 97 0 in
  pending_count "Rakza 9 Blck 2.0mm" "12345" once = 1%nat
  ∧ pending_count "Rakza 9 Blck 2.0mm" "12345" twice = 2%nat
  ∧ pending_synonyms twice ≠ pending_synonyms once.
Proof. repeat split. discriminate. Qed.

(** ** Approval *)

Section Approval.

Variable DB : Type.
Variable get_product_by_article : string -> DB -> res (option db_row) * DB.
Variable update_product : string -> list string -> DB -> res unit * DB.
Variable json_loads : string -> option (list string).

(** The manager is returned as it was. *)
Ltac unchanged :=
  split; [intros _; reflexivity|];
  split; [intros Hne; contradiction Hne; reflexivity | reflexivity].

(** C10. A call of [approve_synonym] that returns [False] (no product for the
    article number, synonym already stored, or an exception in a call to the
    store) leaves the pending suggestions and the usage counters as they
    were; the pending list changes only in a call that returns [True], and
    the usage counters never change. *)
Theorem approve_synonym_failure_atomic self synonym article db ok self' db' :
  approve_synonym DB get_product_by_article update_product json_loads self
    synonym article db = (ok, self', db') →
  (ok = false → self' = self)
  ∧ (pending_synonyms self' ≠ pending_synonyms self → ok = true)
  ∧ usage_stats self' = usage_stats self.
Proof.
  unfold approve_synonym.
  destruct (get_product_by_article article db) as [[[product|]|e] db1].
  - destruct (negb (existsb _ _)).
    + destruct (update_product article _ db1) as [[u|e] db2].
      * intros [= <- <- <-].
        split; [discriminate|]. split; [intros _|]; reflexivity.
      * intros [= <- <- <-]. unchanged.
    + intros [= <- <- <-]. unchanged.
  - intros [= <- <- <-]. unchanged.
  - intros [= <- <- <-]. unchanged.
Qed.

End Approval.

(** The three ways to fail, on the manager with one pending suggestion:
    unknown article number, synonym already stored, store unreachable. *)
Lemma approve_synonym_failure_atomic_witness :
  (approve_synonym database.table database.get_product_by_article
     (database.update_product Json.dumps) Json.loads Fixtures.manager
     "Rakza 9 Blck 2.0mm" "99999" Fixtures.db_products).1.2
  = Fixtures.manager
  ∧ (approve_synonym database.table database.get_product_by_article
       (database.update_product Json.dumps) Json.loads Fixtures.manager
       "R9 Black" "12345" Fixtures.db_products).1.2
    = Fixtures.manager
  ∧ (approve_synonym database.table database.unreachable_get
       database.unreachable_update Json.loads Fixtures.manager
       "Rakza 9 Blck 2.0mm" "12345" Fixtures.db_products).1.2
    = Fixtures.manager.
Proof.
  split; [|split].
  - apply (approve_synonym_failure_atomic database.table
             database.get_product_by_article
             (database.update_product Json.dumps) Json.loads Fixtures.manager
             "Rakza 9 Blck 2.0mm" "99999" Fixtures.db_products false _
             Fixtures.db_products); reflexivity.
  - apply (approve_synonym_failure_atomic database.table
             database.get_product_by_article
             (database.update_product Json.dumps) Json.loads Fixtures.manager
             "R9 Black" "12345" Fixtures.db_products false _
             Fixtures.db_products); reflexivity.
  - apply (approve_synonym_failure_atomic database.table
             database.unreachable_get database.unreachable_update Json.loads
             Fixtures.manager "Rakza 9 Blck 2.0mm" "12345"
             Fixtures.db_products false _ Fixtures.db_products); reflexivity.
Defined.

Example approve_synonym_success :
  approve_synonym database.table database.get_product_by_article
    (database.update_product Json.dumps) Json.loads Fixtures.manager
    "Rakza 9 Blck 2.0mm" "12345" Fixtures.db_products
  = (true, SynonymManager_init,
     [{| article_number := Some "12345";
         product_name := Some "Rakza 9 Black 2.0mm";
         synonyms :=
           Some (Json.dumps ["R9 Black"; "Rakza9"; "Rakza 9 Blck 2.0mm"]) |}]).
Proof. reflexivity. Qed.

(** ** Token enhancement of fuzzy matches *)

Section Enhancement.

Variables ratio token_sort_ratio : string -> string -> Z.
Variable json_loads : string -> option (list string).

Lemma enhance_with_tokens_fold input_product first rest all_products :
  _enhance_with_tokens input_product (first :: rest) all_products
  = Ok (fold_left (enhance_step (extract_tokens input_product))
          (first :: rest) (first, inject_Z first.2)).1.
Proof. reflexivity. Qed.

Lemma enhance_step_invariant T first seen best x :
  enhance_invariant T first seen best →
  enhance_invariant T first (seen ++ [x])%list (enhance_step T best x).
Proof.
  intros [[Hle ->] | (m & pre & post & -> & Hpre & Hpost & -> & Hgt)];
    unfold enhance_step.
  - destruct (float_gt _ _) eqn:Hcmp.
    + apply float_gt_true in Hcmp. right. exists x, seen, [].
      repeat split; [| constructor | exact Hcmp].
      eapply Forall_impl; [exact Hle|]. simpl. intros m Hm.
      eapply Qle_lt_trans; eauto.
    + apply float_gt_false in Hcmp. left. split; [|reflexivity].
      apply Forall_app. split; [exact Hle | repeat constructor; exact Hcmp].
  - destruct (float_gt _ _) eqn:Hcmp.
    + apply float_gt_true in Hcmp. right. exists x, (pre ++ m :: post)%list, [].
      repeat split; [| constructor | eapply Qlt_trans; eauto].
      apply Forall_app. split; [|constructor].
      * eapply Forall_impl; [exact Hpre|]. simpl. intros m' Hm'.
        eapply Qlt_trans; eauto.
      * exact Hcmp.
      * eapply Forall_impl; [exact Hpost|]. simpl. intros m' Hm'.
        eapply Qle_lt_trans; eauto.
    + apply float_gt_false in Hcmp. right. exists m, pre, (post ++ [x])%list.
      repeat split; [| exact Hpre | | exact Hgt].
      * rewrite <- app_assoc. reflexivity.
      * apply Forall_app. split; [exact Hpost | repeat constructor; exact Hcmp].
Qed.

Lemma enhance_fold_invariant T first l seen best :
  enhance_invariant T first seen best →
  enhance_invariant T first (seen ++ l)%list
    (fold_left (enhance_step T) l best).
Proof.
  revert seen best. induction l as [|x l IH]; intros seen best Hinv; simpl.
  - rewrite app_nil_r. exact Hinv.
  - replace (seen ++ x :: l)%list with ((seen ++ [x]) ++ l)%list
      by (rewrite <- app_assoc; reflexivity).
    apply IH, enhance_step_invariant, Hinv.
Qed.


(** The matches that [process.extract] returns are taken from the choices. *)
Lemma insert_desc_elem x m l :
  x ∈ process.insert_desc m l → x = m ∨ x ∈ l.
Proof.
  induction l as [|m' l IH]; simpl.
  - intros ->%list_elem_of_singleton. auto.
  - destruct (m.2 <? m'.2).
    + intros [->|H]%elem_of_cons; [right; apply list_elem_of_here|].
      destruct (IH H) as [->|H']; [auto | right; by apply list_elem_of_further].
    + intros [->|H]%elem_of_cons; auto.
Qed.

Lemma sorted_desc_elem x l : x ∈ process.sorted_desc l → x ∈ l.
Proof.
  induction l as [|m l IH]; simpl; [auto|].
  intros [->|H]%insert_desc_elem;
    [apply list_elem_of_here | apply list_elem_of_further; auto].
Qed.







End Enhancement.



(** C1, on the code. For the query [Tenergy 05 red] against a catalogue with
    [Tenergy 05], [Tenergy 05 Red 2.1mm] and [Tenergy 05 FX] (fuzzy scores 83,
    82 and 81, all above the threshold 80), the combined scores are 58.1,
    72.4 and 56.7, so the red variant has the maximal combined score; yet
    [match_product] returns the first fuzzy match, [Tenergy 05], with its
    fuzzy score 83: the running best of [_enhance_with_tokens] starts at the
    fuzzy score of the first match, not at its combined score. *)
Lemma enhance_with_tokens_keeps_top_fuzzy :
  let input_tokens := extract_tokens "Tenergy 05 red" in
  process.extract Fixtures.token_sort_ratio "Tenergy 05 red"
    (map p_name (get_all_products Fixtures.tenergy_cache)) 5
  = [("Tenergy 05", 83); ("Tenergy 05 Red 2.1mm", 82); ("Tenergy 05 FX", 81)]
  ∧ Qeq (combined_score input_tokens ("Tenergy 05", 83)) (581 # 10)
  ∧ Qeq (combined_score input_tokens ("Tenergy 05 Red 2.1mm", 82)) (724 # 10)
  ∧ Qeq (combined_score input_tokens ("Tenergy 05 FX", 81)) (567 # 10)
  ∧ _enhance_with_tokens "Tenergy 05 red"
      [("Tenergy 05", 83); ("Tenergy 05 Red 2.1mm", 82); ("Tenergy 05 FX", 81)]
      (get_all_products Fixtures.tenergy_cache)
    = Ok ("Tenergy 05", 83)
  ∧ match_product Fixtures.ratio Fixtures.token_sort_ratio
      Fixtures.tenergy_cache (Some "Tenergy 05 red") None 80
    = Ok (Some "20001", Some "Tenergy 05", 83,
          Some "fuzzy_product_token_enhanced").
Proof. repeat split; vm_compute; reflexivity. Qed.

(** ** The cache under concurrent refresh *)

Section LockingFacts.

Import Locking.

Variable json_loads : string -> option (list string).
Variable init : ProductCache.






Lemma idle_except_insert o threads i th :
  idle_except o threads → (Some i ≠ o → pc th = Idle) →
  idle_except o (<[i := th]> threads).
Proof.
  intros Hidle Hth j th' Hj Hne.
  destruct (decide (i = j)) as [->|Hij].
  - apply list_lookup_insert_Some in Hj as [(_ & <- & _) | [? _]];
      [auto | congruence].
  - rewrite list_lookup_insert_ne in Hj by exact Hij. eauto.
Qed.





End LockingFacts.



(** * Further properties *)

(** ** What [refresh] files, and where *)

Section RefreshContents.

Variable json_loads : string -> option (list string).

Lemma refresh_product_filed self product :
  refresh_product self product
  = match filed_row product with
    | Some r =>
        {| _article_to_products :=
             dict_append (_article_to_products self) r.1 (variant_of r);
           _product_to_articles :=
             dict_append (_product_to_articles self) r.2 r.1;
           _synonym_map := _synonym_map self;
           _all_products := (_all_products self ++ [entry_of r])%list;
           _last_refresh := _last_refresh self;
           _version := _version self |}
    | None => self
    end.
Proof.
  unfold refresh_product, filed_row.
  destruct (truthy_str (Article_Number product)),
    (truthy_str (Product product)); reflexivity.
Qed.

Lemma refresh_products_fold products_data self :
  let self' := fold_left refresh_product products_data self in
  (∀ name,
     get_articles_by_product self' name
     = (get_articles_by_product self name
        ++ map fst
             (List.filter (λ r, String.eqb name r.2)
                (filed_rows products_data)))%list)
  ∧ (∀ article,
       get_products_by_article self' article
       = (get_products_by_article self article
          ++ map variant_of
               (List.filter (λ r, String.eqb article r.1)
                  (filed_rows products_data)))%list)
  ∧ _all_products self'
    = (_all_products self ++ map entry_of (filed_rows products_data))%list
  ∧ _synonym_map self' = _synonym_map self
  ∧ _version self' = _version self.
Proof.
  revert self. induction products_data as [|product l IH]; intros self; simpl.
  - unfold filed_rows. simpl.
    repeat split; intros; rewrite List.app_nil_r; reflexivity.
  - unfold filed_rows. simpl. fold (filed_rows l).
    rewrite refresh_product_filed.
    destruct (filed_row product) as [[article name]|]; [|apply IH].
    match goal with
    | |- context [fold_left refresh_product l ?c] =>
        destruct (IH c) as (Hn & Ha & Hall & Hs & Hv)
    end.
    unfold get_articles_by_product, get_products_by_article in *.
    simpl in *.
    split; [|split; [|split; [|split]]].
    + intros name'. rewrite Hn, dict_get_list_append. simpl.
      destruct (String.eqb_spec name' name) as [->|_]; simpl; [|reflexivity].
      rewrite <- app_assoc. reflexivity.
    + intros article'. rewrite Ha, dict_get_list_append. simpl.
      destruct (String.eqb_spec article' article) as [->|_]; simpl;
        [|reflexivity].
      rewrite <- app_assoc. reflexivity.
    + rewrite Hall, <- app_assoc. reflexivity.
    + exact Hs.
    + exact Hv.
Qed.

Lemma refresh_synonyms_fold_indexes db_products self :
  let self' := fold_left (refresh_synonyms json_loads) db_products self in
  _article_to_products self' = _article_to_products self
  ∧ _product_to_articles self' = _product_to_articles self
  ∧ _all_products self' = _all_products self
  ∧ _version self' = _version self.
Proof.
  apply (fold_left_invariant
           (λ c, _article_to_products c = _article_to_products self
                 ∧ _product_to_articles c = _product_to_articles self
                 ∧ _all_products c = _all_products self
                 ∧ _version c = _version self)); [auto|].
  intros c r (Ha & Hp & Hall & Hv).
  unfold refresh_synonyms.
  destruct (truthy_str (synonyms r)) as [text|]; [|auto].
  destruct (json_loads text) as [l|]; [|auto].
  apply (fold_left_invariant
           (λ c', _article_to_products c' = _article_to_products self
                  ∧ _product_to_articles c' = _product_to_articles self
                  ∧ _all_products c' = _all_products self
                  ∧ _version c' = _version self)); auto.
Qed.

(** The indexes of a refreshed cache in terms of the rows filed. *)
Lemma refresh_contents self products_data db_products now :
  let new := refresh json_loads self products_data db_products now in
  (∀ name,
     get_articles_by_product new name
     = map fst
         (List.filter (λ r, String.eqb name r.2) (filed_rows products_data)))
  ∧ (∀ article,
       get_products_by_article new article
       = map variant_of
           (List.filter (λ r, String.eqb article r.1)
              (filed_rows products_data)))
  ∧ get_all_products new = map entry_of (filed_rows products_data)
  ∧ _version new = _version self + 1.
Proof.
  unfold refresh, get_articles_by_product, get_products_by_article,
    get_all_products.
  destruct (refresh_synonyms_fold_indexes db_products
              (fold_left refresh_product products_data (clear self)))
    as (Ha & Hp & Hall & Hv).
  destruct (refresh_products_fold products_data (clear self))
    as (Hn' & Ha' & Hall' & _ & Hv').
  simpl. rewrite Ha, Hp, Hall, Hv, Hv'.
  repeat split; [apply Hn' | apply Ha' | apply Hall'].
Qed.

(** X1. After [refresh], the article numbers filed under a name are those of
    the catalogue rows with that name (and a non-empty article number), in
    catalogue order and with their repetitions, whatever the cache held
    before. *)
Theorem refresh_files_articles_by_name self products_data db_products now
    name :
  get_articles_by_product
    (refresh json_loads self products_data db_products now) name
  = map fst
      (List.filter (λ r, String.eqb name r.2) (filed_rows products_data)).
Proof.
  destruct (refresh_contents self products_data db_products now)
    as (Hname & _).
  apply Hname.
Qed.

(** X2. After [refresh], the variants filed under an article number are those
    of the catalogue rows with that article number (and a non-empty name), in
    catalogue order; each of them carries that article number. *)
Theorem refresh_files_variants_by_article self products_data db_products now
    article :
  get_products_by_article
    (refresh json_loads self products_data db_products now) article
  = map variant_of
      (List.filter (λ r, String.eqb article r.1) (filed_rows products_data))
  ∧ Forall (λ v, v_article v = article)
      (get_products_by_article
         (refresh json_loads self products_data db_products now) article).
Proof.
  destruct (refresh_contents self products_data db_products now)
    as (_ & Harticle & _).
  split; [apply Harticle|]. rewrite Harticle.
  apply Forall_forall. intros v Hv.
  apply list_elem_of_In, in_map_iff in Hv as (r & <- & Hr).
  apply filter_In in Hr as [_ Hr]. apply String.eqb_eq in Hr. by subst.
Qed.

(** X3. After [refresh], [get_all_products] lists the catalogue rows that have
    a non-empty article number and a non-empty name, in catalogue order; rows
    that lack either are skipped without an error. *)
Theorem refresh_lists_filed_rows self products_data db_products now :
  get_all_products (refresh json_loads self products_data db_products now)
  = map entry_of (filed_rows products_data).
Proof.
  destruct (refresh_contents self products_data db_products now)
    as (_ & _ & Hall & _).
  exact Hall.
Qed.

End RefreshContents.

(** ** The synonym map after [refresh] *)

Section RefreshSynonyms.

Variable json_loads : string -> option (list string).

Lemma find_over_app {A} (p : A → bool) l1 l2 :
  List.find p (l1 ++ l2)
  = match List.find p l1 with
    | Some x => Some x
    | None => List.find p l2
    end.
Proof.
  induction l1 as [|x l1 IH]; simpl; [reflexivity|].
  destruct (p x); [reflexivity | exact IH].
Qed.

(** Reading a key after a sequence of assignments: the last assignment to
    the key, or what the dictionary held before. *)
Lemma dict_get_assignments {V} (l : list (string * V)) d k :
  dict_get (fold_left assign l d) k
  = match last_binding k l with
    | Some v => Some v
    | None => dict_get d k
    end.
Proof.
  revert d. induction l as [|b l IH]; intros d; simpl; [reflexivity|].
  rewrite IH. unfold last_binding. simpl. rewrite find_over_app. simpl.
  destruct (List.find _ (rev l)) as [b'|]; simpl; [reflexivity|].
  unfold assign. rewrite dict_get_set.
  destruct (String.eqb k b.1); reflexivity.
Qed.

Lemma refresh_synonyms_assignments self db_product :
  _synonym_map (refresh_synonyms json_loads self db_product)
  = fold_left assign (row_synonyms json_loads db_product) (_synonym_map self).
Proof.
  unfold refresh_synonyms, row_synonyms.
  destruct (truthy_str (synonyms db_product)) as [text|]; [|reflexivity].
  destruct (json_loads text) as [l|]; [|reflexivity].
  revert self. induction l as [|synonym l IH]; intros self; simpl;
    [reflexivity|].
  rewrite IH. reflexivity.
Qed.

Lemma refresh_synonyms_fold db_products self :
  _synonym_map (fold_left (refresh_synonyms json_loads) db_products self)
  = fold_left assign (synonym_bindings json_loads db_products)
      (_synonym_map self).
Proof.
  revert self. induction db_products as [|r l IH]; intros self; simpl;
    [reflexivity|].
  unfold synonym_bindings. simpl. rewrite fold_left_app.
  rewrite IH, refresh_synonyms_assignments. reflexivity.
Qed.

Lemma refresh_synonym_lookup self products_data db_products now text :
  get_synonym_match (refresh json_loads self products_data db_products now)
    text
  = last_binding (lower text) (synonym_bindings json_loads db_products).
Proof.
  unfold get_synonym_match, refresh. simpl.
  rewrite refresh_synonyms_fold, dict_get_assignments.
  destruct (refresh_products_fold products_data (clear self))
    as (_ & _ & _ & -> & _).
  simpl. destruct (last_binding _ _); reflexivity.
Qed.

(** X4. After [refresh], the synonym lookup of a text returns the record of
    the last synonym, in the order of the rows of the product store and of
    the synonyms of each row, whose lower-cased text equals the lower-cased
    query; rows whose synonyms column is empty or is not valid JSON
    contribute nothing, and nothing of the previous synonym map is left. *)
Theorem refresh_synonym_last_wins self products_data db_products now text :
  get_synonym_match (refresh json_loads self products_data db_products now)
    text
  = last_binding (lower text) (synonym_bindings json_loads db_products).
Proof.
  unfold get_synonym_match, refresh. simpl.
  rewrite refresh_synonyms_fold, dict_get_assignments.
  destruct (refresh_products_fold products_data (clear self))
    as (_ & _ & _ & Hsyn & _).
  rewrite Hsyn. simpl. destruct (last_binding _ _); reflexivity.
Qed.

(** X5. [refresh] replaces the whole content of the cache: two caches
    refreshed with the same catalogue and the same store rows answer every
    lookup alike, whatever they held before; and each refresh adds one to the
    version of the cache. *)
Theorem refresh_discards_previous_content self1 self2 products_data
    db_products now1 now2 :
  let new1 := refresh json_loads self1 products_data db_products now1 in
  let new2 := refresh json_loads self2 products_data db_products now2 in
  (∀ article,
     get_products_by_article new1 article
     = get_products_by_article new2 article)
  ∧ (∀ name,
       get_articles_by_product new1 name = get_articles_by_product new2 name)
  ∧ get_all_products new1 = get_all_products new2
  ∧ (∀ text, get_synonym_match new1 text = get_synonym_match new2 text)
  ∧ _version new1 = _version self1 + 1.
Proof.
  intros new1 new2. unfold new1, new2.
  destruct (refresh_contents json_loads self1 products_data db_products now1)
    as (Hn1 & Ha1 & Hall1 & Hv1).
  destruct (refresh_contents json_loads self2 products_data db_products now2)
    as (Hn2 & Ha2 & Hall2 & _).
  split; [|split; [|split; [|split]]].
  - intros article. by rewrite Ha1, Ha2.
  - intros name. by rewrite Hn1, Hn2.
  - by rewrite Hall1, Hall2.
  - intros text. by rewrite !refresh_synonym_lookup.
  - exact Hv1.
Qed.

End RefreshSynonyms.

(** ** The keys of the indexes and the cache statistics *)

Section CacheKeys.

Variable json_loads : string -> option (list string).

Lemma dict_keys_set {V} (d : odict V) k v :
  dict_keys (dict_set d k v)
  = if bool_decide (k ∈ dict_keys d) then dict_keys d
    else (dict_keys d ++ [k])%list.
Proof.
  induction d as [|[k0 v0] d IH]; simpl; [reflexivity|].
  destruct (String.eqb_spec k k0) as [->|Hne]; simpl.
  - rewrite bool_decide_eq_true_2 by apply list_elem_of_here. reflexivity.
  - unfold dict_keys in *. rewrite IH.
    destruct (decide (k ∈ map fst d)) as [Hin|Hnin].
    + rewrite !bool_decide_eq_true_2;
        [reflexivity | by apply list_elem_of_further | exact Hin].
    + rewrite !bool_decide_eq_false_2; [reflexivity | | exact Hnin].
      intros [?|?]%elem_of_cons; contradiction.
Qed.

Lemma first_occurrences_seen seen seen' l :
  (∀ x, x ∈ seen ↔ x ∈ seen') →
  first_occurrences seen l = first_occurrences seen' l.
Proof.
  revert seen seen'. induction l as [|x l IH]; intros seen seen' Heq; simpl;
    [reflexivity|].
  rewrite (bool_decide_ext _ _ (Heq x)).
  destruct (bool_decide (x ∈ seen')); [by apply IH|].
  f_equal. apply IH. intros y. rewrite !elem_of_cons, Heq. reflexivity.
Qed.

(** The keys after a sequence of assignments: the old keys, then the new
    ones in the order in which they first appear. *)
Lemma dict_keys_assignments {V} (l : list (string * V)) d :
  dict_keys (fold_left assign l d)
  = (dict_keys d ++ first_occurrences (dict_keys d) (map fst l))%list.
Proof.
  revert d. induction l as [|b l IH]; intros d; simpl.
  - by rewrite app_nil_r.
  - rewrite IH. unfold assign. rewrite dict_keys_set.
    destruct (bool_decide (b.1 ∈ dict_keys d)) eqn:Hin; [reflexivity|].
    rewrite <- app_assoc. simpl. do 2 f_equal.
    apply first_occurrences_seen. intros x.
    rewrite elem_of_app, !elem_of_cons, elem_of_nil. tauto.
Qed.

Lemma refresh_products_keys products_data self :
  let self' := fold_left refresh_product products_data self in
  dict_keys (_article_to_products self')
  = (dict_keys (_article_to_products self)
     ++ first_occurrences (dict_keys (_article_to_products self))
          (map fst (filed_rows products_data)))%list
  ∧ dict_keys (_product_to_articles self')
    = (dict_keys (_product_to_articles self)
       ++ first_occurrences (dict_keys (_product_to_articles self))
            (map snd (filed_rows products_data)))%list.
Proof.
  revert self. induction products_data as [|product l IH]; intros self.
  - unfold filed_rows. simpl. by rewrite !app_nil_r.
  - unfold filed_rows. simpl. fold (filed_rows l).
    rewrite refresh_product_filed.
    destruct (filed_row product) as [[article name]|]; [|apply IH].
    match goal with
    | |- context [fold_left refresh_product l ?c] =>
        destruct (IH c) as (Ha & Hn)
    end.
    simpl in *. rewrite Ha, Hn. unfold dict_append. rewrite !dict_keys_set.
    split.
    + destruct (bool_decide (article ∈ _)) eqn:Hin; [reflexivity|].
      rewrite <- app_assoc. simpl. do 2 f_equal.
      apply first_occurrences_seen. intros x.
      rewrite elem_of_app, !elem_of_cons, elem_of_nil. tauto.
    + destruct (bool_decide (name ∈ _)) eqn:Hin; [reflexivity|].
      rewrite <- app_assoc. simpl. do 2 f_equal.
      apply first_occurrences_seen. intros x.
      rewrite elem_of_app, !elem_of_cons, elem_of_nil. tauto.
Qed.

(** X6. After [refresh], the keys of the by-article index, which the fuzzy
    article strategy enumerates, are the distinct article numbers of the
    filed rows in the order of their first appearance; likewise the names;
    and [get_cache_info] reports the incremented version, the time of the
    refresh, the number of filed rows, and the numbers of distinct synonym
    keys, article numbers and names. *)
Theorem refresh_keys_and_statistics self products_data db_products now :
  let new := refresh json_loads self products_data db_products now in
  let filed := filed_rows products_data in
  dict_keys (_article_to_products new)
  = first_occurrences [] (map fst filed)
  ∧ dict_keys (_product_to_articles new)
    = first_occurrences [] (map snd filed)
  ∧ Locking.get_cache_info new
    = Locking.Info (_version self + 1) (Some now) (length filed)
        (length
           (first_occurrences []
              (map fst (synonym_bindings json_loads db_products))))
        (length (first_occurrences [] (map fst filed)))
        (length (first_occurrences [] (map snd filed))).
Proof.
  intros new filed.
  assert (Ha : dict_keys (_article_to_products new)
               = first_occurrences [] (map fst filed)
               ∧ dict_keys (_product_to_articles new)
                 = first_occurrences [] (map snd filed)).
  { unfold new, refresh. simpl.
    destruct (refresh_synonyms_fold_indexes json_loads db_products
                (fold_left refresh_product products_data (clear self)))
      as (-> & -> & _).
    apply (refresh_products_keys products_data (clear self)). }
  destruct Ha as [Ha Hn]. split; [exact Ha|]. split; [exact Hn|].
  unfold Locking.get_cache_info.
  assert (Hlen : ∀ V (d : odict V), length d = length (dict_keys d)).
  { intros V d. unfold dict_keys. by rewrite length_map. }
  rewrite (Hlen _ (_article_to_products new)), Ha.
  rewrite (Hlen _ (_product_to_articles new)), Hn.
  rewrite (Hlen _ (_synonym_map new)).
  destruct (refresh_contents json_loads self products_data db_products now)
    as (_ & _ & Hall & Hv).
  fold new in Hall, Hv. unfold get_all_products in Hall.
  rewrite Hall, Hv, length_map.
  unfold new at 1 2, refresh. simpl.
  rewrite refresh_synonyms_fold, dict_keys_assignments.
  destruct (refresh_products_fold products_data (clear self))
    as (_ & _ & _ & -> & _).
  reflexivity.
Qed.

End CacheKeys.

(** ** Token similarity: symmetry and the full score *)

Section SimilarityFacts.

Implicit Types A B : gset string.

(** X7. [token_similarity] does not depend on the order of its arguments,
    and it reaches 1 exactly when the two token sets are equal and not
    empty. *)
Theorem token_similarity_symmetric_and_full A B :
  token_similarity A B = token_similarity B A
  ∧ ((token_similarity A B == 1)%Q ↔ A = B ∧ A ≠ ∅).
Proof.
  split.
  - unfold token_similarity.
    rewrite (orb_comm (bool_decide (A = ∅))).
    assert (Hi : A ∩ B = B ∩ A) by apply (comm_L (∩)).
    assert (Hu : A ∪ B = B ∪ A) by apply (comm_L (∪)).
    rewrite Hi, Hu. reflexivity.
  - split.
    + intros Hone.
      destruct (decide (A = ∅)) as [HA|HA].
      { rewrite token_similarity_empty in Hone by auto. discriminate. }
      destruct (decide (B = ∅)) as [HB|HB].
      { rewrite token_similarity_empty in Hone by auto. discriminate. }
      split; [|exact HA].
      rewrite token_similarity_nonempty in Hone by assumption.
      assert (Hpos : size (A ∪ B) ≠ 0%nat).
      { apply size_non_empty_iff. intros Hu. apply HA.
        apply leibniz_equiv in Hu. apply empty_union_L in Hu. tauto. }
      assert (Hsize : size (A ∩ B) = size (A ∪ B)).
      { unfold Qeq, Qdiv, Qmult, Qinv in Hone. simpl in Hone.
        destruct (Z.of_nat (size (A ∪ B))) as [|p|p] eqn:Hp; [lia| |lia].
        simpl in Hone. lia. }
      assert (Heq : A ∩ B = A ∪ B).
      { apply (set_subseteq_size_eq (A ∩ B) (A ∪ B)); [|lia].
        etrans; [apply intersection_subseteq_l | apply union_subseteq_l]. }
      apply leibniz_equiv. apply set_equiv. intros x.
      assert (Hx : x ∈ A ∩ B ↔ x ∈ A ∪ B) by (rewrite Heq; reflexivity).
      rewrite elem_of_intersection, elem_of_union in Hx. tauto.
    + intros [<- HA]. by apply token_similarity_self.
Qed.

End SimilarityFacts.

(** ** Token extraction does not depend on letter case *)

Section TokenCase.

Import TokenMatcher.

Ltac all_characters c :=
  destruct c as [[] [] [] [] [] [] [] []]; vm_compute; reflexivity.

Lemma is_digit_lower c : is_digit (lower_ascii c) = is_digit c.
Proof. all_characters c. Qed.

Lemma is_space_lower c : is_space (lower_ascii c) = is_space c.
Proof. all_characters c. Qed.

Lemma is_m_lower c : is_m (lower_ascii c) = is_m c.
Proof. all_characters c. Qed.

Lemma digit_lower c : is_digit c = true → lower_ascii c = c.
Proof.
  destruct c as [[] [] [] [] [] [] [] []]; vm_compute; congruence.
Qed.

Lemma space_lower c : is_space c = true → lower_ascii c = c.
Proof.
  destruct c as [[] [] [] [] [] [] [] []]; vm_compute; congruence.
Qed.

Lemma dot_lower c : Ascii.eqb (lower_ascii c) "." = Ascii.eqb c ".".
Proof. all_characters c. Qed.

Lemma open_lower c : Ascii.eqb (lower_ascii c) "(" = Ascii.eqb c "(".
Proof. all_characters c. Qed.

Lemma close_lower c : Ascii.eqb (lower_ascii c) ")" = Ascii.eqb c ")".
Proof. all_characters c. Qed.

Lemma inch_lower c :
  Ascii.eqb (lower_ascii c) inch_mark = Ascii.eqb c inch_mark.
Proof. all_characters c. Qed.

Lemma length_lower s : String.length (lower s) = String.length s.
Proof. induction s as [|c s IH]; simpl; congruence. Qed.

Lemma span_digit_lower s :
  span is_digit (lower s) = ((span is_digit s).1, lower (span is_digit s).2).
Proof.
  induction s as [|c s IH]; simpl; [reflexivity|].
  rewrite is_digit_lower. destruct (is_digit c) eqn:Hc; [|reflexivity].
  rewrite IH, (digit_lower c Hc). destruct (span is_digit s). reflexivity.
Qed.

Lemma span_space_lower s :
  span is_space (lower s) = ((span is_space s).1, lower (span is_space s).2).
Proof.
  induction s as [|c s IH]; simpl; [reflexivity|].
  rewrite is_space_lower. destruct (is_space c) eqn:Hc; [|reflexivity].
  rewrite IH, (space_lower c Hc). destruct (span is_space s). reflexivity.
Qed.

(** [match_number] with the test for the dot written as a comparison. *)
Lemma match_number_eqb s :
  match_number s
  = let '(d1, r1) := span is_digit s in
    match d1 with
    | EmptyString => None
    | _ =>
        match r1 with
        | String c r2 =>
            if Ascii.eqb c "." then
              let '(d2, r3) := span is_digit r2 in Some (d1 ++ "." ++ d2, r3)
            else Some (d1, r1)
        | EmptyString => Some (d1, r1)
        end
    end.
Proof.
  unfold match_number. destruct (span is_digit s) as [d1 r1].
  destruct d1 as [|d d1]; [reflexivity|].
  destruct r1 as [|c r2]; [reflexivity|].
  destruct c as [[] [] [] [] [] [] [] []]; reflexivity.
Qed.

Lemma match_number_lower s : match_number (lower s) = lowered (match_number s).
Proof.
  rewrite !match_number_eqb, span_digit_lower.
  destruct (span is_digit s) as [d1 r1]. simpl.
  destruct d1 as [|d d1]; [reflexivity|].
  destruct r1 as [|c r2]; simpl; [reflexivity|].
  rewrite dot_lower. destruct (Ascii.eqb c "."); [|reflexivity].
  rewrite span_digit_lower. destruct (span is_digit r2). reflexivity.
Qed.

Lemma pattern_mm_lower s : pattern_mm (lower s) = lowered (pattern_mm s).
Proof.
  unfold pattern_mm. rewrite match_number_lower.
  destruct (match_number s) as [[g r]|]; simpl; [|reflexivity].
  rewrite span_space_lower. simpl.
  destruct (span is_space r).2 as [|a [|b r']]; simpl; [reflexivity..|].
  rewrite !is_m_lower. destruct (is_m a && is_m b); reflexivity.
Qed.

Lemma pattern_inch_lower s : pattern_inch (lower s) = lowered (pattern_inch s).
Proof.
  unfold pattern_inch. rewrite match_number_lower.
  destruct (match_number s) as [[g r]|]; simpl; [|reflexivity].
  rewrite span_space_lower. simpl.
  destruct (span is_space r).2 as [|a r']; simpl; [reflexivity|].
  rewrite inch_lower. destruct (Ascii.eqb a inch_mark); reflexivity.
Qed.

(** [pattern_paren] with its two literal characters written as
    comparisons. *)
Lemma pattern_paren_eqb s :
  pattern_paren s
  = match s with
    | String c s1 =>
        if Ascii.eqb c "(" then
          match match_number s1 with
          | Some (g, String c' r') =>
              if Ascii.eqb c' ")" then Some (g, r') else None
          | _ => None
          end
        else None
    | EmptyString => None
    end.
Proof.
  unfold pattern_paren. destruct s as [|c s1]; [reflexivity|].
  destruct c as [[] [] [] [] [] [] [] []]; try reflexivity.
  simpl. destruct (match_number s1) as [[g [|c' r']]|]; try reflexivity.
  destruct c' as [[] [] [] [] [] [] [] []]; reflexivity.
Qed.

Lemma pattern_paren_lower s :
  pattern_paren (lower s) = lowered (pattern_paren s).
Proof.
  rewrite !pattern_paren_eqb. destruct s as [|c s1]; simpl; [reflexivity|].
  rewrite open_lower. destruct (Ascii.eqb c "("); [|reflexivity].
  rewrite match_number_lower.
  destruct (match_number s1) as [[g [|c' r']]|]; simpl; try reflexivity.
  rewrite close_lower. destruct (Ascii.eqb c' ")"); reflexivity.
Qed.

Lemma findall_lower pattern :
  (∀ s, pattern (lower s) = lowered (pattern s)) →
  ∀ skip text, findall pattern skip (lower text) = findall pattern skip text.
Proof.
  intros Hpattern skip text. revert skip.
  induction text as [|c text IH]; intros skip; [reflexivity|].
  change (lower (String c text)) with (String (lower_ascii c) (lower text)).
  cbn [findall]. destruct skip as [|k]; [|apply IH].
  change (String (lower_ascii c) (lower text)) with (lower (String c text)).
  rewrite Hpattern.
  destruct (pattern (String c text)) as [[g rest]|]; simpl; [|apply IH].
  rewrite !length_lower, IH. reflexivity.
Qed.

(** X8. Token extraction does not depend on letter case: two texts that are
    equal once lower-cased have the same tokens. *)
Theorem extract_tokens_case_insensitive text text' :
  lower text = lower text' → extract_tokens text = extract_tokens text'.
Proof.
  assert (Hlower : ∀ t, extract_tokens t = extract_tokens (lower t)).
  { intros t. unfold extract_tokens, size_patterns. simpl.
    rewrite lower_idempotent.
    rewrite (findall_lower _ pattern_mm_lower),
      (findall_lower _ pattern_inch_lower),
      (findall_lower _ pattern_paren_lower).
    reflexivity. }
  intros Heq. rewrite (Hlower text), (Hlower text'), Heq. reflexivity.
Qed.

End TokenCase.

Lemma extract_tokens_case_insensitive_witness :
  extract_tokens "RAKZA 9 Black (2.0) 1.8MM"
  = extract_tokens "rakza 9 BLACK (2.0) 1.8mm".
Proof.
  apply extract_tokens_case_insensitive. reflexivity.
Defined.

(** ** The tokens that can be extracted *)

Section TokenShape.

Import TokenMatcher.

Lemma span_all p s : all_chars p (span p s).1 = true.
Proof.
  induction s as [|c s IH]; simpl; [reflexivity|].
  destruct (p c) eqn:Hc; [|reflexivity].
  destruct (span p s) as [a b]. simpl in *. by rewrite Hc, IH.
Qed.

Lemma match_number_text s g r : match_number s = Some (g, r) → number_text g.
Proof.
  rewrite match_number_eqb.
  pose proof (span_all is_digit s) as Hd1.
  destruct (span is_digit s) as [d1 r1]. simpl in Hd1.
  destruct d1 as [|d d1]; [discriminate|].
  destruct r1 as [|c r2].
  - intros [= <- <-]. exists (String d d1), "". repeat split; auto; discriminate.
  - destruct (Ascii.eqb c ".").
    + pose proof (span_all is_digit r2) as Hd2.
      destruct (span is_digit r2) as [d2 r3]. simpl in Hd2.
      intros [= <- <-]. exists (String d d1), d2. repeat split; auto; discriminate.
    + intros [= <- <-]. exists (String d d1), "". repeat split; auto; discriminate.
Qed.

Lemma findall_group pattern skip text g :
  g ∈ findall pattern skip text → ∃ s r, pattern s = Some (g, r).
Proof.
  revert skip. induction text as [|c text IH]; intros skip; simpl.
  - intros H. inversion H.
  - destruct skip as [|k]; [|apply IH].
    destruct (pattern (String c text)) as [[g' rest]|] eqn:Hp; [|apply IH].
    intros [->|H]%elem_of_cons; [eauto | eapply IH, H].
Qed.

Lemma size_pattern_text pattern s g r :
  pattern ∈ size_patterns → pattern s = Some (g, r) → number_text g.
Proof.
  unfold size_patterns. rewrite !elem_of_cons, elem_of_nil.
  intros [-> | [-> | [-> | []]]].
  - unfold pattern_mm.
    destruct (match_number s) as [[g' r']|] eqn:Hn; [|discriminate].
    destruct (span is_space r').2 as [|a [|b r'']]; try discriminate.
    destruct (is_m a && is_m b); [|discriminate].
    intros [= <- _]. eapply match_number_text, Hn.
  - unfold pattern_inch.
    destruct (match_number s) as [[g' r']|] eqn:Hn; [|discriminate].
    destruct (span is_space r').2 as [|a r'']; try discriminate.
    destruct (Ascii.eqb a inch_mark); [|discriminate].
    intros [= <- _]. eapply match_number_text, Hn.
  - rewrite pattern_paren_eqb. destruct s as [|c s1]; [discriminate|].
    destruct (Ascii.eqb c "("); [|discriminate].
    destruct (match_number s1) as [[g' [|c' r']]|] eqn:Hn; try discriminate.
    destruct (Ascii.eqb c' ")"); [|discriminate].
    intros [= <- _]. eapply match_number_text, Hn.
Qed.

Lemma lower_app s t : lower (s ++ t) = lower s ++ lower t.
Proof.
  induction s as [|c s IH]; simpl; [reflexivity|]. by rewrite IH.
Qed.

Lemma lower_digits d : all_chars is_digit d = true → lower d = d.
Proof.
  induction d as [|c d IH]; simpl; [reflexivity|].
  intros [Hc Hd]%andb_true_iff. by rewrite (digit_lower c Hc), IH.
Qed.

Lemma lower_number_text g : number_text g → lower g = g.
Proof.
  intros (d1 & d2 & _ & H1 & H2 & [-> | ->]).
  - by apply lower_digits.
  - rewrite !lower_app, (lower_digits d1 H1), (lower_digits d2 H2).
    reflexivity.
Qed.

(** X9. Every token that [extract_tokens] returns is a colour of the fixed
    vocabulary or a size written as digits with at most one dot after the
    first digits; units, parentheses and other words never become tokens. *)
Theorem extract_tokens_vocabulary text x :
  x ∈ extract_tokens text → x ∈ colors ∨ number_text x.
Proof.
  unfold extract_tokens.
  set (sizes :=
         fold_left
           (λ (tokens : gset string) pattern,
              tokens ∪ list_to_set (map lower (findall pattern 0 text)))
           size_patterns ∅).
  assert (Hsizes : ∀ y, y ∈ sizes → number_text y).
  { unfold sizes.
    assert (Hfold : ∀ patterns (acc : gset string),
              (∀ p, p ∈ patterns → p ∈ size_patterns) →
              (∀ y, y ∈ acc → number_text y) →
              ∀ y, y ∈ fold_left
                         (λ (tokens : gset string) pattern,
                            tokens
                            ∪ list_to_set
                                (map lower (findall pattern 0 text)))
                         patterns acc → number_text y).
    { induction patterns as [|p patterns IH]; intros acc Hp Hacc y; simpl;
        [apply Hacc|].
      apply IH.
      - intros p' Hp'. apply Hp. by apply list_elem_of_further.
      - intros z [Hz | Hz]%elem_of_union; [by apply Hacc|].
        apply elem_of_list_to_set, list_elem_of_In, in_map_iff in Hz
          as (g & <- & Hg).
        apply list_elem_of_In, findall_group in Hg as (s & r & Hs).
        assert (Hg : number_text g).
        { eapply size_pattern_text; [|exact Hs].
          apply Hp, list_elem_of_here. }
        by rewrite (lower_number_text g Hg). }
    apply (Hfold size_patterns ∅); [auto|].
    intros y Hy. by apply elem_of_empty in Hy. }
  clearbody sizes. revert sizes Hsizes.
  assert (Hcolors : ∀ vocabulary (acc : gset string),
            (∀ y, y ∈ acc → y ∈ vocabulary ++ colors ∨ number_text y)%list →
            (∀ c, c ∈ vocabulary → c ∈ colors) →
            x ∈ fold_left
                  (λ (tokens : gset string) color,
                     if contains color (lower text) then tokens ∪ {[color]}
                     else tokens)
                  vocabulary acc →
            x ∈ (vocabulary ++ colors)%list ∨ number_text x).
  { induction vocabulary as [|c vocabulary IH]; intros acc Hacc Hsub; simpl.
    - apply Hacc.
    - intros Hx. apply IH in Hx.
      + destruct Hx as [Hx | Hx]; [left | by right].
        by apply list_elem_of_further.
      + intros y Hy.
        assert (Hy' : y ∈ acc ∨ y = c).
        { destruct (contains c (lower text)); [|by left].
          apply elem_of_union in Hy as [Hy | Hy%elem_of_singleton]; auto. }
        destruct Hy' as [Hy' | ->].
        * destruct (Hacc y Hy') as [[-> | Hin]%elem_of_cons | Hn];
            [left | by left | by right].
          apply elem_of_app. right. apply Hsub, list_elem_of_here.
        * left. apply elem_of_app. right. apply Hsub, list_elem_of_here.
      + intros c' Hc'. apply Hsub. by apply list_elem_of_further. }
  intros sizes Hsizes Hx.
  apply Hcolors in Hx; [| intros y Hy; right; by apply Hsizes | auto].
  destruct Hx as [Hx | Hx]; [left | by right].
  apply elem_of_app in Hx as [Hx | Hx]; exact Hx.
Qed.

End TokenShape.

Lemma extract_tokens_vocabulary_witness :
  "2.0" ∈ colors ∨ number_text "2.0".
Proof.
  apply (extract_tokens_vocabulary "Rakza 9 Black (2.0 mm)").
  vm_compute. reflexivity.
Defined.

(** ** What [process] returns *)

Section ProcessFacts.

Variable scorer : string -> string -> Z.

Lemma max_by_score_elem best l :
  process.max_by_score best l ∈ best :: l.
Proof.
  revert best. induction l as [|m l IH]; intros best; simpl.
  - apply list_elem_of_here.
  - specialize (IH (if best.2 <? m.2 then m else best)).
    apply elem_of_cons in IH as [-> | IH].
    + destruct (best.2 <? m.2);
        [apply list_elem_of_further, list_elem_of_here
        | apply list_elem_of_here].
    + by do 2 apply list_elem_of_further.
Qed.

Lemma max_by_score_max best l m :
  m ∈ best :: l → m.2 <= (process.max_by_score best l).2.
Proof.
  revert best m. induction l as [|m' l IH]; intros best m; simpl.
  - intros ->%list_elem_of_singleton. lia.
  - set (next := if best.2 <? m'.2 then m' else best).
    assert (Hmono : best.2 <= next.2 ∧ m'.2 <= next.2).
    { unfold next. destruct (Z.ltb_spec best.2 m'.2); lia. }
    assert (Hnext : next.2 <= (process.max_by_score next l).2).
    { apply IH, list_elem_of_here. }
    intros [-> | [-> | Hin]%elem_of_cons]%elem_of_cons; [lia | lia |].
    apply IH. by apply list_elem_of_further.
Qed.

Lemma extractWithoutOrder_elem query choices cutoff m :
  m ∈ process.extractWithoutOrder scorer query choices cutoff
  ↔ m.1 ∈ choices ∧ m.2 = scorer query m.1 ∧ cutoff <= m.2.
Proof.
  unfold process.extractWithoutOrder.
  rewrite list_elem_of_In, filter_In, in_map_iff, Z.leb_le. split.
  - intros [(c & <- & Hc) Hle]. simpl in *.
    split; [by apply list_elem_of_In | auto].
  - intros (Hc & Hs & Hle). split; [|exact Hle].
    exists m.1. split; [|by apply list_elem_of_In].
    rewrite <- Hs. by destruct m.
Qed.

(** What [extractOne] returns is a choice with its score, and no choice scores
    more. *)
Lemma extractOne_some query choices best :
  process.extractOne scorer query choices = Some best →
  best.1 ∈ choices ∧ best.2 = scorer query best.1 ∧ 0 <= best.2
  ∧ ∀ c, c ∈ choices → scorer query c <= Z.max 0 best.2.
Proof.
  unfold process.extractOne.
  destruct (process.extractWithoutOrder scorer query choices 0)
    as [|m l] eqn:Hl; [discriminate|].
  intros [= <-].
  pose proof (max_by_score_elem m l) as Hin. rewrite <- Hl in Hin.
  apply extractWithoutOrder_elem in Hin as (H1 & H2 & H3).
  repeat split; [exact H1 | exact H2 | exact H3|].
  intros c Hc.
  destruct (Z.le_gt_cases 0 (scorer query c)) as [Hpos|Hneg]; [|lia].
  assert (Hm : (c, scorer query c) ∈ m :: l).
  { rewrite <- Hl. apply extractWithoutOrder_elem. auto. }
  apply max_by_score_max in Hm. simpl in Hm. lia.
Qed.

Lemma extractOne_scored query choices :
  choices ≠ [] → (∀ c, 0 <= scorer query c) →
  ∃ best, process.extractOne scorer query choices = Some best.
Proof.
  intros Hne Hpos. unfold process.extractOne.
  destruct choices as [|c choices]; [contradiction|].
  destruct (process.extractWithoutOrder scorer query (c :: choices) 0)
    as [|m l] eqn:Hl; [|eauto].
  assert (Hin : (c, scorer query c)
                ∈ process.extractWithoutOrder scorer query (c :: choices) 0).
  { apply extractWithoutOrder_elem. simpl.
    split; [apply list_elem_of_here | auto]. }
  rewrite Hl in Hin. inversion Hin.
Qed.

(** The matches of [extract] are choices with their scores. *)
Lemma extract_scored query choices limit m :
  m ∈ process.extract scorer query choices limit →
  m.1 ∈ choices ∧ m.2 = scorer query m.1.
Proof.
  unfold process.extract.
  intros (i & H%list_elem_of_lookup_2%sorted_desc_elem & _)%elem_of_take.
  apply extractWithoutOrder_elem in H as (H1 & H2 & _). auto.
Qed.

End ProcessFacts.

(** ** An article number of the catalogue decides the match *)

Section ExactArticlePrecedence.

Variables ratio token_sort_ratio : string -> string -> Z.
Variable json_loads : string -> option (list string).

(** [_choose_best_candidate] on a non-empty bucket, with a scorer that has no
    negative value: a variant of the bucket whose name scores highest. *)
Lemma choose_best_candidate_found query candidates :
  candidates ≠ [] → (∀ c, 0 <= token_sort_ratio query c) →
  ∃ candidate,
    _choose_best_candidate token_sort_ratio query candidates = Some candidate
    ∧ candidate ∈ candidates
    ∧ ∀ c, c ∈ candidates →
           token_sort_ratio query (v_name c)
           <= token_sort_ratio query (v_name candidate).
Proof.
  intros Hne Hpos. unfold _choose_best_candidate.
  destruct (extractOne_scored token_sort_ratio query (map v_name candidates))
    as [best Hbest]; [by destruct candidates | exact Hpos |].
  rewrite Hbest.
  apply extractOne_some in Hbest as (Hin & Hscore & Hbest0 & Hmax).
  destruct (List.find (λ candidate, String.eqb (v_name candidate) best.1)
              candidates) as [candidate|] eqn:Hfind.
  - apply find_some in Hfind as [Hc Hname]. apply String.eqb_eq in Hname.
    exists candidate. split; [reflexivity|].
    split; [by apply list_elem_of_In|].
    intros c Hc'. rewrite Hname, <- Hscore.
    specialize (Hmax (v_name c)). rewrite Z.max_r in Hmax by exact Hbest0.
    apply Hmax. apply list_elem_of_fmap. eauto.
  - exfalso. apply list_elem_of_In, in_map_iff in Hin as (c & Hname & Hc).
    apply (find_none _ _ Hfind) in Hc. rewrite Hname, String.eqb_refl in Hc.
    discriminate.
Qed.

(** X10. In a cache built by [refresh], when the article number given is one
    of the catalogue and the name scorer has no negative value, the result is
    decided by the first strategy, whatever the name given: a row of the
    catalogue with that article number, score 100 and an exact-article
    method; when the method is [exact_article_disambiguated], no row with
    that article number has a name that scores higher against the name
    given. *)
Theorem exact_article_takes_precedence self products_data db_products now
    input_product input_article threshold :
  let new := refresh json_loads self products_data db_products now in
  input_article ≠ "" →
  get_products_by_article new input_article ≠ [] →
  (∀ query choice, 0 <= token_sort_ratio query choice) →
  ∃ name m,
    match_product ratio token_sort_ratio new input_product
      (Some input_article) threshold
    = Ok (Some input_article, Some name, 100, Some m)
    ∧ m ∈ exact_article_methods
    ∧ (input_article, name) ∈ filed_rows products_data
    ∧ (m = "exact_article_disambiguated" →
       ∀ query r,
         truthy_str input_product = Some query →
         r ∈ filed_rows products_data → r.1 = input_article →
         token_sort_ratio query r.2 <= token_sort_ratio query name).
Proof.
  intros new Harticle Hbucket Hpos.
  destruct (refresh_contents json_loads self products_data db_products now)
    as (_ & Hvariants & _).
  fold new in Hvariants.
  assert (Hrow : ∀ v, v ∈ get_products_by_article new input_article →
            v_article v = input_article
            ∧ (input_article, v_name v) ∈ filed_rows products_data).
  { intros v Hv. rewrite Hvariants in Hv.
    apply list_elem_of_In, in_map_iff in Hv as ([a n] & <- & Hr).
    apply filter_In in Hr as [Hr Ha]. apply String.eqb_eq in Ha.
    simpl in *. subst a. split; [reflexivity | by apply list_elem_of_In]. }
  assert (Hall : ∀ r, r ∈ filed_rows products_data → r.1 = input_article →
            variant_of r ∈ get_products_by_article new input_article).
  { intros r Hr Ha. rewrite Hvariants. apply list_elem_of_In, in_map.
    apply filter_In. split; [by apply list_elem_of_In|].
    rewrite Ha. apply String.eqb_refl. }
  unfold match_product, strategy1, exact_article_methods.
  rewrite (truthy_str_some _ Harticle).
  destruct (get_products_by_article new input_article) as [|p rest] eqn:Hp;
    [contradiction|].
  destruct (length (p :: rest) =? 1)%nat.
  - destruct (Hrow p) as [Hpa Hpr]; [apply list_elem_of_here|].
    exists (v_name p), "exact_article". simpl. rewrite Hpa.
    repeat split; [apply list_elem_of_here | exact Hpr | discriminate].
  - destruct (truthy_str input_product) as [query|] eqn:Hquery.
    + destruct (choose_best_candidate_found query (p :: rest))
        as (candidate & Hfound & Hin & Hmax); [discriminate | apply Hpos |].
      rewrite Hfound. destruct (Hrow candidate Hin) as [Hca Hcr].
      exists (v_name candidate), "exact_article_disambiguated". simpl.
      rewrite Hca.
      repeat split;
        [apply list_elem_of_further, list_elem_of_here | exact Hcr |].
      intros _ query' r [= <-] Hr Ha.
      apply (Hmax (variant_of r)), Hall; assumption.
    + destruct (Hrow p) as [Hpa Hpr]; [apply list_elem_of_here|].
      exists (v_name p), "exact_article_first". simpl. rewrite Hpa.
      repeat split;
        [do 2 apply list_elem_of_further; apply list_elem_of_here
        | exact Hpr | discriminate].
Qed.

End ExactArticlePrecedence.

(** Article 12345 of the catalogue with two name variants, asked for with a
    name that belongs to another article: the article number decides. *)
Lemma exact_article_takes_precedence_witness :
  ∃ name m,
    match_product Fixtures.ratio Fixtures.token_sort_ratio
      Fixtures.variants_cache (Some "Rakza 9 Red 2.0mm") (Some "12345") 80
    = Ok (Some "12345", Some name, 100, Some m)
    ∧ m ∈ exact_article_methods.
Proof.
  destruct (exact_article_takes_precedence Fixtures.ratio
              Fixtures.token_sort_ratio Json.loads ProductCache_init
              Fixtures.variants_data [] 0 (Some "Rakza 9 Red 2.0mm") "12345"
              80) as (name & m & H & Hm & _).
  - discriminate.
  - discriminate.
  - intros query choice. unfold Fixtures.token_sort_ratio,
      Fixtures.table_scorer.
    destruct (List.find _ _) as [e|] eqn:Hfind; [|lia].
    apply find_some in Hfind as [Hin _].
    repeat (destruct Hin as [<- | Hin]; [simpl; lia|]). destruct Hin.
  - exists name, m. split; [exact H | exact Hm].
Defined.

(** ** The score of a result *)

Section Scores.

Variables ratio token_sort_ratio : string -> string -> Z.
Variable json_loads : string -> option (list string).

Lemma int_of_float_ge k x : (inject_Z k <= x)%Q → k <= int_of_float x.
Proof.
  unfold Qle, int_of_float. simpl. intros H.
  apply Z.quot_le_lower_bound; lia.
Qed.

Lemma int_of_float_le k x : (x <= inject_Z k)%Q → int_of_float x <= k.
Proof.
  unfold Qle, int_of_float. simpl. intros H.
  apply Z.quot_le_upper_bound; lia.
Qed.

Lemma combined_score_percent T m :
  m.2 <= 100 → (combined_score T m <= inject_Z 100)%Q.
Proof.
  intros Hm. unfold combined_score.
  pose proof (token_similarity_range T (extract_tokens m.1)) as Ht.
  assert (Hf : (inject_Z m.2 <= inject_Z 100)%Q) by (rewrite <- Zle_Qle; lia).
  change (inject_Z 100) with 100%Q in *. cbv zeta. lra.
Qed.

Lemma strategy1_score self input_product input_article t :
  strategy1 token_sort_ratio self input_product input_article = Ok (Some t) →
  match_score t = 100
  ∧ ∃ m, match_method t = Some m ∧ m ∈ exact_article_methods.
Proof.
  unfold strategy1, exact_article_methods.
  repeat (simpl; first [ rewrite index0_cons | case_match ]); simpl;
    try discriminate; intros [= <-]; simpl;
    (split; [reflexivity|]); eexists; (split; [reflexivity|]);
    repeat first [apply list_elem_of_here | apply list_elem_of_further].
Qed.

Lemma strategy2_score self input_product t :
  strategy2 self input_product = Ok (Some t) → match_score t = 100.
Proof.
  unfold strategy2.
  repeat (simpl; first [ rewrite index0_cons | case_match ]); simpl;
    try discriminate; intros [= <-]; reflexivity.
Qed.

Lemma strategy4_score self input_article t :
  percent_scorer ratio →
  strategy4 ratio self input_article = Ok (Some t) →
  85 <= match_score t <= 100.
Proof.
  intros Hratio. unfold strategy4.
  destruct (truthy_str input_article) as [article|]; [|discriminate].
  destruct (dict_keys (_article_to_products self)) as [|k keys];
    [discriminate|].
  destruct (process.extractOne ratio article (k :: keys)) as [best|] eqn:Hbest;
    [|discriminate].
  destruct (Z.leb_spec 85 best.2) as [Hle|]; [|discriminate].
  destruct (get_products_by_article self best.1) as [|p rest];
    [discriminate|].
  simpl. intros [= <-]. unfold match_score. simpl.
  apply extractOne_some in Hbest as (_ & Heq & _).
  pose proof (Hratio article best.1). lia.
Qed.

Lemma strategy5_score self input_product threshold t :
  percent_scorer token_sort_ratio →
  strategy5 token_sort_ratio self input_product threshold = Ok (Some t) →
  threshold <= match_score t ∧ 0 <= match_score t <= 100.
Proof.
  intros Hscorer. unfold strategy5.
  destruct (truthy_str input_product) as [name|]; [|discriminate].
  destruct (process.extract _ _ _ _) as [|m0 ms] eqn:Hextract;
    [discriminate|].
  destruct (List.filter _ _) as [|v vs] eqn:Hvalid; [discriminate|].
  assert (Hin : ∀ m, m ∈ v :: vs →
                     threshold <= m.2 ∧ 0 <= m.2 <= 100).
  { intros m Hm. rewrite <- Hvalid in Hm.
    apply list_elem_of_In, filter_In in Hm as [Hm Hle].
    apply Z.leb_le in Hle. rewrite <- Hextract in Hm.
    apply list_elem_of_In, extract_scored in Hm as [_ Heq].
    pose proof (Hscorer name m.1). lia. }
  intros (best & Hbest & H)%bind_inv.
  assert (Hb : threshold <= best.2 ∧ 0 <= best.2 <= 100).
  { destruct (1 <? length (v :: vs))%nat.
    - rewrite enhance_with_tokens_fold in Hbest.
      assert (Hstart : enhance_invariant (extract_tokens name) v []
                         (v, inject_Z v.2)).
      { left. split; [constructor | reflexivity]. }
      apply (enhance_fold_invariant _ _ (v :: vs)) in Hstart.
      simpl app in Hstart.
      destruct (Hin v (list_elem_of_here _ _)) as [Hv1 Hv2].
      destruct Hstart
        as [[_ Hr] | (m & pre & post & Heq & _ & _ & Hr & Hgt)];
        rewrite Hr in Hbest; injection Hbest as <-; [simpl; auto|].
      simpl.
      assert (Hm : m ∈ v :: vs).
      { rewrite Heq. apply elem_of_app. right. apply list_elem_of_here. }
      destruct (Hin m Hm) as [_ Hm2].
      pose proof (int_of_float_ge v.2 _ (Qlt_le_weak _ _ Hgt)) as Hlow.
      pose proof (int_of_float_le 100 _
                    (combined_score_percent (extract_tokens name) m
                       (proj2 Hm2))) as Hhigh.
      lia.
    - injection Hbest as <-. apply Hin, list_elem_of_here. }
  revert H.
  destruct (get_articles_by_product self best.1); [discriminate|].
  intros (article & _ & H)%bind_inv. injection H as <-. exact Hb.
Qed.

(** X11. In a cache built by [refresh], with scorers that return values
    between 0 and 100, the score of every result lies between 0 and 100 and
    agrees with its method: 100 for the exact and synonym methods, at least
    85 for a fuzzy article match, at least the threshold for a fuzzy name
    match, and 0 exactly for the no-match tuple. *)
Theorem match_score_agrees_with_method self products_data db_products now
    input_product input_article threshold t :
  let new := refresh json_loads self products_data db_products now in
  percent_scorer ratio → percent_scorer token_sort_ratio →
  match_product ratio token_sort_ratio new input_product input_article
    threshold = Ok t →
  0 <= match_score t <= 100
  ∧ match match_method t with
    | None => t = no_match
    | Some m =>
        (m ∈ (exact_article_methods ++ exact_name_methods
              ++ ["synonym_match"])%list
         ∧ match_score t = 100)
        ∨ (m = "fuzzy_article" ∧ 85 <= match_score t)
        ∨ (m = "fuzzy_product_token_enhanced" ∧ threshold <= match_score t)
    end.
Proof.
  intros new Hratio Hname Ht.
  apply match_product_inv in Ht as [H | [H | [H | [H | [H | ->]]]]].
  - apply strategy1_score in H as (Hs & m & -> & Hm).
    rewrite Hs. split; [lia|]. left. split; [|reflexivity].
    apply elem_of_app. by left.
  - pose proof (strategy2_score _ _ _ H) as Hs.
    apply strategy2_method in H as (_ & m & -> & Hm).
    rewrite Hs. split; [lia|]. left. split; [|reflexivity].
    apply elem_of_app. right. apply elem_of_app. by left.
  - apply strategy3_method in H as (_ & name & r & _ & Hr & ->).
    simpl. unfold match_score. simpl.
    rewrite (refresh_synonyms_score json_loads self products_data
               db_products now _ _ Hr).
    split; [lia|]. left. split; [|reflexivity].
    repeat first [apply list_elem_of_here | apply list_elem_of_further].
  - pose proof (strategy4_score _ _ _ Hratio H) as Hs.
    apply strategy4_method in H as ->.
    split; [lia|]. right. left. split; [reflexivity | lia].
  - pose proof (strategy5_score _ _ _ _ Hname H) as Hs.
    apply strategy5_method in H as ->.
    split; [lia|]. right. right. split; [reflexivity | lia].
  - simpl. split; [unfold match_score; simpl; lia | reflexivity].
Qed.

End Scores.

Lemma table_scorer_percent table :
  Forall (fun e : string * string * Z => 0 <= e.2 <= 100) table →
  percent_scorer (Fixtures.table_scorer table).
Proof.
  intros Htable query choice. unfold Fixtures.table_scorer.
  destruct (List.find _ _) as [e|] eqn:Hfind; [|lia].
  apply find_some in Hfind as [Hin _].
  rewrite List.Forall_forall in Htable. apply (Htable e Hin).
Qed.

(** A misspelt name in the catalogue of the test suite: the result is a
    fuzzy name match whose score lies between the threshold and 100. *)
Lemma match_score_agrees_with_method_witness :
  ∃ t,
    match_product Fixtures.ratio Fixtures.token_sort_ratio Fixtures.cache
      (Some "Rakza 9 Black") None 80 = Ok t
    ∧ match_method t = Some "fuzzy_product_token_enhanced"
    ∧ 80 <= match_score t <= 100.
Proof.
  eexists. split; [vm_compute; reflexivity|].
  split; [reflexivity|].
  destruct (match_score_agrees_with_method Fixtures.ratio
              Fixtures.token_sort_ratio Json.loads ProductCache_init
              Fixtures.products_data Fixtures.db_products 0
              (Some "Rakza 9 Black") None 80
              (Some "12345", Some "Rakza 9 Black 2.0mm", 81,
               Some "fuzzy_product_token_enhanced"))
    as [Hrange Hmethod].
  - apply table_scorer_percent. repeat constructor; simpl; lia.
  - apply table_scorer_percent. repeat constructor; simpl; lia.
  - vm_compute. reflexivity.
  - simpl in Hmethod. unfold match_score in *. simpl in *. lia.
Defined.

(** ** The rows behind a result *)

Section ResultRows.

Variables ratio token_sort_ratio : string -> string -> Z.
Variable json_loads : string -> option (list string).

Lemma index0_inv {A} (l : list A) x : index0 l = Ok x → x ∈ l.
Proof. destruct l; [discriminate|]. intros [= <-]. apply list_elem_of_here. Qed.

Lemma token_steps_member T article products best a :
  (fold_left (token_step T article) products best).1 = Some a →
  best.1 = Some a ∨ a = article.
Proof.
  revert best. induction products as [|p products IH]; intros best; simpl.
  - auto.
  - intros [H | H]%IH; [|by right].
    revert H. unfold token_step. destruct best as [b s].
    destruct (float_gt _ _); simpl; [intros [= <-]; by right | by left].
Qed.

Lemma token_scan_member self T articles best a :
  (token_scan self T articles best).1 = Some a →
  best.1 = Some a ∨ a ∈ articles.
Proof.
  unfold token_scan. revert best.
  induction articles as [|article articles IH]; intros best; simpl.
  - auto.
  - intros [H | H]%IH.
    + apply token_steps_member in H as [H | ->]; [by left|].
      right. apply list_elem_of_here.
    + right. by apply list_elem_of_further.
Qed.

Lemma choose_best_article_member self name articles a :
  _choose_best_article_by_tokens self name articles = Some a → a ∈ articles.
Proof.
  rewrite choose_best_article_by_tokens_scan.
  destruct (bool_decide _); [discriminate|]. cbv zeta.
  destruct (float_gt _ _); [|discriminate].
  intros [H | H]%token_scan_member; [discriminate | exact H].
Qed.

Lemma find_binding {V} k (l : list (string * V)) v :
  last_binding k l = Some v → (k, v) ∈ l.
Proof.
  unfold last_binding.
  destruct (List.find _ _) as [b|] eqn:Hfind; [|discriminate].
  simpl. intros [= <-]. apply find_some in Hfind as [Hin Hk].
  apply String.eqb_eq in Hk. subst k. destruct b.
  apply list_elem_of_In. by apply in_rev.
Qed.

Section Refreshed.

Variable self : ProductCache.
Variable products_data : list csv_row.
Variable db_products : list db_row.
Variable now : Z.

Let new := refresh json_loads self products_data db_products now.

Lemma refreshed_article a name :
  a ∈ get_articles_by_product new name → (a, name) ∈ filed_rows products_data.
Proof.
  destruct (refresh_contents json_loads self products_data db_products now)
    as (Ha & _).
  fold new in Ha. rewrite Ha.
  intros (r & -> & Hr)%list_elem_of_fmap.
  apply list_elem_of_In, filter_In in Hr as [Hr Hname].
  apply String.eqb_eq in Hname. subst name. destruct r.
  by apply list_elem_of_In.
Qed.

Lemma refreshed_variant v article :
  v ∈ get_products_by_article new article →
  (v_article v, v_name v) ∈ filed_rows products_data.
Proof.
  destruct (refresh_contents json_loads self products_data db_products now)
    as (_ & Hp & _).
  fold new in Hp. rewrite Hp.
  intros (r & -> & Hr)%list_elem_of_fmap.
  apply list_elem_of_In, filter_In in Hr as [Hr _]. destruct r.
  by apply list_elem_of_In.
Qed.

Lemma strategy1_row input_product input_article t :
  strategy1 token_sort_ratio new input_product input_article = Ok (Some t) →
  ∃ a n, matched_article t = Some a ∧ matched_product t = Some n
         ∧ (a, n) ∈ filed_rows products_data.
Proof.
  unfold strategy1.
  destruct (truthy_str input_article) as [article|]; [|discriminate].
  destruct (get_products_by_article new article) as [|p rest] eqn:Hp;
    [discriminate|].
  assert (Hbucket : ∀ v, v ∈ p :: rest →
                         (v_article v, v_name v) ∈ filed_rows products_data).
  { intros v Hv. apply (refreshed_variant v article). by rewrite Hp. }
  destruct (length (p :: rest) =? 1)%nat.
  { simpl. intros [= <-]. do 2 eexists. repeat split.
    apply Hbucket, list_elem_of_here. }
  destruct (truthy_str input_product) as [query|].
  - destruct (_choose_best_candidate _ _ _) as [c|] eqn:Hc; [|discriminate].
    simpl. intros [= <-]. do 2 eexists. repeat split. apply Hbucket.
    unfold _choose_best_candidate in Hc.
    destruct (process.extractOne _ _ _); [|discriminate].
    apply find_some in Hc as [Hc _]. by apply list_elem_of_In.
  - simpl. intros [= <-]. do 2 eexists. repeat split.
    apply Hbucket, list_elem_of_here.
Qed.

Lemma strategy2_row input_product t :
  strategy2 new input_product = Ok (Some t) →
  ∃ a n, matched_article t = Some a ∧ matched_product t = Some n
         ∧ (a, n) ∈ filed_rows products_data.
Proof.
  unfold strategy2.
  destruct (truthy_str input_product) as [name|]; [|discriminate].
  destruct (get_articles_by_product new name) as [|a0 rest] eqn:Ha;
    [discriminate|].
  assert (Hbucket : ∀ a, a ∈ a0 :: rest → (a, name) ∈ filed_rows products_data).
  { intros a Hin. apply refreshed_article. by rewrite Ha. }
  destruct (length (a0 :: rest) =? 1)%nat.
  { simpl. intros [= <-]. do 2 eexists. repeat split.
    apply Hbucket, list_elem_of_here. }
  destruct (_choose_best_article_by_tokens new name (a0 :: rest))
    as [best|] eqn:Hbest.
  - apply choose_best_article_member in Hbest.
    destruct (truthy_str (Some best)) as [best'|] eqn:Htruthy.
    + apply truthy_str_inv in Htruthy as [[= <-] _].
      simpl. intros [= <-]. do 2 eexists. repeat split. by apply Hbucket.
    + simpl. intros [= <-]. do 2 eexists. repeat split.
      apply Hbucket, list_elem_of_here.
  - simpl. intros [= <-]. do 2 eexists. repeat split.
    apply Hbucket, list_elem_of_here.
Qed.

Lemma strategy4_row input_article t :
  strategy4 ratio new input_article = Ok (Some t) →
  ∃ a n, matched_article t = Some a ∧ matched_product t = Some n
         ∧ (a, n) ∈ filed_rows products_data.
Proof.
  unfold strategy4.
  destruct (truthy_str input_article) as [article|]; [|discriminate].
  destruct (dict_keys _); [discriminate|].
  destruct (process.extractOne _ _ _) as [best|]; [|discriminate].
  destruct (85 <=? best.2); [|discriminate].
  destruct (get_products_by_article new best.1) as [|p rest] eqn:Hp;
    [discriminate|].
  simpl. intros [= <-]. do 2 eexists. repeat split.
  apply (refreshed_variant p best.1). rewrite Hp. apply list_elem_of_here.
Qed.

Lemma strategy5_row input_product threshold t :
  strategy5 token_sort_ratio new input_product threshold = Ok (Some t) →
  ∃ a n, matched_article t = Some a ∧ matched_product t = Some n
         ∧ (a, n) ∈ filed_rows products_data.
Proof.
  unfold strategy5.
  destruct (truthy_str input_product) as [name|]; [|discriminate].
  destruct (process.extract _ _ _ _); [discriminate|].
  destruct (List.filter _ _) as [|v vs]; [discriminate|].
  intros (best & _ & H)%bind_inv. revert H.
  destruct (get_articles_by_product new best.1) as [|a0 rest] eqn:Ha;
    [discriminate|].
  intros (article & Harticle & H)%bind_inv. injection H as <-.
  do 2 eexists. repeat split. apply refreshed_article. rewrite Ha.
  destruct (1 <? length (a0 :: rest))%nat;
    [|apply index0_inv, Harticle].
  destruct (_choose_best_article_by_tokens new name (a0 :: rest))
    as [chosen|] eqn:Hchosen; [|apply index0_inv, Harticle].
  apply choose_best_article_member in Hchosen.
  destruct (truthy_str (Some chosen)) as [chosen'|] eqn:Htruthy;
    [|apply index0_inv, Harticle].
  apply truthy_str_inv in Htruthy as [[= <-] _].
  injection Harticle as <-. exact Hchosen.
Qed.

End Refreshed.

(** X12. In a cache built by [refresh], a result of [match_product] other
    than the no-match tuple carries the article number and the name of one
    row of its source: a row of the catalogue with both fields filled for
    every method but the synonym match, and for the synonym match a row of
    the product store whose list of synonyms holds the name asked for, up to
    letter case. *)
Theorem match_names_source_row self products_data db_products now
    input_product input_article threshold t :
  let new := refresh json_loads self products_data db_products now in
  match_product ratio token_sort_ratio new input_product input_article
    threshold = Ok t →
  t ≠ no_match →
  if bool_decide (match_method t = Some "synonym_match") then
    ∃ name row l synonym,
      input_product = Some name ∧ row ∈ db_products
      ∧ (synonyms row ≫= json_loads) = Some l ∧ synonym ∈ l
      ∧ lower synonym = lower name
      ∧ matched_article t = article_number row
      ∧ matched_product t = product_name row
  else
    ∃ a n, matched_article t = Some a ∧ matched_product t = Some n
           ∧ (a, n) ∈ filed_rows products_data.
Proof.
  intros new Ht Hno.
  apply match_product_inv in Ht as [H | [H | [H | [H | [H | ->]]]]];
    [| | | | |contradiction].
  - pose proof (strategy1_method _ _ _ _ _ H) as Hm.
    rewrite bool_decide_eq_false_2
      by (intros E; rewrite E in Hm; destruct Hm as [|[|]]; discriminate).
    by apply strategy1_row in H.
  - pose proof (strategy2_method _ _ _ H) as (_ & m & Hm & Hin).
    rewrite bool_decide_eq_false_2.
    + by apply strategy2_row in H.
    + rewrite Hm. intros [= ->]. unfold exact_name_methods in Hin.
      rewrite !elem_of_cons, elem_of_nil in Hin.
      destruct Hin as [|[|[|[]]]]; discriminate.
  - apply strategy3_method in H as (Hm & name & r & Hname & Hr & ->).
    rewrite bool_decide_eq_true_2 by exact Hm.
    apply truthy_str_inv in Hname as [-> _].
    unfold new in Hr. rewrite refresh_synonym_lookup in Hr.
    apply find_binding in Hr. unfold synonym_bindings in Hr.
    apply list_elem_of_In, in_concat in Hr as (bs & Hbs & Hr).
    apply list_elem_of_In in Hr.
    apply list_elem_of_In, list_elem_of_fmap in Hbs as (row & -> & Hrow).
    unfold row_synonyms in Hr.
    destruct (truthy_str (synonyms row)) as [json|] eqn:Hjson;
      [|by apply elem_of_nil in Hr].
    apply truthy_str_inv in Hjson as [Hjson _].
    destruct (json_loads json) as [l|] eqn:Hl; [|by apply elem_of_nil in Hr].
    apply list_elem_of_fmap in Hr as (synonym & [= Hlow ->] & Hsyn).
    exists name, row, l, synonym. rewrite Hjson. simpl.
    repeat split; auto.
  - pose proof (strategy4_method _ _ _ _ H) as Hm.
    rewrite bool_decide_eq_false_2 by (rewrite Hm; discriminate).
    by apply strategy4_row in H.
  - pose proof (strategy5_method _ _ _ _ _ H) as Hm.
    rewrite bool_decide_eq_false_2 by (rewrite Hm; discriminate).
    by apply strategy5_row in H.
Qed.

End ResultRows.

(** A synonym of the test suite asked for in capitals: the result carries
    the article number and the name of the row of the product store that
    lists the synonym. *)
Lemma match_names_source_row_witness :
  ∃ name row l synonym,
    Some "RAKZA9" = Some name ∧ row ∈ Fixtures.db_products
    ∧ (synonyms row ≫= Json.loads) = Some l ∧ synonym ∈ l
    ∧ lower synonym = lower name
    ∧ Some "12345" = article_number row
    ∧ Some "Rakza 9 Black 2.0mm" = product_name row.
Proof.
  apply (match_names_source_row Fixtures.ratio Fixtures.token_sort_ratio
           Json.loads ProductCache_init Fixtures.products_data
           Fixtures.db_products 0 (Some "RAKZA9") None 80
           (Some "12345", Some "Rakza 9 Black 2.0mm", 100,
            Some "synonym_match")).
  - vm_compute. reflexivity.
  - discriminate.
Defined.

(** ** Rejecting and approving suggestions *)

Section Pending.

Lemma stays_pending_spec synonym article s :
  stays_pending synonym article s
  = negb (String.eqb (sg_synonym s) synonym
          && String.eqb (sg_article s) article).
Proof. unfold stays_pending. by rewrite negb_andb. Qed.

Lemma filter_pending_count synonym article l :
  (length (List.filter (stays_pending synonym article) l)
   + length
       (List.filter
          (fun s => String.eqb (sg_synonym s) synonym
                    && String.eqb (sg_article s) article) l)
   = length l)%nat.
Proof.
  induction l as [|s l IH]; simpl; [reflexivity|].
  rewrite stays_pending_spec.
  destruct (String.eqb (sg_synonym s) synonym
            && String.eqb (sg_article s) article); simpl; lia.
Qed.

Lemma filter_pending_gone synonym article l :
  List.filter
    (fun s => String.eqb (sg_synonym s) synonym
              && String.eqb (sg_article s) article)
    (List.filter (stays_pending synonym article) l) = [].
Proof.
  induction l as [|s l IH]; simpl; [reflexivity|].
  rewrite stays_pending_spec.
  destruct (String.eqb (sg_synonym s) synonym
            && String.eqb (sg_article s) article) eqn:E; simpl;
    [exact IH | rewrite E; exact IH].
Qed.

Lemma filter_pending_other synonym article s a l :
  (s, a) ≠ (synonym, article) →
  List.filter
    (fun x => String.eqb (sg_synonym x) s && String.eqb (sg_article x) a)
    (List.filter (stays_pending synonym article) l)
  = List.filter
      (fun x => String.eqb (sg_synonym x) s && String.eqb (sg_article x) a) l.
Proof.
  intros Hother. induction l as [|x l IH]; simpl; [reflexivity|].
  rewrite stays_pending_spec.
  destruct (String.eqb_spec (sg_synonym x) synonym) as [Es|_]; simpl;
    [|by rewrite IH].
  destruct (String.eqb_spec (sg_article x) article) as [Ea|_]; simpl;
    [|by rewrite IH].
  destruct (String.eqb_spec (sg_synonym x) s) as [Es'|_]; simpl; [|exact IH].
  destruct (String.eqb_spec (sg_article x) a) as [Ea'|_]; simpl; [|exact IH].
  exfalso. apply Hother. congruence.
Qed.

Lemma filter_pending_idempotent synonym article l :
  List.filter (stays_pending synonym article)
    (List.filter (stays_pending synonym article) l)
  = List.filter (stays_pending synonym article) l.
Proof.
  induction l as [|s l IH]; simpl; [reflexivity|].
  destruct (stays_pending synonym article s) eqn:E; simpl;
    [rewrite E, IH; reflexivity | exact IH].
Qed.

(** X13. [reject_synonym] returns [True] exactly when some pending
    suggestion is for the pair of synonym text and article number; afterwards
    no suggestion for the pair is pending, the suggestions for every other
    pair are as many as before, the usage counts are untouched, and a second
    rejection of the pair returns [False] and changes nothing. *)
Theorem reject_synonym_removes_the_pair self synonym article :
  let removed := (reject_synonym self synonym article).1 in
  let self' := (reject_synonym self synonym article).2 in
  (removed = true ↔ (0 < pending_count synonym article self)%nat)
  ∧ pending_count synonym article self' = 0%nat
  ∧ (∀ s a, (s, a) ≠ (synonym, article) →
            pending_count s a self' = pending_count s a self)
  ∧ usage_stats self' = usage_stats self
  ∧ reject_synonym self' synonym article = (false, self').
Proof.
  pose proof (filter_pending_count synonym article (pending_synonyms self))
    as Hcount.
  unfold reject_synonym, pending_count. cbv zeta. simpl pending_synonyms.
  assert (Hstate :
    ∀ b : bool,
      (if b
       then (true,
             {| pending_synonyms :=
                  List.filter (stays_pending synonym article)
                    (pending_synonyms self);
                usage_stats := usage_stats self |})
       else (false,
             {| pending_synonyms :=
                  List.filter (stays_pending synonym article)
                    (pending_synonyms self);
                usage_stats := usage_stats self |})).2
      = {| pending_synonyms :=
             List.filter (stays_pending synonym article)
               (pending_synonyms self);
           usage_stats := usage_stats self |})
    by (by intros []).
  rewrite Hstate. simpl pending_synonyms. simpl usage_stats.
  repeat split.
  - destruct (Nat.ltb_spec 0
                (length (pending_synonyms self)
                 - length (List.filter (stays_pending synonym article)
                             (pending_synonyms self)))); simpl;
      [lia | discriminate].
  - intros Hpos.
    destruct (Nat.ltb_spec 0
                (length (pending_synonyms self)
                 - length (List.filter (stays_pending synonym article)
                             (pending_synonyms self)))); simpl;
      [reflexivity | lia].
  - by rewrite filter_pending_gone.
  - intros s a Hother. by rewrite filter_pending_other.
  - rewrite filter_pending_idempotent, Nat.sub_diag. reflexivity.
Qed.

End Pending.

Section Approved.

Variables ratio token_sort_ratio : string -> string -> Z.
Variable json_loads : string -> option (list string).
Variable json_dumps : list string -> string.

Lemma existsb_eqb_false synonym l :
  synonym ∉ l → existsb (String.eqb synonym) l = false.
Proof.
  intros Hnot. destruct (existsb _ _) eqn:E; [|reflexivity].
  apply existsb_exists in E as (x & Hin & Hx). apply String.eqb_eq in Hx.
  subst x. contradiction Hnot. by apply list_elem_of_In.
Qed.

Lemma existsb_eqb_true synonym l :
  synonym ∈ l → existsb (String.eqb synonym) l = true.
Proof.
  intros Hin. apply existsb_exists. exists synonym.
  split; [by apply list_elem_of_In | apply String.eqb_refl].
Qed.

(** The row that [update_product] writes in place of [r]. *)
Lemma update_product_rows article l db r' :
  r' ∈ (database.update_product json_dumps article l db).2 →
  if database.has_article article r' then synonyms r' = Some (json_dumps l)
  else r' ∈ db.
Proof.
  unfold database.update_product. simpl.
  intros (r & -> & Hr)%list_elem_of_fmap.
  destruct (database.has_article article r) eqn:E.
  - unfold database.has_article in *. simpl. rewrite E. reflexivity.
  - rewrite E. exact Hr.
Qed.

Lemma update_product_others article l db :
  List.filter (fun r => negb (database.has_article article r))
    (database.update_product json_dumps article l db).2
  = List.filter (fun r => negb (database.has_article article r)) db.
Proof.
  unfold database.update_product. simpl.
  induction db as [|r db IH]; simpl; [reflexivity|].
  destruct (database.has_article article r) eqn:E; simpl.
  - unfold database.has_article in *. simpl. rewrite E. simpl. exact IH.
  - rewrite E. simpl. by rewrite IH.
Qed.

Lemma update_product_keys article l db :
  map article_number (database.update_product json_dumps article l db).2
  = map article_number db
  ∧ map product_name (database.update_product json_dumps article l db).2
    = map product_name db.
Proof.
  unfold database.update_product. simpl. rewrite !map_map.
  split; apply map_ext; intros r; by destruct (database.has_article article r).
Qed.

Lemma update_product_find article l db product :
  List.find (database.has_article article) db = Some product →
  List.find (database.has_article article)
    (database.update_product json_dumps article l db).2
  = Some {| article_number := article_number product;
            product_name := product_name product;
            synonyms := Some (json_dumps l) |}.
Proof.
  unfold database.update_product. simpl.
  induction db as [|r db IH]; simpl; [discriminate|].
  destruct (database.has_article article r) eqn:E.
  - intros [= ->]. unfold database.has_article in *. simpl. rewrite E.
    reflexivity.
  - rewrite E. exact IH.
Qed.

Lemma listed_synonyms_stored l :
  json_dumps l ≠ "" → json_loads (json_dumps l) = Some l →
  ∀ r, synonyms r = Some (json_dumps l) → listed_synonyms json_loads r = l.
Proof.
  intros Hne Hloads r Hr. unfold listed_synonyms.
  rewrite Hr, (truthy_str_some _ Hne), Hloads. reflexivity.
Qed.

Lemma approve_synonym_success_state self synonym article db product :
  List.find (database.has_article article) db = Some product →
  synonym ∉ listed_synonyms json_loads product →
  approve_synonym database.table database.get_product_by_article
    (database.update_product json_dumps) json_loads self synonym article db
  = (true,
     {| pending_synonyms :=
          List.filter (stays_pending synonym article) (pending_synonyms self);
        usage_stats := usage_stats self |},
     (database.update_product json_dumps article
        (listed_synonyms json_loads product ++ [synonym])%list db).2).
Proof.
  intros Hfind Hnew. unfold approve_synonym, database.get_product_by_article.
  rewrite Hfind. fold (listed_synonyms json_loads product).
  rewrite (existsb_eqb_false _ _ Hnew). reflexivity.
Qed.

(** X14. [approve_synonym] on the product store of database.py, for an
    article number that the store holds and a synonym that its row does not
    list yet, when the stored text decodes to the list that was encoded: the
    call returns [True]; afterwards no suggestion for the pair is pending and
    the others are as before; the rows of the article number list the former
    synonyms followed by the new one, the other rows and all article numbers
    and names are unchanged; and a second approval returns [False] and
    changes neither the manager nor the store. *)
Theorem approve_synonym_stores_and_clears self synonym article db product :
  let existing := listed_synonyms json_loads product in
  let approve :=
    approve_synonym database.table database.get_product_by_article
      (database.update_product json_dumps) json_loads in
  let other := fun r => negb (database.has_article article r) in
  List.find (database.has_article article) db = Some product →
  synonym ∉ existing →
  json_dumps (existing ++ [synonym])%list ≠ "" →
  json_loads (json_dumps (existing ++ [synonym])%list)
  = Some (existing ++ [synonym])%list →
  ∃ self' db',
    approve self synonym article db = (true, self', db')
    ∧ pending_count synonym article self' = 0%nat
    ∧ (∀ s a, (s, a) ≠ (synonym, article) →
              pending_count s a self' = pending_count s a self)
    ∧ (∀ r', r' ∈ db' → database.has_article article r' = true →
             listed_synonyms json_loads r' = (existing ++ [synonym])%list)
    ∧ List.filter other db' = List.filter other db
    ∧ map article_number db' = map article_number db
    ∧ map product_name db' = map product_name db
    ∧ approve self' synonym article db' = (false, self', db').
Proof.
  intros existing approve other Hfind Hnew Hne Hloads.
  subst existing approve other. cbv beta.
  do 2 eexists. split; [by apply approve_synonym_success_state|].
  unfold pending_count. simpl pending_synonyms.
  split; [by rewrite filter_pending_gone|].
  split; [intros s a Hother; by rewrite filter_pending_other|].
  split.
  { intros r' Hr' Harticle. apply update_product_rows in Hr'.
    rewrite Harticle in Hr'.
    by apply (listed_synonyms_stored _ Hne Hloads). }
  split; [apply update_product_others|].
  split; [apply update_product_keys|].
  split; [apply update_product_keys|].
  unfold approve_synonym, database.get_product_by_article.
  rewrite (update_product_find _ _ _ _ Hfind). simpl synonyms.
  rewrite (truthy_str_some _ Hne), Hloads. simpl default.
  rewrite existsb_eqb_true; [reflexivity|].
  apply elem_of_app. right. apply list_elem_of_here.
Qed.

Lemma row_synonyms_listed row :
  row_synonyms json_loads row
  = map (fun synonym =>
           (lower synonym,
            {| s_article := article_number row;
               s_product := product_name row;
               s_score := 100 |}))
      (listed_synonyms json_loads row).
Proof.
  unfold row_synonyms, listed_synonyms.
  destruct (truthy_str (synonyms row)); [|reflexivity].
  destruct (json_loads s); reflexivity.
Qed.

Lemma synonym_bindings_elem db k v :
  (k, v) ∈ synonym_bindings json_loads db
  ↔ ∃ row synonym,
      row ∈ db ∧ synonym ∈ listed_synonyms json_loads row
      ∧ k = lower synonym
      ∧ v = {| s_article := article_number row;
               s_product := product_name row;
               s_score := 100 |}.
Proof.
  unfold synonym_bindings. rewrite list_elem_of_In, in_concat. split.
  - intros (bs & Hbs & Hin).
    apply list_elem_of_In, list_elem_of_fmap in Hbs as (row & -> & Hrow).
    rewrite row_synonyms_listed in Hin.
    apply list_elem_of_In, list_elem_of_fmap in Hin as (s & [= -> ->] & Hs).
    by exists row, s.
  - intros (row & s & Hrow & Hs & -> & ->).
    exists (row_synonyms json_loads row). split.
    + apply list_elem_of_In, list_elem_of_fmap. by exists row.
    + rewrite row_synonyms_listed.
      apply list_elem_of_In, list_elem_of_fmap. by exists s.
Qed.

Lemma last_binding_some {V} k (l : list (string * V)) v :
  (k, v) ∈ l → ∃ v', last_binding k l = Some v'.
Proof.
  intros Hin. unfold last_binding.
  destruct (List.find _ (rev l)) as [b|] eqn:Hfind; [by exists b.2|].
  exfalso.
  assert (Hk : String.eqb k (k, v).1 = false).
  { apply (find_none _ _ Hfind (k, v)).
    apply in_rev. rewrite rev_involutive. by apply list_elem_of_In. }
  simpl in Hk. by rewrite String.eqb_refl in Hk.
Qed.

(** X15. Once [approve_synonym] has stored a synonym for an article number,
    a cache refreshed from the store matches the synonym, in any letter
    case, to that article number with score 100 by the synonym method,
    provided that the text asked for is not itself a name of the catalogue,
    that no article number is given, and that no row of another article
    number lists the same synonym up to letter case. *)
Theorem approved_synonym_matches_after_refresh self cache products_data now
    synonym article db product text threshold :
  let existing := listed_synonyms json_loads product in
  let db' :=
    (approve_synonym database.table database.get_product_by_article
       (database.update_product json_dumps) json_loads self synonym article
       db).2 in
  let new := refresh json_loads cache products_data db' now in
  List.find (database.has_article article) db = Some product →
  synonym ∉ existing →
  json_dumps (existing ++ [synonym])%list ≠ "" →
  json_loads (json_dumps (existing ++ [synonym])%list)
  = Some (existing ++ [synonym])%list →
  (∀ r s, r ∈ db → article_number r ≠ Some article →
          s ∈ listed_synonyms json_loads r → lower s ≠ lower synonym) →
  text ≠ "" → lower text = lower synonym →
  text ∉ map snd (filed_rows products_data) →
  ∃ name,
    match_product ratio token_sort_ratio new (Some text) None threshold
    = Ok (Some article, name, 100, Some "synonym_match").
Proof.
  intros existing db' new Hfind Hnew Hne Hloads Hothers Htext Hlower Hname.
  assert (Hdb : db' = (database.update_product json_dumps article
                         (existing ++ [synonym])%list db).2).
  { unfold db'. by rewrite (approve_synonym_success_state _ _ _ _ product). }
  assert (Hlookup : ∃ r, get_synonym_match new text = Some r
                         ∧ s_article r = Some article ∧ s_score r = 100).
  { unfold new. rewrite refresh_synonym_lookup, Hlower.
    destruct (last_binding_some (lower synonym)
                (synonym_bindings json_loads db')
                {| s_article := Some article;
                   s_product := product_name product;
                   s_score := 100 |}) as [r Hr].
    { apply synonym_bindings_elem.
      exists {| article_number := article_number product;
                product_name := product_name product;
                synonyms := Some (json_dumps (existing ++ [synonym])%list) |},
        synonym.
      apply find_some in Hfind as Hproduct. destruct Hproduct as [_ Harticle].
      unfold database.has_article in Harticle.
      apply bool_decide_eq_true in Harticle.
      repeat split.
      - rewrite Hdb. apply list_elem_of_In.
        apply (find_some (database.has_article article)).
        by apply update_product_find.
      - rewrite (listed_synonyms_stored _ Hne Hloads);
          [|reflexivity].
        apply elem_of_app. right. apply list_elem_of_here.
      - simpl. by rewrite Harticle. }
    exists r. split; [exact Hr|].
    apply find_binding, synonym_bindings_elem in Hr
      as (row & s & Hrow & Hs & Hk & ->).
    simpl. split; [|reflexivity].
    rewrite Hdb in Hrow. apply update_product_rows in Hrow.
    destruct (database.has_article article row) eqn:E.
    - unfold database.has_article in E. by apply bool_decide_eq_true in E.
    - exfalso. apply (Hothers row s); auto.
      intros Harticle. unfold database.has_article in E.
      by apply bool_decide_eq_false in E. }
  destruct Hlookup as (r & Hr & Harticle & Hscore).
  exists (s_product r).
  assert (Hnone : get_articles_by_product new text = []).
  { destruct (refresh_contents json_loads cache products_data db' now)
      as (Ha & _).
    fold new in Ha. rewrite Ha.
    destruct (List.filter _ _) as [|row rows] eqn:Hfilter; [reflexivity|].
    exfalso. apply Hname.
    assert (Hin : In row (List.filter (λ r, String.eqb text r.2)
                            (filed_rows products_data)))
      by (rewrite Hfilter; left; reflexivity).
    apply filter_In in Hin as [Hin Heq]. apply String.eqb_eq in Heq.
    rewrite Heq. apply list_elem_of_fmap. exists row.
    split; [reflexivity | by apply list_elem_of_In]. }
  unfold match_product, strategy1, strategy2, strategy3.
  rewrite (truthy_str_some _ Htext), Hnone, Hr. simpl.
  by rewrite Harticle, Hscore.
Qed.

End Approved.

(** The pending suggestion of the manager of the test suite is approved:
    the row of article 12345 lists it after the two it had. *)
Lemma approve_synonym_stores_and_clears_witness :
  ∃ self' db',
    approve_synonym database.table database.get_product_by_article
      (database.update_product Json.dumps) Json.loads Fixtures.manager
      "Rakza 9 Blck 2.0mm" "12345" Fixtures.db_products
    = (true, self', db')
    ∧ pending_count "Rakza 9 Blck 2.0mm" "12345" self' = 0%nat
    ∧ (∀ r', r' ∈ db' → database.has_article "12345" r' = true →
             listed_synonyms Json.loads r'
             = ["R9 Black"; "Rakza9"; "Rakza 9 Blck 2.0mm"])
    ∧ approve_synonym database.table database.get_product_by_article
        (database.update_product Json.dumps) Json.loads self'
        "Rakza 9 Blck 2.0mm" "12345" db'
      = (false, self', db').
Proof.
  destruct (approve_synonym_stores_and_clears Json.loads Json.dumps
              Fixtures.manager "Rakza 9 Blck 2.0mm" "12345"
              Fixtures.db_products
              {| article_number := Some "12345";
                 product_name := Some "Rakza 9 Black 2.0mm";
                 synonyms := Some (Json.dumps ["R9 Black"; "Rakza9"]) |})
    as (self' & db' & H1 & H2 & _ & H3 & _ & _ & _ & H4).
  - reflexivity.
  - intros Hin. apply list_elem_of_In in Hin. vm_compute in Hin.
    intuition discriminate.
  - vm_compute. discriminate.
  - vm_compute. reflexivity.
  - exists self', db'. repeat split; assumption.
Defined.

(** After the approval, the misspelt name in capitals is matched to
    article 12345 as a synonym by a cache refreshed from the store. *)
Lemma approved_synonym_matches_after_refresh_witness :
  ∃ name,
    match_product Fixtures.ratio Fixtures.token_sort_ratio
      (refresh Json.loads ProductCache_init Fixtures.products_data
         (approve_synonym database.table database.get_product_by_article
            (database.update_product Json.dumps) Json.loads Fixtures.manager
            "Rakza 9 Blck 2.0mm" "12345" Fixtures.db_products).2 1)
      (Some "RAKZA 9 BLCK 2.0MM") None 80
    = Ok (Some "12345", name, 100, Some "synonym_match").
Proof.
  apply (approved_synonym_matches_after_refresh Fixtures.ratio
           Fixtures.token_sort_ratio Json.loads Json.dumps Fixtures.manager
           ProductCache_init Fixtures.products_data 1 "Rakza 9 Blck 2.0mm"
           "12345" Fixtures.db_products
           {| article_number := Some "12345";
              product_name := Some "Rakza 9 Black 2.0mm";
              synonyms := Some (Json.dumps ["R9 Black"; "Rakza9"]) |}
           "RAKZA 9 BLCK 2.0MM" 80).
  - reflexivity.
  - intros Hin. apply list_elem_of_In in Hin. vm_compute in Hin.
    intuition discriminate.
  - vm_compute. discriminate.
  - vm_compute. reflexivity.
  - intros r s Hr Harticle. apply list_elem_of_In in Hr.
    destruct Hr as [<- | []]. contradiction Harticle. reflexivity.
  - discriminate.
  - vm_compute. reflexivity.
  - intros Hin. apply list_elem_of_In in Hin. vm_compute in Hin.
    intuition discriminate.
Defined.

(** ** Usage counts *)

Section Usage.

Lemma fold_left_add l a : fold_left Z.add l a = a + fold_left Z.add l 0.
Proof.
  revert a. induction l as [|x l IH]; intros a; cbn [fold_left]; [lia|].
  rewrite (IH (a + x)), (IH (0 + x)). lia.
Qed.

Lemma dict_set_total (d : odict Z) k v :
  fold_left Z.add (map snd (dict_set d k v)) 0
  = fold_left Z.add (map snd d) 0 - default 0 (dict_get d k) + v.
Proof.
  induction d as [|[k0 v0] d IH]; simpl; [lia|].
  destruct (String.eqb_spec k k0) as [->|Hne]; simpl.
  - rewrite (fold_left_add _ v), (fold_left_add _ v0). lia.
  - rewrite (fold_left_add _ v0), IH, (fold_left_add _ v0). lia.
Qed.

Lemma occurrences_cons text x texts :
  occurrences text (x :: texts)
  = (if String.eqb text x then 1 else 0) + occurrences text texts.
Proof.
  unfold occurrences. simpl. destruct (String.eqb text x); simpl; lia.
Qed.

(** What a sequence of calls of [track_usage] does to the counts. *)
Lemma track_usage_calls texts self :
  let self' := fold_left track_usage texts self in
  (∀ text,
     default 0 (dict_get (usage_stats self') text)
     = default 0 (dict_get (usage_stats self) text) + occurrences text texts)
  ∧ dict_keys (usage_stats self')
    = (dict_keys (usage_stats self)
       ++ first_occurrences (dict_keys (usage_stats self)) texts)%list
  ∧ fold_left Z.add (map snd (usage_stats self')) 0
    = fold_left Z.add (map snd (usage_stats self)) 0
      + Z.of_nat (length texts)
  ∧ pending_synonyms self' = pending_synonyms self.
Proof.
  revert self. induction texts as [|x texts IH]; intros self; simpl.
  - unfold occurrences. simpl. rewrite app_nil_r.
    repeat split; intros; lia.
  - destruct (IH (track_usage self x)) as (Hcount & Hkeys & Htotal & Hpending).
    repeat split.
    + intros text. rewrite Hcount, occurrences_cons. simpl.
      rewrite dict_get_set.
      destruct (String.eqb_spec text x) as [->|_]; simpl; lia.
    + rewrite Hkeys. simpl. rewrite dict_keys_set.
      destruct (bool_decide (x ∈ dict_keys (usage_stats self))) eqn:Hin;
        [reflexivity|].
      rewrite <- app_assoc. simpl. do 2 f_equal.
      apply first_occurrences_seen. intros y.
      rewrite elem_of_app, !elem_of_cons, elem_of_nil. tauto.
    + rewrite Htotal. simpl. rewrite dict_set_total. lia.
    + rewrite Hpending. reflexivity.
Qed.

Lemma first_occurrences_elem seen l x :
  x ∈ first_occurrences seen l ↔ x ∈ l ∧ x ∉ seen.
Proof.
  revert seen. induction l as [|y l IH]; intros seen; simpl.
  - rewrite elem_of_nil. tauto.
  - destruct (bool_decide (y ∈ seen)) eqn:Hin.
    + apply bool_decide_eq_true in Hin. rewrite IH, elem_of_cons.
      split; [tauto|]. intros [[->|H] Hnot]; [contradiction | tauto].
    + apply bool_decide_eq_false in Hin.
      rewrite !elem_of_cons, IH, elem_of_cons.
      split; [intros [->|[H Hnot]]; tauto|].
      intros [[->|H] Hnot]; [tauto|].
      destruct (decide (x = y)); tauto.
Qed.

Lemma first_occurrences_NoDup seen l : NoDup (first_occurrences seen l).
Proof.
  revert seen. induction l as [|y l IH]; intros seen; simpl;
    [constructor|].
  destruct (bool_decide (y ∈ seen)); [apply IH|].
  constructor; [|apply IH].
  rewrite first_occurrences_elem, elem_of_cons. tauto.
Qed.

Lemma dict_get_elem {V} (d : odict V) k v :
  NoDup (dict_keys d) → (k, v) ∈ d → dict_get d k = Some v.
Proof.
  induction d as [|[k0 v0] d IH]; simpl.
  - intros _ H. by apply elem_of_nil in H.
  - intros [Hnot Hd]%NoDup_cons [[= -> ->]|Hin]%elem_of_cons.
    + by rewrite String.eqb_refl.
    + destruct (String.eqb_spec k k0) as [->|_]; [|by apply IH].
      contradiction Hnot. apply list_elem_of_fmap. by exists (k0, v).
Qed.

Lemma dict_key_elem {V} (d : odict V) k :
  k ∈ dict_keys d → ∃ v, (k, v) ∈ d.
Proof.
  intros ([k' v] & -> & Hin)%list_elem_of_fmap. by exists v.
Qed.

Lemma insert_desc_perm m l : process.insert_desc m l ≡ₚ m :: l.
Proof.
  induction l as [|m' l IH]; simpl; [reflexivity|].
  destruct (m.2 <? m'.2); [|reflexivity].
  rewrite IH. apply perm_swap.
Qed.

Lemma sorted_desc_perm l : process.sorted_desc l ≡ₚ l.
Proof.
  induction l as [|m l IH]; simpl; [reflexivity|].
  by rewrite insert_desc_perm, IH.
Qed.

Lemma insert_desc_descending m l :
  descending l → descending (process.insert_desc m l).
Proof.
  induction l as [|m' l IH]; simpl; [auto|].
  intros [Hhead Htail].
  destruct (Z.ltb_spec m.2 m'.2) as [Hlt|Hge]; simpl.
  - split; [|auto].
    apply Forall_forall. intros x [->|Hx]%insert_desc_elem; [lia|].
    by apply (proj1 (Forall_forall _ _) Hhead).
  - repeat split; [|exact Hhead | exact Htail].
    constructor; [exact Hge|].
    eapply Forall_impl; [exact Hhead|]. simpl. intros. lia.
Qed.

Lemma sorted_desc_descending l : descending (process.sorted_desc l).
Proof.
  induction l as [|m l IH]; simpl; [exact I|].
  by apply insert_desc_descending.
Qed.

Lemma descending_take n l : descending l → descending (take n l).
Proof.
  revert n. induction l as [|m l IH]; intros [|n]; simpl; auto.
  intros [Hhead Htail]. split; [|auto].
  apply Forall_take, Hhead.
Qed.

Lemma descending_take_drop n l x y :
  descending l → x ∈ take n l → y ∈ drop n l → y.2 <= x.2.
Proof.
  revert n. induction l as [|m l IH]; intros [|n]; simpl;
    try (intros _ H; by apply elem_of_nil in H).
  intros [Hhead Htail] [->|Hx]%elem_of_cons Hy.
  - apply (proj1 (Forall_forall _ _) Hhead).
    apply (subseteq_drop n l), Hy.
  - by apply (IH n).
Qed.

(** X16. After any sequence of calls of [track_usage] on a new manager,
    [get_usage_statistics] reports the number of calls as [total_usage] and
    the number of distinct texts as [total_synonyms]; [top_used] holds at
    most 20 entries in decreasing order of count, each a tracked text with
    the number of calls made for it, and no text left out was tracked more
    often than one that is listed. Letter case distinguishes texts. The
    pending suggestions stay empty. *)
Theorem usage_statistics_count_calls texts :
  let self := fold_left track_usage texts SynonymManager_init in
  let stats := get_usage_statistics self in
  total_usage stats = Z.of_nat (length texts)
  ∧ total_synonyms stats = length (first_occurrences [] texts)
  ∧ length (top_used stats) = Nat.min 20 (total_synonyms stats)
  ∧ descending (top_used stats)
  ∧ (∀ m, m ∈ top_used stats →
          m.1 ∈ texts ∧ m.2 = occurrences m.1 texts)
  ∧ (∀ m text, m ∈ top_used stats → text ∈ texts →
               text ∉ map fst (top_used stats) →
               occurrences text texts <= m.2)
  ∧ pending_synonyms self = [].
Proof.
  intros self stats.
  destruct (track_usage_calls texts SynonymManager_init)
    as (Hcount & Hkeys & Htotal & Hpending).
  fold self in Hcount, Hkeys, Htotal, Hpending.
  simpl in Hcount, Hkeys, Htotal, Hpending.
  assert (Hnodup : NoDup (dict_keys (usage_stats self)))
    by (rewrite Hkeys; apply first_occurrences_NoDup).
  assert (Hentry : ∀ m, m ∈ usage_stats self →
                        m.1 ∈ texts ∧ m.2 = occurrences m.1 texts).
  { intros [k v] Hm. simpl. split.
    - assert (Hk : k ∈ dict_keys (usage_stats self))
        by (apply list_elem_of_fmap; by exists (k, v)).
      rewrite Hkeys in Hk. by apply first_occurrences_elem in Hk as [Hk _].
    - pose proof (Hcount k) as Hk.
      rewrite (dict_get_elem _ _ _ Hnodup Hm) in Hk. simpl in Hk. lia. }
  assert (Hlength : length (usage_stats self)
                    = length (first_occurrences [] texts)).
  { rewrite <- Hkeys. unfold dict_keys. by rewrite length_map. }
  unfold stats, get_usage_statistics.
  cbn [total_usage total_synonyms top_used].
  repeat split.
  - exact Htotal.
  - exact Hlength.
  - rewrite length_take, (Permutation_length (sorted_desc_perm _)).
    reflexivity.
  - apply descending_take, sorted_desc_descending.
  - apply Hentry, sorted_desc_elem, (subseteq_take 20), H.
  - apply Hentry, sorted_desc_elem, (subseteq_take 20), H.
  - intros m text Hm Htext Hout.
    assert (Hk : text ∈ dict_keys (usage_stats self)).
    { rewrite Hkeys. apply first_occurrences_elem. split; [exact Htext|].
      apply not_elem_of_nil. }
    apply dict_key_elem in Hk as [v Hv].
    destruct (Hentry _ Hv) as [_ Hocc]. simpl in Hocc. rewrite <- Hocc.
    assert (Hsorted : (text, v) ∈ process.sorted_desc (usage_stats self))
      by (by rewrite sorted_desc_perm).
    rewrite <- (take_drop 20 (process.sorted_desc (usage_stats self)))
      in Hsorted.
    apply elem_of_app in Hsorted as [Hin | Hin].
    + contradiction Hout. apply list_elem_of_fmap. by exists (text, v).
    + apply (descending_take_drop 20 _ m (text, v)
               (sorted_desc_descending _) Hm Hin).
  - exact Hpending.
Qed.

End Usage.

(** ** The bookkeeping of [fuzzy_match_product] *)

Section Bookkeeping.

Variables ratio token_sort_ratio : string -> string -> Z.
Variable json_loads : string -> option (list string).

Lemma filed_rows_truthy products_data a n :
  (a, n) ∈ filed_rows products_data → a ≠ "" ∧ n ≠ "".
Proof.
  unfold filed_rows. intros (row & Hrow & Hfiled)%list_elem_of_omap.
  unfold filed_row in Hfiled.
  destruct (truthy_str (Article_Number row)) as [a'|] eqn:Ha; [|discriminate].
  destruct (truthy_str (Product row)) as [n'|] eqn:Hn; [|discriminate].
  injection Hfiled as -> ->.
  apply truthy_str_inv in Ha as [_ Ha]. apply truthy_str_inv in Hn as [_ Hn].
  auto.
Qed.

Lemma observe_settled mgr input_product t now :
  match_method t ≠ Some "synonym_match" →
  match_score t = 100 ∨ matched_article t = None →
  observe mgr input_product t now = mgr.
Proof.
  destruct t as [[[article product] score] method].
  unfold match_method, match_score, matched_article. simpl.
  intros Hmethod Hscore. rewrite bool_decide_eq_false_2 by exact Hmethod.
  destruct (truthy_str input_product) as [text|]; [|by destruct (truthy_str _)].
  destruct Hscore as [-> | ->]; [|reflexivity].
  by destruct (truthy_str article).
Qed.

Lemma observe_fuzzy mgr input_product a product score method now :
  method ≠ Some "synonym_match" → a ≠ "" →
  let t : match_tuple := (Some a, product, score, method) in
  usage_stats (observe mgr input_product t now) = usage_stats mgr
  ∧ pending_synonyms (observe mgr input_product t now)
    = (pending_synonyms mgr
       ++ match truthy_str input_product with
          | Some text =>
              if (85 <=? score) && (score <? 100)
              then [{| sg_synonym := text; sg_article := a;
                       sg_product := product; sg_score := score;
                       sg_suggested_at := now; sg_status := "pending" |}]
              else []
          | None => []
          end)%list.
Proof.
  intros Hmethod Ha t. unfold t, observe.
  rewrite bool_decide_eq_false_2 by exact Hmethod.
  rewrite (truthy_str_some _ Ha).
  destruct (truthy_str input_product) as [text|];
    [|by rewrite app_nil_r].
  unfold suggest_synonym.
  destruct ((85 <=? score) && (score <? 100)); simpl;
    [auto | by rewrite app_nil_r].
Qed.

(** X17. What [fuzzy_match_product] records in the synonym manager, on a
    cache built by [refresh], follows the method of the result. A synonym
    match counts one use of the text asked for and suggests nothing. A fuzzy
    match (of the article number or of the name) leaves the counts alone and
    appends one suggestion, for the text asked for and the article number of
    the result, exactly when a product text was given and the score lies
    from 85 to 99. Every other result, the exact matches and the no-match
    tuple, changes nothing. *)
Theorem bookkeeping_follows_method self products_data db_products now
    mgr input_product input_article threshold time t mgr' :
  let new := refresh json_loads self products_data db_products now in
  fuzzy_match_product ratio token_sort_ratio new mgr input_product
    input_article threshold time = Ok (t, mgr') →
  if bool_decide (match_method t = Some "synonym_match") then
    ∃ text, input_product = Some text ∧ text ≠ ""
            ∧ mgr' = track_usage mgr text
  else if bool_decide (match_method t = Some "fuzzy_article"
                       ∨ match_method t = Some "fuzzy_product_token_enhanced")
  then
    ∃ a, matched_article t = Some a
         ∧ usage_stats mgr' = usage_stats mgr
         ∧ pending_synonyms mgr'
           = (pending_synonyms mgr
              ++ match truthy_str input_product with
                 | Some text =>
                     if (85 <=? match_score t) && (match_score t <? 100)
                     then [{| sg_synonym := text; sg_article := a;
                              sg_product := matched_product t;
                              sg_score := match_score t;
                              sg_suggested_at := time;
                              sg_status := "pending" |}]
                     else []
                 | None => []
                 end)%list
  else mgr' = mgr.
Proof.
  intros new. unfold fuzzy_match_product.
  intros (result & Hresult & H)%bind_inv. injection H as -> <-.
  apply match_product_inv in Hresult as [H | [H | [H | [H | [H | ->]]]]].
  - pose proof (strategy1_score _ _ _ _ _ H) as (Hscore & m & Hm & Hin).
    unfold exact_article_methods in Hin.
    rewrite !elem_of_cons, elem_of_nil in Hin.
    rewrite !bool_decide_eq_false_2;
      [| rewrite Hm; intros [[= ->]|[= ->]]; intuition discriminate
       | rewrite Hm; intros [= ->]; intuition discriminate].
    apply observe_settled; [|by left].
    rewrite Hm; intros [= ->]; intuition discriminate.
  - pose proof (strategy2_score _ _ _ H) as Hscore.
    apply strategy2_method in H as (_ & m & Hm & Hin).
    unfold exact_name_methods in Hin.
    rewrite !elem_of_cons, elem_of_nil in Hin.
    rewrite !bool_decide_eq_false_2;
      [| rewrite Hm; intros [[= ->]|[= ->]]; intuition discriminate
       | rewrite Hm; intros [= ->]; intuition discriminate].
    apply observe_settled; [|by left].
    rewrite Hm; intros [= ->]; intuition discriminate.
  - apply strategy3_method in H as (Hm & name & r & Hname & Hr & ->).
    rewrite bool_decide_eq_true_2 by exact Hm.
    apply (refresh_synonyms_score json_loads) in Hr as Hscore.
    apply truthy_str_inv in Hname as Hinput. destruct Hinput as [-> Hne].
    exists name. repeat split; [exact Hne|].
    unfold observe. rewrite Hname, bool_decide_eq_true_2 by reflexivity.
    rewrite Hscore. by destruct (truthy_str (s_article r)).
  - pose proof (strategy4_method _ _ _ _ H) as Hm.
    apply strategy4_row in H as (a & n & Ha & Hn & Hrow).
    apply filed_rows_truthy in Hrow as [Hne _].
    rewrite bool_decide_eq_false_2 by (rewrite Hm; discriminate).
    rewrite bool_decide_eq_true_2 by (by left).
    exists a. split; [exact Ha|].
    destruct t as [[[article product] score] method].
    unfold matched_article, matched_product, match_score, match_method in *.
    simpl in *. subst article.
    apply observe_fuzzy; [rewrite Hm; discriminate | exact Hne].
  - pose proof (strategy5_method _ _ _ _ _ H) as Hm.
    apply strategy5_row in H as (a & n & Ha & Hn & Hrow).
    apply filed_rows_truthy in Hrow as [Hne _].
    rewrite bool_decide_eq_false_2 by (rewrite Hm; discriminate).
    rewrite bool_decide_eq_true_2 by (by right).
    exists a. split; [exact Ha|].
    destruct t as [[[article product] score] method].
    unfold matched_article, matched_product, match_score, match_method in *.
    simpl in *. subst article.
    apply observe_fuzzy; [rewrite Hm; discriminate | exact Hne].
  - rewrite !bool_decide_eq_false_2;
      [| intros [|]; discriminate | discriminate].
    apply observe_settled; [discriminate | by right].
Qed.

End Bookkeeping.

(** A fuzzy name match with score 86 on the catalogue with a red product:
    one suggestion is appended for the text asked for. *)
Lemma bookkeeping_follows_method_witness :
  ∃ a,
    Some "30002" = Some a
    ∧ usage_stats
        {| pending_synonyms :=
             [{| sg_synonym := "Rakza 9 Hard red"; sg_article := "30002";
                 sg_product := Some "Rakza 9 red"; sg_score := 86;
                 sg_suggested_at := 5; sg_status := "pending" |}];
           usage_stats := [] |}
      = usage_stats SynonymManager_init
    ∧ [{| sg_synonym := "Rakza 9 Hard red"; sg_article := "30002";
          sg_product := Some "Rakza 9 red"; sg_score := 86;
          sg_suggested_at := 5; sg_status := "pending" |}]
      = (pending_synonyms SynonymManager_init
         ++ [{| sg_synonym := "Rakza 9 Hard red"; sg_article := a;
                sg_product := Some "Rakza 9 red"; sg_score := 86;
                sg_suggested_at := 5; sg_status := "pending" |}])%list.
Proof.
  apply (bookkeeping_follows_method Fixtures.ratio Fixtures.token_sort_ratio
           Json.loads ProductCache_init Fixtures.hard_data [] 0
           SynonymManager_init (Some "Rakza 9 Hard red") None 80 5
           (Some "30002", Some "Rakza 9 red", 86,
            Some "fuzzy_product_token_enhanced")
           {| pending_synonyms :=
                [{| sg_synonym := "Rakza 9 Hard red"; sg_article := "30002";
                    sg_product := Some "Rakza 9 red"; sg_score := 86;
                    sg_suggested_at := 5; sg_status := "pending" |}];
              usage_stats := [] |}).
  vm_compute. reflexivity.
Defined.

(** ** The quantities that [validate] accepts *)

Section Quantities.

Lemma int_of_float_integer q n : (q == inject_Z n)%Q → int_of_float q = n.
Proof.
  unfold Qeq, int_of_float. simpl. rewrite Z.mul_1_r. intros ->.
  apply Z.quot_mul. discriminate.
Qed.

Lemma py_round_near q :
  (inject_Z (py_round q) - (1 # 2) <= q <= inject_Z (py_round q) + (1 # 2))%Q
  ∧ ((q == inject_Z (py_round q) - (1 # 2)
      ∨ q == inject_Z (py_round q) + (1 # 2))%Q →
     Z.even (py_round q) = true)
  ∧ Qfloor q <= py_round q.
Proof.
  unfold py_round. cbv zeta.
  pose proof (Qfloor_le q) as Hlow. pose proof (Qlt_floor q) as Hhigh.
  rewrite inject_Z_plus in Hhigh. change (inject_Z 1) with 1%Q in Hhigh.
  destruct (Qcompare_spec (q - inject_Z (Qfloor q)) (1 # 2)) as [He|Hl|Hg].
  - destruct (Z.even (Qfloor q)) eqn:Heven.
    + repeat split; [lra | lra | auto | lia].
    + rewrite inject_Z_plus. change (inject_Z 1) with 1%Q.
      repeat split; [lra | lra | | lia].
      intros _. rewrite Z.even_add, Heven. reflexivity.
  - repeat split; [lra | lra | intros [H|H]; lra | lia].
  - rewrite inject_Z_plus. change (inject_Z 1) with 1%Q.
    repeat split; [lra | lra | intros [H|H]; lra | lia].
Qed.

Ltac warnings_membership :=
  rewrite ?elem_of_app, ?elem_of_cons, ?elem_of_nil;
  intuition (try discriminate; try congruence; try lia).

(** X18. [QuantityValidator.validate] on the floats: the only input on which
    it raises is positive infinity, where [int] raises an [OverflowError]
    that the handler does not catch. A finite quantity is valid exactly when
    it is at least 1; an invalid one is returned as 0 with one message. A
    valid one is returned as the nearest integer, a tie going to the even
    neighbour, with the rounding warning exactly when the quantity is not an
    integer, the high-quantity warning exactly above 100 and the low-quantity
    warning exactly for 1 and 2. *)
Theorem validate_accepts_from_one :
  (∀ x, QuantityValidator.validate x = OverflowError ↔ x = Infinity false)
  ∧ ∀ q, ∃ ok n ws,
      QuantityValidator.validate (Finite q) = Validated ok n ws
      ∧ (ok = true ↔ (1 <= q)%Q)
      ∧ (ok = false → n = 0 ∧ ∃ w, ws = [w])
      ∧ (ok = true →
         1 <= n
         ∧ (inject_Z n - (1 # 2) <= q <= inject_Z n + (1 # 2))%Q
         ∧ ((q == inject_Z n - (1 # 2) ∨ q == inject_Z n + (1 # 2))%Q →
            Z.even n = true)
         ∧ (DecimalRounded q n ∈ ws ↔ ¬ (q == inject_Z n)%Q)
         ∧ (HighQuantity n ∈ ws ↔ 100 < n)
         ∧ (LowQuantity n ∈ ws ↔ n <= 2)).
Proof.
  split.
  { intros x. split; [|intros ->; reflexivity].
    destruct x as [q | [] | |]; simpl; try discriminate; [|reflexivity].
    destruct (float_gt 0 q); [discriminate|].
    destruct (float_gt q 0 && float_gt 1 q); [discriminate|].
    destruct (negb _); cbv zeta iota beta;
      destruct (_ =? 0); discriminate. }
  intros q. unfold QuantityValidator.validate.
  destruct (float_gt 0 q) eqn:Hneg.
  { apply float_gt_true in Hneg. do 3 eexists. split; [reflexivity|].
    repeat split; try discriminate; eauto. intros. lra. }
  apply float_gt_false in Hneg.
  destruct (float_gt q 0 && float_gt 1 q) eqn:Hfrac.
  { apply andb_true_iff in Hfrac as [_ Hlt%float_gt_true].
    do 3 eexists. split; [reflexivity|].
    repeat split; try discriminate; eauto. intros. lra. }
  assert (Hrange : (q == 0 ∨ 1 <= q)%Q).
  { apply andb_false_iff in Hfrac as [H%float_gt_false | H%float_gt_false];
      [left; lra | by right]. }
  destruct (Qeq_bool q (inject_Z (int_of_float q))) eqn:Hint; simpl negb;
    cbv iota beta zeta.
  - apply Qeq_bool_eq in Hint. set (n := int_of_float q) in *.
    destruct (Z.eqb_spec n 0) as [Hzero | Hnonzero].
    + do 3 eexists. split; [reflexivity|].
      rewrite Hzero in Hint. change (inject_Z 0) with 0%Q in Hint.
      repeat split; try discriminate; eauto. intros. lra.
    + assert (Hn : 1 <= n).
      { destruct Hrange as [Hq | Hq].
        - contradiction Hnonzero. unfold n.
          apply int_of_float_integer. rewrite Hq. reflexivity.
        - rewrite Hint in Hq. change 1%Q with (inject_Z 1) in Hq.
          by rewrite <- Zle_Qle in Hq. }
      do 3 eexists. split; [reflexivity|].
      split; [split; [intros _|reflexivity]|].
      { rewrite Hint. change 1%Q with (inject_Z 1). by rewrite <- Zle_Qle. }
      split; [discriminate|]. intros _.
      split; [exact Hn|].
      split; [lra|].
      split; [intros [H|H]; lra|].
      destruct (Z.ltb_spec 100 n), (Z.leb_spec 1 n), (Z.leb_spec n 2);
        simpl; repeat split; warnings_membership.
  - apply Qeq_bool_neq in Hint.
    destruct (py_round_near q) as (Hnear & Htie & Hfloor).
    set (n := py_round q) in *.
    assert (Hq : (1 <= q)%Q).
    { destruct Hrange as [Hq | Hq]; [|exact Hq].
      contradiction Hint.
      rewrite (int_of_float_integer q 0); [exact Hq | exact Hq]. }
    assert (Hn : 1 <= n).
    { apply Qfloor_resp_le in Hq. change 1%Q with (inject_Z 1) in Hq.
      rewrite Qfloor_Z in Hq. lia. }
    assert (Hnot : ¬ (q == inject_Z n)%Q).
    { intros Heq. apply Hint.
      by rewrite (int_of_float_integer q n Heq). }
    destruct (Z.eqb_spec n 0) as [Hzero | _]; [lia|].
    do 3 eexists. split; [reflexivity|].
    split; [split; [intros _; exact Hq | reflexivity]|].
    split; [discriminate|]. intros _.
    split; [exact Hn|].
    split; [exact Hnear|].
    split; [exact Htie|].
    destruct (Z.ltb_spec 100 n), (Z.leb_spec 1 n), (Z.leb_spec n 2);
      simpl; repeat split; warnings_membership.
Qed.

End Quantities.

(** ** The columns that [detect_columns] picks *)

Section Columns.

Import ColumnDetector.

Lemma strong_loop_spec keywords col s :
  strong_loop keywords col (strip (lower col)) s
  = if mentions keywords col && (strength s <? 2)
    then {| column := Some col; strength := 2 |} else s.
Proof.
  unfold mentions.
  induction keywords as [|keyword rest IH]; cbn [strong_loop existsb];
    [reflexivity|].
  destruct (contains keyword (strip (lower col)));
    cbn [orb andb]; [reflexivity | exact IH].
Qed.

Lemma weak_loop_spec keywords col s :
  weak_loop keywords col (strip (lower col)) s
  = if mentions keywords col && (strength s <? 1)
    then {| column := Some col; strength := 1 |} else s.
Proof.
  unfold mentions.
  induction keywords as [|keyword rest IH]; cbn [weak_loop existsb];
    [reflexivity|].
  destruct (contains keyword (strip (lower col)));
    cbn [orb andb]; [|exact IH].
  destruct (strength s <? 1); [reflexivity|].
  rewrite IH, andb_false_r. reflexivity.
Qed.

Lemma check_slot_after strong weak seen col :
  check strong weak (slot_after strong weak seen) col
  = slot_after strong weak (seen ++ [col]).
Proof.
  unfold check, slot_after. cbv zeta.
  rewrite strong_loop_spec, weak_loop_spec, !find_over_app. simpl.
  destruct (List.find (mentions strong) seen) as [c|]; simpl.
  { rewrite andb_false_r. reflexivity. }
  destruct (List.find (mentions weak) seen) as [c|]; simpl.
  - destruct (mentions strong col); simpl; [reflexivity|].
    rewrite andb_false_r. reflexivity.
  - destruct (mentions strong col); simpl; [reflexivity|].
    destruct (mentions weak col); reflexivity.
Qed.

Lemma detect_fold columns seen :
  fold_left
    (fun state col =>
       let '(product, article, quantity) := state in
       (check STRONG_PRODUCT_KEYWORDS WEAK_PRODUCT_KEYWORDS product col,
        check STRONG_ARTICLE_KEYWORDS WEAK_ARTICLE_KEYWORDS article col,
        check STRONG_QUANTITY_KEYWORDS WEAK_QUANTITY_KEYWORDS quantity col))
    columns
    (slot_after STRONG_PRODUCT_KEYWORDS WEAK_PRODUCT_KEYWORDS seen,
     slot_after STRONG_ARTICLE_KEYWORDS WEAK_ARTICLE_KEYWORDS seen,
     slot_after STRONG_QUANTITY_KEYWORDS WEAK_QUANTITY_KEYWORDS seen)
  = (slot_after STRONG_PRODUCT_KEYWORDS WEAK_PRODUCT_KEYWORDS
       (seen ++ columns),
     slot_after STRONG_ARTICLE_KEYWORDS WEAK_ARTICLE_KEYWORDS
       (seen ++ columns),
     slot_after STRONG_QUANTITY_KEYWORDS WEAK_QUANTITY_KEYWORDS
       (seen ++ columns)).
Proof.
  revert seen. induction columns as [|col columns IH]; intros seen.
  - rewrite app_nil_r. reflexivity.
  - cbn [fold_left]. rewrite !check_slot_after, IH, <- app_assoc.
    reflexivity.
Qed.

Lemma slot_after_column strong weak columns :
  column (slot_after strong weak columns) = preferred strong weak columns.
Proof.
  unfold slot_after, preferred.
  destruct (List.find (mentions strong) columns); [reflexivity|].
  destruct (List.find (mentions weak) columns); reflexivity.
Qed.

(** X19. For each of the three keys, [detect_columns] returns the first
    column whose name holds a strong keyword of the key and, when no column
    does, the first whose name holds a weak keyword, and [None] when there is
    none either. A keyword counts wherever it occurs inside the lower-cased
    name, and the three keys are decided independently of one another. *)
Theorem detect_columns_prefers_first_strong columns :
  detect_columns columns
  = {| product_col :=
         preferred STRONG_PRODUCT_KEYWORDS WEAK_PRODUCT_KEYWORDS columns;
       article_col :=
         preferred STRONG_ARTICLE_KEYWORDS WEAK_ARTICLE_KEYWORDS columns;
       quantity_col :=
         preferred STRONG_QUANTITY_KEYWORDS WEAK_QUANTITY_KEYWORDS columns |}.
Proof.
  pose proof (detect_fold columns []) as Hfold. cbn [app] in Hfold.
  change (slot_after STRONG_PRODUCT_KEYWORDS WEAK_PRODUCT_KEYWORDS [])
    with {| column := None; strength := 0 |} in Hfold.
  change (slot_after STRONG_ARTICLE_KEYWORDS WEAK_ARTICLE_KEYWORDS [])
    with {| column := None; strength := 0 |} in Hfold.
  change (slot_after STRONG_QUANTITY_KEYWORDS WEAK_QUANTITY_KEYWORDS [])
    with {| column := None; strength := 0 |} in Hfold.
  unfold detect_columns. cbv zeta. rewrite Hfold.
  by rewrite !slot_after_column.
Qed.

End Columns.

(** ** The method tag and the [MatchMethod] enumeration *)

Section AuditedMethod.

Variables ratio token_sort_ratio : string -> string -> Z.

Lemma match_product_methods self input_product input_article threshold t :
  match_product ratio token_sort_ratio self input_product input_article
    threshold = Ok t →
  match_method t = None
  ∨ ∃ m, match_method t = Some m
         ∧ m ∈ (exact_article_methods ++ exact_name_methods
                ++ ["synonym_match"; "fuzzy_article";
                    "fuzzy_product_token_enhanced"])%list.
Proof.
  intros Ht.
  apply match_product_inv in Ht as [H | [H | [H | [H | [H | ->]]]]].
  - apply strategy1_score in H as (_ & m & Hm & Hin). right. exists m.
    split; [exact Hm|]. apply elem_of_app. by left.
  - apply strategy2_method in H as (_ & m & Hm & Hin). right. exists m.
    split; [exact Hm|]. apply elem_of_app. right. apply elem_of_app. by left.
  - apply strategy3_method in H as (Hm & _). right. eexists.
    split; [exact Hm|].
    repeat first [apply list_elem_of_here | apply list_elem_of_further].
  - apply strategy4_method in H. right. eexists. split; [exact H|].
    repeat first [apply list_elem_of_here | apply list_elem_of_further].
  - apply strategy5_method in H. right. eexists. split; [exact H|].
    repeat first [apply list_elem_of_here | apply list_elem_of_further].
  - by left.
Qed.

(** X20. The conversion [MatchMethod(match_method)] that [process_order]
    applies to the method of a result of [match_product] raises [ValueError]
    exactly for the five tags that the enumeration does not have, the tag of
    every fuzzy name match among them; for every other result it returns the
    tag, or [None] for the no-match tuple. *)
Theorem audited_method_of_result self input_product input_article threshold
    t :
  match_product ratio token_sort_ratio self input_product input_article
    threshold = Ok t →
  match match_method t with
  | Some m =>
      if bool_decide (m ∈ undeclared_methods)
      then audited_method (Some m) = ValueError
      else audited_method (Some m) = Member (Some m)
           ∧ m ∈ ["exact_article"; "exact_product"; "synonym_match";
                  "fuzzy_article"]
  | None => audited_method None = Member None
  end.
Proof.
  intros [Hnone | (m & Hm & Hin)]%match_product_methods.
  - rewrite Hnone. reflexivity.
  - rewrite Hm.
    unfold exact_article_methods, exact_name_methods in Hin. simpl in Hin.
    rewrite !elem_of_cons, elem_of_nil in Hin.
    destruct Hin as [->|[->|[->|[->|[->|[->|[->|[->|[->|[]]]]]]]]]];
      vm_compute; repeat split; try reflexivity;
      repeat first [apply list_elem_of_here | apply list_elem_of_further].
Qed.

End AuditedMethod.

(** The fuzzy name match of the test suite cannot be converted. *)
Lemma audited_method_of_result_witness :
  audited_method (Some "fuzzy_product_token_enhanced") = ValueError.
Proof.
  apply (audited_method_of_result Fixtures.ratio Fixtures.token_sort_ratio
           Fixtures.cache (Some "Rakza 9 Black") None 80
           (Some "12345", Some "Rakza 9 Black 2.0mm", 81,
            Some "fuzzy_product_token_enhanced")).
  vm_compute. reflexivity.
Defined.

(** ** Disambiguation by tokens *)

Section TokenDisambiguation.

Lemma token_steps_best T article products best :
  let r := fold_left (token_step T article) products best in
  (best.2 <= r.2)%Q
  ∧ (∀ v, v ∈ products →
          (token_similarity T (extract_tokens (v_name v)) <= r.2)%Q)
  ∧ (r = best
     ∨ r.1 = Some article
       ∧ (best.2 < r.2)%Q
       ∧ ∃ v, v ∈ products
              ∧ r.2 = token_similarity T (extract_tokens (v_name v))).
Proof.
  revert best. induction products as [|p products IH]; intros best; simpl.
  - repeat split; [lra | intros v Hv; by apply elem_of_nil in Hv | by left].
  - destruct (IH (token_step T article best p)) as (Hle & Hall & Hlast).
    assert (Hstep :
      (best.2 <= (token_step T article best p).2)%Q
      ∧ (token_similarity T (extract_tokens (v_name p))
         <= (token_step T article best p).2)%Q
      ∧ (token_step T article best p = best
         ∨ token_step T article best p
           = (Some article, token_similarity T (extract_tokens (v_name p)))
           ∧ (best.2 < token_similarity T (extract_tokens (v_name p)))%Q)).
    { unfold token_step. destruct best as [b s]. cbv zeta.
      destruct (float_gt _ s) eqn:Hgt; simpl.
      - apply float_gt_true in Hgt. repeat split; [lra | lra | by right].
      - apply float_gt_false in Hgt. repeat split; [lra | lra | by left]. }
    destruct Hstep as (Hs1 & Hs2 & Hs3).
    split; [lra|]. split.
    + intros v [->|Hv]%elem_of_cons; [lra | by apply Hall].
    + destruct Hlast as [Hr | (Ha & Hlt & v & Hv & Hsim)].
      * destruct Hs3 as [Hsame | [Hnew Hlt]].
        -- left. by rewrite Hr.
        -- right. rewrite Hr, Hnew. simpl. repeat split; [exact Hlt|].
           exists p. split; [apply list_elem_of_here | reflexivity].
      * right. repeat split; [exact Ha | lra |].
        exists v. split; [by apply list_elem_of_further | exact Hsim].
Qed.

Lemma token_scan_best self T articles best :
  let r := token_scan self T articles best in
  (best.2 <= r.2)%Q
  ∧ (∀ a v, a ∈ articles → v ∈ get_products_by_article self a →
            (token_similarity T (extract_tokens (v_name v)) <= r.2)%Q)
  ∧ (r = best
     ∨ (best.2 < r.2)%Q
       ∧ ∃ a v, a ∈ articles ∧ v ∈ get_products_by_article self a
                ∧ r.1 = Some a
                ∧ r.2 = token_similarity T (extract_tokens (v_name v))).
Proof.
  unfold token_scan. revert best.
  induction articles as [|article articles IH]; intros best; simpl.
  - repeat split; [lra | intros a v Ha; by apply elem_of_nil in Ha | by left].
  - pose proof (token_steps_best T article
                  (get_products_by_article self article) best)
      as (Hs1 & Hs2 & Hs3).
    simpl in Hs1, Hs2, Hs3.
    set (mid := fold_left (token_step T article)
                  (get_products_by_article self article) best) in *.
    destruct (IH mid) as (Hle & Hall & Hlast).
    split; [lra|]. split.
    + intros a v [->|Ha]%elem_of_cons Hv.
      * specialize (Hs2 v Hv). lra.
      * by apply (Hall a v).
    + destruct Hlast as [Hr | (Hlt & a & v & Ha & Hv & Hbest & Hsim)].
      * destruct Hs3 as [Hsame | (Hnew & Hlt & v & Hv & Hsim)].
        -- left. by rewrite Hr.
        -- right. rewrite Hr. split; [exact Hlt|].
           exists article, v.
           repeat split; [apply list_elem_of_here | exact Hv | exact Hnew
                         | exact Hsim].
      * right. split; [lra|]. exists a, v.
        repeat split; [by apply list_elem_of_further | exact Hv | exact Hbest
                      | exact Hsim].
Qed.

(** X21. [_choose_best_article_by_tokens] returns an article number exactly
    when some variant of some candidate has a token similarity with the
    query above one half. The article number returned is then a candidate
    that owns a variant of the greatest similarity among all variants of all
    candidates; otherwise the result is [None] and every similarity is at
    most one half. *)
Theorem choose_best_article_is_most_similar self input_product articles :
  match _choose_best_article_by_tokens self input_product articles with
  | Some article =>
      article ∈ articles
      ∧ ∃ v, v ∈ get_products_by_article self article
             ∧ (1 # 2 < name_similarity input_product (v_name v))%Q
             ∧ ∀ a' v', a' ∈ articles →
                        v' ∈ get_products_by_article self a' →
                        (name_similarity input_product (v_name v')
                         <= name_similarity input_product (v_name v))%Q
  | None =>
      ∀ a' v', a' ∈ articles → v' ∈ get_products_by_article self a' →
               (name_similarity input_product (v_name v') <= 1 # 2)%Q
  end.
Proof.
  rewrite choose_best_article_by_tokens_scan. unfold name_similarity.
  destruct (bool_decide (extract_tokens input_product = ∅)) eqn:Hempty.
  { apply bool_decide_eq_true in Hempty. intros a' v' _ _.
    rewrite token_similarity_empty by (by left). discriminate. }
  cbv zeta.
  pose proof (token_scan_best self (extract_tokens input_product) articles
                (None, 0%Q)) as (Hle & Hall & Hlast).
  simpl in Hle, Hall, Hlast.
  set (r := token_scan self (extract_tokens input_product) articles
              (None, 0%Q)) in *.
  destruct (float_gt r.2 (1 # 2)) eqn:Hgt.
  - apply float_gt_true in Hgt.
    destruct Hlast as [Hr | (_ & a & v & Ha & Hv & Hbest & Hsim)].
    { rewrite Hr in Hgt. simpl in Hgt. lra. }
    rewrite Hbest. split; [exact Ha|]. exists v.
    split; [exact Hv|]. rewrite <- Hsim. split; [exact Hgt|].
    intros a' v' Ha' Hv'. by apply (Hall a' v').
  - apply float_gt_false in Hgt. intros a' v' Ha' Hv'.
    specialize (Hall a' v' Ha' Hv'). lra.
Qed.

End TokenDisambiguation.

(** ** The fuzzy article match *)

Section FuzzyArticle.

Variables ratio token_sort_ratio : string -> string -> Z.
Variable json_loads : string -> option (list string).

Lemma filter_head_find {A} (p : A → bool) l x rest :
  List.filter p l = x :: rest → List.find p l = Some x.
Proof.
  induction l as [|y l IH]; simpl; [discriminate|].
  destruct (p y); [by intros [= ->] | exact IH].
Qed.

(** X22. On a cache built by [refresh], a result with the method
    [fuzzy_article] names the article number of the catalogue that scores
    highest against the article number asked for: its score is that of the
    scorer, at least 85, no article number of the catalogue scores more,
    and the name returned is that of the first row of the catalogue with
    the article number. *)
Theorem fuzzy_article_is_best_scoring self products_data db_products now
    input_product input_article threshold t :
  let new := refresh json_loads self products_data db_products now in
  let filed := filed_rows products_data in
  match_product ratio token_sort_ratio new input_product input_article
    threshold = Ok t →
  match_method t = Some "fuzzy_article" →
  ∃ query article name,
    input_article = Some query
    ∧ t = (Some article, Some name, ratio query article,
           Some "fuzzy_article")
    ∧ List.find (λ r, String.eqb article r.1) filed = Some (article, name)
    ∧ 85 <= ratio query article
    ∧ ∀ r, r ∈ filed → ratio query r.1 <= ratio query article.
Proof.
  intros new filed Ht Hmethod.
  apply match_product_inv in Ht as [H | [H | [H | [H | [H | ->]]]]].
  - apply strategy1_method in H. rewrite Hmethod in H.
    destruct H as [|[|]]; discriminate.
  - apply strategy2_method in H as (_ & m & Hm & Hin).
    rewrite Hmethod in Hm. injection Hm as <-.
    unfold exact_name_methods in Hin.
    rewrite !elem_of_cons, elem_of_nil in Hin.
    destruct Hin as [|[|[|[]]]]; discriminate.
  - apply strategy3_method in H as (Hm & _). rewrite Hmethod in Hm.
    discriminate.
  - clear Hmethod. revert H. unfold strategy4.
    destruct (truthy_str input_article) as [query|] eqn:Hquery;
      [|discriminate].
    apply truthy_str_inv in Hquery as [-> _].
    assert (Hkeys : dict_keys (_article_to_products new)
                    = first_occurrences [] (map fst filed)).
    { unfold new, refresh. simpl.
      destruct (refresh_synonyms_fold_indexes json_loads db_products
                  (fold_left refresh_product products_data (clear self)))
        as (-> & _).
      apply (refresh_products_keys json_loads products_data (clear self)). }
    rewrite Hkeys.
    destruct (first_occurrences [] (map fst filed)) as [|k keys] eqn:Hfirst;
      [discriminate|].
    destruct (process.extractOne ratio query (k :: keys)) as [best|] eqn:Hbest;
      [|discriminate].
    apply extractOne_some in Hbest as (Hin & Hscore & _ & Hmax).
    destruct (Z.leb_spec 85 best.2) as [Hle|]; [|discriminate].
    destruct (refresh_contents json_loads self products_data db_products now)
      as (_ & Hp & _).
    fold new in Hp. rewrite Hp.
    destruct (List.filter (λ r, String.eqb best.1 r.1)
                (filed_rows products_data)) as [|r0 rows] eqn:Hfilter;
      [discriminate|].
    simpl. intros [= <-].
    assert (Hr0 : In r0 (List.filter (λ r, String.eqb best.1 r.1)
                           (filed_rows products_data)))
      by (rewrite Hfilter; by left).
    apply filter_In in Hr0 as [_ Hr0]. apply String.eqb_eq in Hr0.
    exists query, best.1, r0.2. rewrite Hscore.
    repeat split.
    + by rewrite Hr0.
    + apply filter_head_find in Hfilter. unfold filed. rewrite Hfilter.
      destruct r0 as [a n]. simpl in *. by rewrite Hr0.
    + lia.
    + intros r Hr.
      assert (Hkey : r.1 ∈ k :: keys).
      { rewrite <- Hfirst. apply first_occurrences_elem.
        split; [|apply not_elem_of_nil].
        apply list_elem_of_fmap. by exists r. }
      specialize (Hmax _ Hkey). lia.
  - apply strategy5_method in H. rewrite Hmethod in H. discriminate.
  - discriminate.
Qed.

End FuzzyArticle.

(** An article number with one digit changed, on the catalogue of the test
    suite, with a scorer that rates the first article number 90. *)
Lemma fuzzy_article_is_best_scoring_witness :
  ∃ query article name,
    Some "12349" = Some query
    ∧ (Some "12345", Some "Rakza 9 Black 2.0mm", 90, Some "fuzzy_article")
      = (Some article, Some name,
         Fixtures.table_scorer [("12349", "12345", 90)] query article,
         Some "fuzzy_article")
    ∧ 85 <= Fixtures.table_scorer [("12349", "12345", 90)] query article.
Proof.
  destruct (fuzzy_article_is_best_scoring
              (Fixtures.table_scorer [("12349", "12345", 90)])
              Fixtures.token_sort_ratio Json.loads ProductCache_init
              Fixtures.products_data Fixtures.db_products 0 None
              (Some "12349") 80
              (Some "12345", Some "Rakza 9 Black 2.0mm", 90,
               Some "fuzzy_article"))
    as (query & article & name & H1 & H2 & _ & H3 & _).
  - vm_compute. reflexivity.
  - reflexivity.
  - exists query, article, name. repeat split; assumption.
Defined.
